(** * vtkMapMarkerSet: the marker clustering engine of vtkMap

    A shallow embedding of [vtkMapMarkerSet.cxx] and the properties of its
    node tree, level table, proximity search, merge, materialization and
    pick resolution.

    Modelling conventions.
    - A [ClusteringNode*] is an address ([nat]); the null pointer is [None]
      in [option nat].  The memory that [new]/[delete] manage is the finite
      map [Memory] from addresses to node records.  [new] hands out the
      address [length AllNodes], which no live node has.
    - [std::set<ClusteringNode*>] is a [gset nat]; a loop over such a set
      visits [elements] of it.  The source visits the set in address order,
      which the allocator decides; no statement below depends on the order
      except where it says so, and the proximity search of the module
      [Double] takes the order as a parameter.
    - The coordinates of the nodes and the cluster distance, of type
      [double] in the source, are exact rationals [Q] in the operations on
      the tree: rounding is not modelled there, and a division whose divisor
      is zero (an infinity or a NaN in the source) ends a run with
      [NotFinite].
    - Where an answer of the source turns on the rounding of a single
      operation, [double] is the IEEE 754 binary64 type [float] of the
      kernel with its operations: the scale of a marker in [Update], and the
      proximity search of the module [Double].
    - [int] is modelled by [Z]; the counters are not bounded by 2^31.
    - Dereferencing a null or deleted pointer, indexing a vector out of its
      range and shifting by a count outside 0..30 are undefined behaviour in
      the source: a run that does so ends with [Fault]. *)

From Stdlib Require Import Floats.
From Stdlib Require Import ZArith QArith Qfield Lia Lqa.
From stdpp Require Import base option list sorting gmap.

#[local] Set Warnings "-clear-no-such-hyp".
Local Open Scope Z_scope.

(** ** Outcomes of a run *)

Inductive result (A : Type) : Type :=
| Ok (a : A)
| Fault
| NotFinite.
Arguments Ok {A} a.
Arguments Fault {A}.
Arguments NotFinite {A}.

Global Instance result_ret : MRet result := λ A a, Ok a.
Global Instance result_bind : MBind result := λ A B f m,
  match m with
  | Ok a => f a
  | Fault => Fault
  | NotFinite => NotFinite
  end.

(** A loop whose body may end the run. *)
Fixpoint foldlM {A B : Type} (f : A → B → result A) (a : A) (l : list B)
  : result A :=
  match l with
  | [] => Ok a
  | b :: l' => a' ← f a b; foldlM f a' l'
  end.

(** ** Arithmetic on doubles *)

Definition Qltb (x y : Q) : bool :=
  (Qnum x * Zpos (Qden y) <? Qnum y * Zpos (Qden x))%Z.

Definition fdiv (a b : Q) : result Q :=
  if Qeq_bool b 0 then NotFinite else Ok (a / b)%Q.

(** [static_cast<double>] of an [int]: exact, as every [int] is a
    [double]. *)
Definition double_of_int (n : Z) : float :=
  if n <? 0 then (- of_uint63 (Uint63.of_Z (- n)))%float
  else of_uint63 (Uint63.of_Z n).

(** [1 << n] on an [int]. *)
Definition shl1 (n : Z) : result Z :=
  if (0 <=? n) && (n <? 31) then Ok (Z.shiftl 1 n) else Fault.

(** ** Data model *)

Definition NumberOfClusterLevels : Z := 20.
Definition MARKER_TYPE : Z := 0.
Definition CLUSTER_TYPE : Z := 1.

Record ClusteringNode : Type := mkNode {
  NodeId : Z;
  Level : Z;
  gcsCoords : Q * Q;
  Parent : option nat;
  Children : gset nat;
  NumberOfMarkers : Z;
  MarkerId : Z
}.

Record MapMarkerSetInternals : Type := mkInternals {
  MarkersChanged : bool;
  CurrentNodes : list nat;
  ZoomLevel : Z;
  NodeTable : list (gset nat);
  Internals_NumberOfMarkers : Z;
  ClusterDistance : Q;
  NumberOfNodes : Z;
  AllNodes : list (option nat)
}.

(** The point data of [this->PolyData]: the points and the three arrays
    that [Init] adds. *)
Record MarkerArrays : Type := mkArrays {
  Color : list (Z * Z * Z);
  MarkerType : list Z;
  MarkerScale : list float
}.

Record vtkMapMarkerSet : Type := mkMarkerSet {
  Initialized : bool;
  Clustering : bool;
  MaxClusterScaleFactor : float;
  Internals : MapMarkerSetInternals;
  Points : list (Q * Q);
  PointData : option MarkerArrays;
  Memory : gmap nat ClusteringNode
}.

(** Field updates. *)
Definition set_gcsCoords (c : Q * Q) (n : ClusteringNode) : ClusteringNode :=
  mkNode (NodeId n) (Level n) c (Parent n) (Children n)
         (NumberOfMarkers n) (MarkerId n).
Definition set_Parent (p : option nat) (n : ClusteringNode) : ClusteringNode :=
  mkNode (NodeId n) (Level n) (gcsCoords n) p (Children n)
         (NumberOfMarkers n) (MarkerId n).
Definition set_Children (c : gset nat) (n : ClusteringNode) : ClusteringNode :=
  mkNode (NodeId n) (Level n) (gcsCoords n) (Parent n) c
         (NumberOfMarkers n) (MarkerId n).
Definition set_NumberOfMarkers (k : Z) (n : ClusteringNode) : ClusteringNode :=
  mkNode (NodeId n) (Level n) (gcsCoords n) (Parent n) (Children n)
         k (MarkerId n).
Definition set_MarkerId (k : Z) (n : ClusteringNode) : ClusteringNode :=
  mkNode (NodeId n) (Level n) (gcsCoords n) (Parent n) (Children n)
         (NumberOfMarkers n) k.
Definition set_Level (k : Z) (n : ClusteringNode) : ClusteringNode :=
  mkNode (NodeId n) k (gcsCoords n) (Parent n) (Children n)
         (NumberOfMarkers n) (MarkerId n).

Definition set_Internals (i : MapMarkerSetInternals) (s : vtkMapMarkerSet)
  : vtkMapMarkerSet :=
  mkMarkerSet (Initialized s) (Clustering s) (MaxClusterScaleFactor s) i
              (Points s) (PointData s) (Memory s).
Definition set_Memory (h : gmap nat ClusteringNode) (s : vtkMapMarkerSet)
  : vtkMapMarkerSet :=
  mkMarkerSet (Initialized s) (Clustering s) (MaxClusterScaleFactor s)
              (Internals s) (Points s) (PointData s) h.
Definition set_Clustering (b : bool) (s : vtkMapMarkerSet) : vtkMapMarkerSet :=
  mkMarkerSet (Initialized s) b (MaxClusterScaleFactor s)
              (Internals s) (Points s) (PointData s) (Memory s).
Definition set_MaxClusterScaleFactor (k : float) (s : vtkMapMarkerSet)
  : vtkMapMarkerSet :=
  mkMarkerSet (Initialized s) (Clustering s) k
              (Internals s) (Points s) (PointData s) (Memory s).

Definition set_NodeTable (t : list (gset nat)) (i : MapMarkerSetInternals)
  : MapMarkerSetInternals :=
  mkInternals (MarkersChanged i) (CurrentNodes i) (ZoomLevel i) t
              (Internals_NumberOfMarkers i) (ClusterDistance i)
              (NumberOfNodes i) (AllNodes i).
Definition set_AllNodes (a : list (option nat)) (i : MapMarkerSetInternals)
  : MapMarkerSetInternals :=
  mkInternals (MarkersChanged i) (CurrentNodes i) (ZoomLevel i) (NodeTable i)
              (Internals_NumberOfMarkers i) (ClusterDistance i)
              (NumberOfNodes i) a.
Definition set_NumberOfNodes (k : Z) (i : MapMarkerSetInternals)
  : MapMarkerSetInternals :=
  mkInternals (MarkersChanged i) (CurrentNodes i) (ZoomLevel i) (NodeTable i)
              (Internals_NumberOfMarkers i) (ClusterDistance i)
              k (AllNodes i).
Definition set_Internals_NumberOfMarkers (k : Z) (i : MapMarkerSetInternals)
  : MapMarkerSetInternals :=
  mkInternals (MarkersChanged i) (CurrentNodes i) (ZoomLevel i) (NodeTable i)
              k (ClusterDistance i) (NumberOfNodes i) (AllNodes i).
Definition set_MarkersChanged (b : bool) (i : MapMarkerSetInternals)
  : MapMarkerSetInternals :=
  mkInternals b (CurrentNodes i) (ZoomLevel i) (NodeTable i)
              (Internals_NumberOfMarkers i) (ClusterDistance i)
              (NumberOfNodes i) (AllNodes i).

(** ** Memory and vector access *)

(** [p->...] *)
Definition load (h : gmap nat ClusteringNode) (p : option nat)
  : result ClusteringNode :=
  match p with
  | None => Fault
  | Some a => match h !! a with Some n => Ok n | None => Fault end
  end.

(** [p->field = ...], as a change of the record at [p]. *)
Definition modify (h : gmap nat ClusteringNode) (p : option nat)
    (f : ClusteringNode → ClusteringNode) : result (gmap nat ClusteringNode) :=
  n ← load h p;
  match p with
  | Some a => Ok (<[a := f n]> h)
  | None => Fault
  end.

(** [v[i]] for an [int] index. *)
Definition at_index {A : Type} (v : list A) (i : Z) : result A :=
  if i <? 0 then Fault
  else match v !! Z.to_nat i with Some x => Ok x | None => Fault end.

(** [v[i] = x] for an [int] index. *)
Definition assign_index {A : Type} (v : list A) (i : Z) (x : A)
  : result (list A) :=
  _ ← at_index v i; Ok (<[Z.to_nat i := x]> v).

Arguments load : simpl never.
Arguments modify : simpl never.
Arguments at_index : simpl never.
Arguments assign_index : simpl never.
Arguments fdiv : simpl never.
Arguments shl1 : simpl never.

(** ** The constructor *)

Definition vtkMapMarkerSet_new : vtkMapMarkerSet :=
  mkMarkerSet false false 2%float
    (mkInternals false [] (-1)
       (replicate (Z.to_nat NumberOfClusterLevels) ∅) 0 80 0 [])
    [] None ∅.

(** [Init]: the three arrays are added to the point data (the rendering
    pipeline that [Init] also builds is outside the model). *)
Definition Init (s : vtkMapMarkerSet) : vtkMapMarkerSet :=
  mkMarkerSet true (Clustering s) (MaxClusterScaleFactor s) (Internals s)
              (Points s) (Some (mkArrays [] [] [])) (Memory s).

(** ** FindClosestNode *)

Definition dist2 (other node : ClusteringNode) : Q :=
  let d2 := 0%Q in
  let d1 := (fst (gcsCoords other) - fst (gcsCoords node))%Q in
  let d2 := (d2 + d1 * d1)%Q in
  let d1 := (snd (gcsCoords other) - snd (gcsCoords node))%Q in
  (d2 + d1 * d1)%Q.

(** The loop over [nodeSet]. *)
Fixpoint FindClosestNode_scan (h : gmap nat ClusteringNode) (node : nat)
    (nodeSet : list nat) (closestNode : option nat) (closestDistance2 : Q)
  : result (option nat) :=
  match nodeSet with
  | [] => Ok closestNode
  | other :: rest =>
    if decide (other = node)
    then FindClosestNode_scan h node rest closestNode closestDistance2
    else
      o ← load h (Some other);
      n ← load h (Some node);
      let d2 := dist2 o n in
      if Qltb d2 closestDistance2
      then FindClosestNode_scan h node rest (Some other) d2
      else FindClosestNode_scan h node rest closestNode closestDistance2
  end.

Definition level0Scale : Q := 360 / 256.

Definition gcsThreshold (zoomLevel : Z) (distanceThreshold : Q) : result Q :=
  p ← shl1 zoomLevel;
  scale ← fdiv level0Scale (inject_Z p);
  Ok (scale * distanceThreshold)%Q.

Definition FindClosestNode (node : nat) (zoomLevel : Z) (distanceThreshold : Q)
    (s : vtkMapMarkerSet) : result (option nat) :=
  gcsThreshold ← gcsThreshold zoomLevel distanceThreshold;
  let gcsThreshold2 := (gcsThreshold * gcsThreshold)%Q in
  nodeSet ← at_index (NodeTable (Internals s)) zoomLevel;
  FindClosestNode_scan (Memory s) node (elements nodeSet) None gcsThreshold2.

(** ** MergeNodes *)

(** The loop over the working copy of [mergingNode->Children]. *)
Definition MergeNodes_relink (node : nat) (h : gmap nat ClusteringNode)
    (childNode : nat) : result (gmap nat ClusteringNode) :=
  h ← modify h (Some node) (λ n, set_Children ({[childNode]} ∪ Children n) n);
  modify h (Some childNode) (set_Parent (Some node)).

Definition MergeNodes (node mergingNode : nat) (parentsToMerge : gset nat)
    (level : Z) (s : vtkMapMarkerSet) : result (vtkMapMarkerSet * gset nat) :=
  let h := Memory s in
  (* the level check only reports *)
  n ← load h (Some node);
  m ← load h (Some mergingNode);
  (* Update gcsCoords *)
  let numMarkers := NumberOfMarkers n + NumberOfMarkers m in
  let denominator := inject_Z numMarkers in
  c0 ← fdiv (fst (gcsCoords n) * inject_Z (NumberOfMarkers n) +
             fst (gcsCoords m) * inject_Z (NumberOfMarkers m))%Q denominator;
  c1 ← fdiv (snd (gcsCoords n) * inject_Z (NumberOfMarkers n) +
             snd (gcsCoords m) * inject_Z (NumberOfMarkers m))%Q denominator;
  h ← modify h (Some node)
        (λ n, set_MarkerId (-1) (set_NumberOfMarkers numMarkers
                                   (set_gcsCoords (c0, c1) n)));
  (* Update links to/from children of merging node *)
  m ← load h (Some mergingNode);
  let childNodeSet := Children m in
  h ← foldlM (MergeNodes_relink node) h (elements childNodeSet);
  (* Adjust parent marker counts *)
  m ← load h (Some mergingNode);
  let n_ := NumberOfMarkers m in
  n ← load h (Some node);
  h ← modify h (Parent n) (λ p, set_NumberOfMarkers (NumberOfMarkers p + n_) p);
  m ← load h (Some mergingNode);
  h ← modify h (Parent m) (λ p, set_NumberOfMarkers (NumberOfMarkers p - n_) p);
  (* Remove mergingNode from its parent *)
  m ← load h (Some mergingNode);
  let parent := Parent m in
  h ← modify h parent (λ p, set_Children (Children p ∖ {[mergingNode]}) p);
  (* Remember parent node if different than node's parent *)
  m ← load h (Some mergingNode);
  n ← load h (Some node);
  let parentsToMerge :=
    match Parent m with
    | Some q => if decide (Parent m = Parent n) then parentsToMerge
                else {[q]} ∪ parentsToMerge
    | None => parentsToMerge
    end in
  (* Delete mergingNode *)
  nodeSet ← at_index (NodeTable (Internals s)) level;
  table ← (if decide (mergingNode ∈ nodeSet)
           then assign_index (NodeTable (Internals s)) level
                             (nodeSet ∖ {[mergingNode]})
           else Ok (NodeTable (Internals s)));
  all ← assign_index (AllNodes (Internals s)) (NodeId m) None;
  let h := delete mergingNode h in
  Ok (set_Memory h
        (set_Internals (set_AllNodes all (set_NodeTable table (Internals s))) s),
      parentsToMerge).

(** ** AddMarker *)

(** [new ClusteringNode] followed by [AllNodes.push_back] and
    [NodeId = NumberOfNodes++]; the other fields are those the caller
    assigns. *)
Definition new_node (level : Z) (coords : Q * Q) (parent : option nat)
    (children : gset nat) (count markerId : Z) (s : vtkMapMarkerSet)
  : nat * vtkMapMarkerSet :=
  let i := Internals s in
  let a := length (AllNodes i) in
  let rec := mkNode (NumberOfNodes i) level coords parent children
                    count markerId in
  (a, set_Memory (<[a := rec]> (Memory s))
        (set_Internals
           (set_NumberOfNodes (NumberOfNodes i + 1)
              (set_AllNodes (AllNodes i ++ [Some a]) i)) s)).

(** [NodeTable[level].insert(node)] *)
Definition table_insert (level : Z) (node : nat) (s : vtkMapMarkerSet)
  : result vtkMapMarkerSet :=
  nodeSet ← at_index (NodeTable (Internals s)) level;
  table ← assign_index (NodeTable (Internals s)) level ({[node]} ∪ nodeSet);
  Ok (set_Internals (set_NodeTable table (Internals s)) s).

(** The insertion step: the [for] loop from [level] = [n - 1] down to 0.
    It answers the node and the level at which the loop was left. *)
Fixpoint AddMarker_insertion (n : nat) (node : nat) (threshold : Q)
    (s : vtkMapMarkerSet) : result (vtkMapMarkerSet * nat * Z) :=
  match n with
  | O => Ok (s, node, -1)
  | S l =>
    let level := Z.of_nat l in
    closest ← FindClosestNode node level threshold s;
    match closest with
    | Some closest =>
      let h := Memory s in
      c ← load h (Some closest);
      nd ← load h (Some node);
      let denominator := (1 + inject_Z (NumberOfMarkers c))%Q in
      c0 ← fdiv (fst (gcsCoords c) * inject_Z (NumberOfMarkers c) +
                 fst (gcsCoords nd))%Q denominator;
      c1 ← fdiv (snd (gcsCoords c) * inject_Z (NumberOfMarkers c) +
                 snd (gcsCoords nd))%Q denominator;
      h ← modify h (Some closest)
            (λ c, set_Children ({[node]} ∪ Children c)
                    (set_MarkerId (-1)
                       (set_NumberOfMarkers (NumberOfMarkers c + 1)
                          (set_gcsCoords (c0, c1) c))));
      h ← modify h (Some node) (set_Parent (Some closest));
      (* Insertion step ends with first clustering *)
      Ok (set_Memory h s, closest, level)
    | None =>
      (* Copy node and add to this level *)
      nd ← load (Memory s) (Some node);
      let '(newNode, s) :=
        new_node level (gcsCoords nd) None {[node]}
                 (NumberOfMarkers nd) (MarkerId nd) s in
      s ← table_insert level newNode s;
      h ← modify (Memory s) (Some node) (set_Parent (Some newNode));
      AddMarker_insertion l newNode threshold (set_Memory h s)
    end
  end.

(** The loop that merges the nodes identified in the previous iteration. *)
Definition AddMarker_merge (node : nat) (level : Z)
    (acc : vtkMapMarkerSet * gset nat) (mergingNode : nat)
  : result (vtkMapMarkerSet * gset nat) :=
  if decide (node = mergingNode) then Ok acc
  else MergeNodes node mergingNode (snd acc) level (fst acc).

(** The loop over [node->Children] that updates the count. *)
Definition AddMarker_count (h : gmap nat ClusteringNode)
    (acc : Z * (Q * Q)) (child : nat) : result (Z * (Q * Q)) :=
  c ← load h (Some child);
  let '(numMarkers, (num0, num1)) := acc in
  Ok (numMarkers + NumberOfMarkers c,
      ((num0 + inject_Z (NumberOfMarkers c) * fst (gcsCoords c))%Q,
       (num1 + inject_Z (NumberOfMarkers c) * snd (gcsCoords c))%Q)).

(** The refinement step: the [while] loop from [level] = [n - 1] down
    to 0. *)
Fixpoint AddMarker_refinement (n : nat) (node : option nat)
    (nodesToMerge : gset nat) (threshold : Q) (s : vtkMapMarkerSet)
  : result vtkMapMarkerSet :=
  match n with
  | O => Ok s
  | S l =>
    let level := Z.of_nat l in
    match node with
    | None => Fault
    | Some node =>
      (* Merge nodes identified in previous iteration *)
      '(s, parentsToMerge) ←
        foldlM (AddMarker_merge node level) (s, ∅) (elements nodesToMerge);
      (* Update count *)
      nd ← load (Memory s) (Some node);
      '(numMarkers, (num0, num1)) ←
        foldlM (AddMarker_count (Memory s)) (0, (0%Q, 0%Q))
               (elements (Children nd));
      c0 ← fdiv num0 (inject_Z numMarkers);
      c1 ← fdiv num1 (inject_Z numMarkers);
      h ← modify (Memory s) (Some node)
            (λ nd, set_gcsCoords (c0, c1)
                     ((if 1 <? numMarkers then set_MarkerId (-1) else id)
                        (set_NumberOfMarkers numMarkers nd)));
      let s := set_Memory h s in
      (* Check for new clustering partner *)
      closest ← FindClosestNode node level threshold s;
      '(s, parentsToMerge) ←
        match closest with
        | Some closest => MergeNodes node closest parentsToMerge level s
        | None => Ok (s, parentsToMerge)
        end;
      (* Setup for next iteration *)
      nd ← load (Memory s) (Some node);
      AddMarker_refinement l (Parent nd) parentsToMerge threshold s
    end
  end.

Section AddMarker.

(** [vtkMercator::lat2y], whose source is not part of the model. *)
Variable lat2y : Q → Q.

Definition AddMarker (latitude longitude : Q) (s : vtkMapMarkerSet)
  : result (Z * vtkMapMarkerSet) :=
  (* Set marker id *)
  let markerId := Internals_NumberOfMarkers (Internals s) in
  let s := set_Internals
             (set_Internals_NumberOfMarkers (markerId + 1) (Internals s)) s in
  (* Instantiate ClusteringNode *)
  let '(node, s) := new_node 0 (longitude, lat2y latitude) None ∅ 1 markerId s in
  s ← (if Clustering s then
         let level := Z.of_nat (length (NodeTable (Internals s))) - 1 in
         h ← modify (Memory s) (Some node) (set_Level level);
         let s := set_Memory h s in
         s ← table_insert level node s;
         let level := level - 1 in
         let threshold := ClusterDistance (Internals s) in
         '(s, node, level) ←
           AddMarker_insertion (Z.to_nat (level + 1)) node threshold s;
         (* Advance to next level up *)
         nd ← load (Memory s) (Some node);
         let node := Parent nd in
         let level := level - 1 in
         AddMarker_refinement (Z.to_nat (level + 1)) node ∅ threshold s
       else Ok s);
  Ok (markerId,
      set_Internals (set_MarkersChanged true (Internals s)) s).

End AddMarker.

(** ** Update *)

Definition kwBlue : Z * Z * Z := (0, 83, 155).
Definition kwGreen : Z * Z * Z := (0, 169, 179).

(** The scale of a cluster marker, [y = k*x^2 / (x^2 + b)], in the double
    arithmetic of the source. *)
Definition ClusterScale (k : float) (numberOfMarkers : Z) : float :=
  let b := (4 * k - 4)%float in
  let x := double_of_int numberOfMarkers in
  (k * x * x / (x * x + b))%float.

(** What the loop over [nodeSet] has filled so far. *)
Record Materialized : Type := mkMaterialized {
  m_points : list (Q * Q);
  m_nodes : list nat;
  m_types : list Z;
  m_colors : list (Z * Z * Z);
  m_scales : list float
}.

Definition Update_emit (h : gmap nat ClusteringNode) (k : float)
    (acc : Materialized) (node : nat) : result Materialized :=
  nd ← load h (Some node);
  let points := m_points acc ++ [gcsCoords nd] in
  let nodes := m_nodes acc ++ [node] in
  if NumberOfMarkers nd =? 1 then
    (* point marker *)
    Ok (mkMaterialized points nodes (m_types acc ++ [MARKER_TYPE])
          (m_colors acc ++ [kwBlue]) (m_scales acc ++ [1%float]))
  else
    (* cluster marker *)
    let scale := ClusterScale k (NumberOfMarkers nd) in
    Ok (mkMaterialized points nodes (m_types acc ++ [CLUSTER_TYPE])
          (m_colors acc ++ [kwGreen]) (m_scales acc ++ [scale])).

(** Clip zoom level to size of cluster table. *)
Definition clip_zoom (zoom : Z) : Z :=
  if NumberOfClusterLevels <=? zoom then NumberOfClusterLevels - 1 else zoom.

(** [Update], where [zoom] is what [this->Layer->GetMap()->GetZoom()]
    answers. *)
Definition Update (zoom : Z) (s : vtkMapMarkerSet) : result vtkMapMarkerSet :=
  let i := Internals s in
  let zoomLevel := clip_zoom zoom in
  (* If not clustering, only update if markers have changed *)
  if negb (Clustering s) && negb (MarkersChanged i) then Ok s
  (* If clustering, only update if either zoom or markers changed *)
  else if Clustering s && negb (MarkersChanged i) && (zoomLevel =? ZoomLevel i)
  then Ok s
  else
    (* In non-clustering mode, markers stored at level 0 *)
    let zoomLevel := if negb (Clustering s) then 0 else zoomLevel in
    (* Get pointers to data arrays: null before Init *)
    _ ← (match PointData s with Some a => Ok a | None => Fault end);
    let k := MaxClusterScaleFactor s in
    nodeSet ← at_index (NodeTable i) zoomLevel;
    m ← foldlM (Update_emit (Memory s) k) (mkMaterialized [] [] [] [] [])
               (elements nodeSet);
    Ok (mkMarkerSet (Initialized s) (Clustering s) (MaxClusterScaleFactor s)
          (mkInternals false (m_nodes m) zoomLevel (NodeTable i)
             (Internals_NumberOfMarkers i) (ClusterDistance i)
             (NumberOfNodes i) (AllNodes i))
          (m_points m)
          (Some (mkArrays (m_colors m) (m_types m) (m_scales m)))
          (Memory s)).

(** ** GetMarkerIds *)

Section GetMarkerIds.

(** The rendered geometry, which the glyph filter owns: the input point id
    of the first point of a cell. *)
Variable inputPointOf : Z → Z.

Definition GetMarkerIds_cell (s : vtkMapMarkerSet)
    (acc : gset Z * list Z * list Z) (cellId : Z)
  : result (gset Z * list Z * list Z) :=
  let '(idSet, markerIds, clusterIds) := acc in
  let inputPointId := inputPointOf cellId in
  if decide (inputPointId ∈ idSet) then
    (* Already have processed this marker *)
    Ok acc
  else
    (* Get info from the clustering node *)
    node ← at_index (CurrentNodes (Internals s)) inputPointId;
    nd ← load (Memory s) (Some node);
    if NumberOfMarkers nd =? 1
    then Ok ({[inputPointId]} ∪ idSet, markerIds ++ [MarkerId nd], clusterIds)
    else Ok ({[inputPointId]} ∪ idSet, markerIds, clusterIds ++ [NodeId nd]).

(** [markerIds] and [clusterIds] are the id lists the caller passes in;
    the answer is what they hold on return. *)
Definition GetMarkerIds (cellIds markerIds clusterIds : list Z)
    (s : vtkMapMarkerSet) : result (list Z * list Z) :=
  _ ← (match PointData s with Some a => Ok a | None => Fault end);
  '(_, markerIds, clusterIds) ←
    foldlM (GetMarkerIds_cell s) (∅, markerIds, clusterIds) cellIds;
  Ok (markerIds, clusterIds).

End GetMarkerIds.

(** ** Cleanup *)

(** [delete p] on a node: freeing an address that is not live is undefined
    behaviour. *)
Definition free (h : gmap nat ClusteringNode) (p : nat)
  : result (gmap nat ClusteringNode) :=
  _ ← load h (Some p); Ok (delete p h).

(** One round of the loop over the table: the nodes of a copy of the level
    set are deleted, and the cleared copy is assigned to the level. *)
Definition Cleanup_level (acc : gmap nat ClusteringNode * list (gset nat))
    (nodeSet : gset nat) : result (gmap nat ClusteringNode * list (gset nat)) :=
  let '(h, table) := acc in
  h ← foldlM free h (elements nodeSet);
  Ok (h, table ++ [∅]).

Definition Cleanup (s : vtkMapMarkerSet) : result vtkMapMarkerSet :=
  let i := Internals s in
  (* Explicitly delete node instances in the table *)
  '(h, table) ← foldlM Cleanup_level (Memory s, []) (NodeTable i);
  Ok (mkMarkerSet (Initialized s) (Clustering s) (MaxClusterScaleFactor s)
        (mkInternals true [] (ZoomLevel i) table 0 (ClusterDistance i) 0
                     (AllNodes i))
        (Points s) (PointData s) h).

(** * The proximity search in double arithmetic *)

(** [FindClosestNode] once more, with the coordinates and the threshold as
    IEEE 754 binary64 numbers and the operations of the source on them: what
    the search answers on a tie or next to the threshold depends on the
    rounding of each operation and on the order of the loop.  The loop over
    [nodeSet] visits the addresses in ascending order; which node has the
    lower address is the allocator's choice, so the order is a parameter
    [visit] of the search, and [ascending] is the order when the addresses
    are the numbers of the model. *)
Module Double.

Record ClusteringNode : Type := mkNode {
  NodeId : Z;
  Level : Z;
  gcsCoords : float * float;
  Parent : option nat;
  Children : gset nat;
  NumberOfMarkers : Z;
  MarkerId : Z
}.

(** [p->...] *)
Definition load (h : gmap nat ClusteringNode) (p : option nat)
  : result ClusteringNode :=
  match p with
  | None => Fault
  | Some a => match h !! a with Some n => Ok n | None => Fault end
  end.

Arguments load : simpl never.

Definition dist2 (other node : ClusteringNode) : float :=
  let d2 := 0%float in
  let d1 := (fst (gcsCoords other) - fst (gcsCoords node))%float in
  let d2 := (d2 + d1 * d1)%float in
  let d1 := (snd (gcsCoords other) - snd (gcsCoords node))%float in
  (d2 + d1 * d1)%float.

(** The loop over [nodeSet]. *)
Fixpoint FindClosestNode_scan (h : gmap nat ClusteringNode) (node : nat)
    (nodeSet : list nat) (closestNode : option nat) (closestDistance2 : float)
  : result (option nat) :=
  match nodeSet with
  | [] => Ok closestNode
  | other :: rest =>
    if decide (other = node)
    then FindClosestNode_scan h node rest closestNode closestDistance2
    else
      o ← load h (Some other);
      n ← load h (Some node);
      let d2 := dist2 o n in
      if (d2 <? closestDistance2)%float
      then FindClosestNode_scan h node rest (Some other) d2
      else FindClosestNode_scan h node rest closestNode closestDistance2
  end.

Definition level0Scale : float := (360 / 256)%float.

(** Convert distanceThreshold from image to gcs coords. *)
Definition gcsThreshold (zoomLevel : Z) (distanceThreshold : float)
  : result float :=
  p ← shl1 zoomLevel;
  let scale := (level0Scale / double_of_int p)%float in
  Ok (scale * distanceThreshold)%float.

Definition FindClosestNode (visit : gset nat → list nat) (node : nat)
    (zoomLevel : Z) (distanceThreshold : float)
    (NodeTable : list (gset nat)) (Memory : gmap nat ClusteringNode)
  : result (option nat) :=
  gcsThreshold ← gcsThreshold zoomLevel distanceThreshold;
  let gcsThreshold2 := (gcsThreshold * gcsThreshold)%float in
  nodeSet ← at_index NodeTable zoomLevel;
  FindClosestNode_scan Memory node (visit nodeSet) None gcsThreshold2.

(** The order of ascending addresses. *)
Definition ascending (X : gset nat) : list nat :=
  merge_sort Nat.le (elements X).

(** The scale of a level as the specification words it,
    [(360/256) / 2^level]. *)
Definition spec_scale (level : Z) : float :=
  (360 / 256 / Z.ldexp 1 level)%float.

(** The squared planar distance between two positions, as the specification
    words it. *)
Definition squared_distance (a b : float * float) : float :=
  ((fst a - fst b) * (fst a - fst b) + (snd a - snd b) * (snd a - snd b))%float.

(** The position of the node at [p]. *)
Definition position (h : gmap nat ClusteringNode) (p : nat) : float * float :=
  match h !! p with
  | Some r => gcsCoords r
  | None => (0%float, 0%float)
  end.

(** A node of level 0 at a position. *)
Definition root_at (id : Z) (x y : float) : ClusteringNode :=
  mkNode id 0 (x, y) None ∅ 1 id.

(** Four nodes of level 0: the probe at address 1 with the longitude 0.1,
    a node at the longitude 112.6, which is less than 112.5 away from the
    probe but exactly 112.5 away once the difference is rounded, and two
    nodes that are both 50 away from the probe. *)
Definition four_roots : gmap nat ClusteringNode :=
  <[1%nat := root_at 1 0x1.999999999999ap-4 0]>
  (<[2%nat := root_at 2 0x1.c266666666666p+6 0]>
  (<[3%nat := root_at 3 0x1.999999999999ap-4 50]>
  (<[4%nat := root_at 4 0x1.999999999999ap-4 (-50)]> ∅))).

End Double.

(** ** Runs of the public operations *)

(** [AddMarker] called once per element of [markers], each a pair of a
    latitude and a longitude; the ids are collected in call order. *)
Fixpoint AddMarkers (lat2y : Q → Q) (markers : list (Q * Q))
    (s : vtkMapMarkerSet) : result (list Z * vtkMapMarkerSet) :=
  match markers with
  | [] => Ok ([], s)
  | m :: rest =>
    '(id, s) ← AddMarker lat2y (fst m) (snd m) s;
    '(ids, s) ← AddMarkers lat2y rest s;
    Ok (id :: ids, s)
  end.

(** Whether [Update] returns before rebuilding the point data. *)
Definition Update_skips (zoom : Z) (s : vtkMapMarkerSet) : bool :=
  (negb (Clustering s) && negb (MarkersChanged (Internals s)))
  || (Clustering s && negb (MarkersChanged (Internals s))
      && (clip_zoom zoom =? ZoomLevel (Internals s))).

(** What [Update] emits for one node. *)
Record Entry : Type := mkEntry {
  e_point : Q * Q;
  e_type : Z;
  e_color : Z * Z * Z;
  e_scale : float
}.

Definition m_extend (acc : Materialized) (nodes : list nat) (es : list Entry)
  : Materialized :=
  mkMaterialized (m_points acc ++ map e_point es) (m_nodes acc ++ nodes)
    (m_types acc ++ map e_type es) (m_colors acc ++ map e_color es)
    (m_scales acc ++ map e_scale es).

(** The entry of the node at [p]: a point marker when it stands for one
    marker, a cluster marker with the scale of its count otherwise. *)
Definition entry_of (h : gmap nat ClusteringNode) (k : float) (p : nat) (e : Entry)
  : Prop :=
  ∃ nd, h !! p = Some nd ∧ e_point e = gcsCoords nd ∧
    if NumberOfMarkers nd =? 1
    then e_type e = MARKER_TYPE ∧ e_color e = kwBlue ∧ e_scale e = 1%float
    else e_type e = CLUSTER_TYPE ∧ e_color e = kwGreen ∧
         e_scale e = ClusterScale k (NumberOfMarkers nd).

(** ** The effects of a merge, one by one *)

(** The marker-count-weighted average of two coordinates. *)
Definition weighted_mean (a : Q) (wa : Z) (b : Q) (wb : Z) : Q :=
  ((a * inject_Z wa + b * inject_Z wb) / inject_Z (wa + wb))%Q.

Definition on_Memory (f : gmap nat ClusteringNode → gmap nat ClusteringNode)
    (s : vtkMapMarkerSet) : vtkMapMarkerSet :=
  mkMarkerSet (Initialized s) (Clustering s) (MaxClusterScaleFactor s)
              (Internals s) (Points s) (PointData s) (f (Memory s)).

(** 1. [node.position] becomes the weighted average of the two nodes. *)
Definition merge_position (node mergingNode : nat)
    (h : gmap nat ClusteringNode) : gmap nat ClusteringNode :=
  match h !! node, h !! mergingNode with
  | Some n, Some m =>
    <[node := mkNode (NodeId n) (Level n)
                (weighted_mean (fst (gcsCoords n)) (NumberOfMarkers n)
                               (fst (gcsCoords m)) (NumberOfMarkers m),
                 weighted_mean (snd (gcsCoords n)) (NumberOfMarkers n)
                               (snd (gcsCoords m)) (NumberOfMarkers m))
                (Parent n) (Children n) (NumberOfMarkers n) (MarkerId n)]> h
  | _, _ => h
  end.

(** 2. The marker counts are summed. *)
Definition merge_count (node mergingNode : nat)
    (h : gmap nat ClusteringNode) : gmap nat ClusteringNode :=
  match h !! node, h !! mergingNode with
  | Some n, Some m =>
    <[node := mkNode (NodeId n) (Level n) (gcsCoords n) (Parent n)
                (Children n) (NumberOfMarkers n + NumberOfMarkers m)
                (MarkerId n)]> h
  | _, _ => h
  end.

(** 3. [node] becomes an aggregate. *)
Definition merge_aggregate (node : nat)
    (h : gmap nat ClusteringNode) : gmap nat ClusteringNode :=
  alter (λ n, mkNode (NodeId n) (Level n) (gcsCoords n) (Parent n)
                (Children n) (NumberOfMarkers n) (-1)) node h.

(** 4. Every child of [mergingNode] is re-parented onto [node]. *)
Definition merge_reparent (node mergingNode : nat)
    (h : gmap nat ClusteringNode) : gmap nat ClusteringNode :=
  match h !! mergingNode with
  | Some m =>
    foldr (λ child,
             alter (λ c, mkNode (NodeId c) (Level c) (gcsCoords c) (Some node)
                           (Children c) (NumberOfMarkers c) (MarkerId c))
                   child)
          (alter (λ n, mkNode (NodeId n) (Level n) (gcsCoords n) (Parent n)
                         (Children m ∪ Children n) (NumberOfMarkers n)
                         (MarkerId n)) node h)
          (elements (Children m))
  | None => h
  end.

(** 5. The count of [mergingNode] is added to the count of the parent of
    [node] and subtracted from the count of its own parent. *)
Definition merge_adjust (node mergingNode : nat)
    (h : gmap nat ClusteringNode) : gmap nat ClusteringNode :=
  match h !! node, h !! mergingNode with
  | Some n, Some m =>
    match Parent n, Parent m with
    | Some p, Some q =>
      alter (λ r, mkNode (NodeId r) (Level r) (gcsCoords r) (Parent r)
                    (Children r) (NumberOfMarkers r - NumberOfMarkers m)
                    (MarkerId r))
        q (alter (λ r, mkNode (NodeId r) (Level r) (gcsCoords r) (Parent r)
                         (Children r) (NumberOfMarkers r + NumberOfMarkers m)
                         (MarkerId r)) p h)
    | _, _ => h
    end
  | _, _ => h
  end.

(** 6. [mergingNode] is detached from the children of its old parent. *)
Definition merge_detach (mergingNode : nat)
    (h : gmap nat ClusteringNode) : gmap nat ClusteringNode :=
  match h !! mergingNode with
  | Some m =>
    match Parent m with
    | Some q =>
      alter (λ r, mkNode (NodeId r) (Level r) (gcsCoords r) (Parent r)
                    (Children r ∖ {[mergingNode]}) (NumberOfMarkers r)
                    (MarkerId r)) q h
    | None => h
    end
  | None => h
  end.

(** 7. The old parent is queued when it differs from the parent of
    [node]. *)
Definition merge_queue (node mergingNode : nat)
    (h : gmap nat ClusteringNode) (parentsToMerge : gset nat) : gset nat :=
  match h !! node, h !! mergingNode with
  | Some n, Some m =>
    match Parent m with
    | Some q => if decide (Parent m = Parent n) then parentsToMerge
                else {[q]} ∪ parentsToMerge
    | None => parentsToMerge
    end
  | _, _ => parentsToMerge
  end.

(** 8. [mergingNode] leaves the active set of its level, its slot of the
    arena is emptied and its record is freed. *)
Definition merge_remove (mergingNode : nat) (s : vtkMapMarkerSet)
  : vtkMapMarkerSet :=
  match Memory s !! mergingNode with
  | Some m =>
    let i := Internals s in
    mkMarkerSet (Initialized s) (Clustering s) (MaxClusterScaleFactor s)
      (mkInternals (MarkersChanged i) (CurrentNodes i) (ZoomLevel i)
         (alter (λ nodeSet, nodeSet ∖ {[mergingNode]})
                (Z.to_nat (Level m)) (NodeTable i))
         (Internals_NumberOfMarkers i) (ClusterDistance i) (NumberOfNodes i)
         (<[Z.to_nat (NodeId m) := None]> (AllNodes i)))
      (Points s) (PointData s) (delete mergingNode (Memory s))
  | None => s
  end.

(** The eight effects in the order of the specification. *)
Definition MergeNodes_effects (node mergingNode : nat)
    (parentsToMerge : gset nat) (s : vtkMapMarkerSet)
  : vtkMapMarkerSet * gset nat :=
  let s := on_Memory (merge_position node mergingNode) s in
  let s := on_Memory (merge_count node mergingNode) s in
  let s := on_Memory (merge_aggregate node) s in
  let s := on_Memory (merge_reparent node mergingNode) s in
  let s := on_Memory (merge_adjust node mergingNode) s in
  let s := on_Memory (merge_detach mergingNode) s in
  let parentsToMerge := merge_queue node mergingNode (Memory s) parentsToMerge in
  (merge_remove mergingNode s, parentsToMerge).

(** When the source can carry out a merge: both nodes and their parents
    are live, the nodes are two nodes of the level, the children of
    [mergingNode] are live nodes other than the four, and the slots that
    the removal writes exist. *)
Record merge_ready (node mergingNode : nat) (level : Z) (s : vtkMapMarkerSet)
    (n m : ClusteringNode) (p q : nat) : Prop := {
  mr_node : Memory s !! node = Some n;
  mr_merging : Memory s !! mergingNode = Some m;
  mr_distinct : node ≠ mergingNode;
  mr_level : Level n = Level m ∧ Level m = level;
  mr_parent_node : Parent n = Some p;
  mr_parent_merging : Parent m = Some q;
  mr_parents_live : is_Some (Memory s !! p) ∧ is_Some (Memory s !! q);
  mr_parents_apart :
    p ≠ node ∧ p ≠ mergingNode ∧ q ≠ node ∧ q ≠ mergingNode;
  mr_children : ∀ c, c ∈ Children m →
    is_Some (Memory s !! c) ∧
    c ≠ node ∧ c ≠ mergingNode ∧ c ≠ p ∧ c ≠ q;
  mr_weight : NumberOfMarkers n + NumberOfMarkers m ≠ 0;
  mr_table : 0 ≤ level ∧
    (Z.to_nat level < length (NodeTable (Internals s)))%nat;
  mr_arena : 0 ≤ NodeId m ∧
    (Z.to_nat (NodeId m) < length (AllNodes (Internals s)))%nat
}.

(** What the tree shape gives for a merge, before anything is known about
    null parents, zero weights and the slots of the table and the arena. *)
Record merge_shape (node mergingNode : nat) (level : Z) (s : vtkMapMarkerSet)
    (n m : ClusteringNode) : Prop := {
  ms_node : Memory s !! node = Some n;
  ms_merging : Memory s !! mergingNode = Some m;
  ms_distinct : node ≠ mergingNode;
  ms_level : Level n = Level m ∧ Level m = level;
  ms_parent_node : ∀ p, Parent n = Some p →
    is_Some (Memory s !! p) ∧ p ≠ node ∧ p ≠ mergingNode;
  ms_parent_merging : ∀ q, Parent m = Some q →
    is_Some (Memory s !! q) ∧ q ≠ node ∧ q ≠ mergingNode;
  ms_children : ∀ c, c ∈ Children m →
    is_Some (Memory s !! c) ∧ c ≠ node ∧ c ≠ mergingNode ∧
    Parent n ≠ Some c ∧ Parent m ≠ Some c
}.

Arguments merge_position : simpl never.
Arguments merge_count : simpl never.
Arguments merge_aggregate : simpl never.
Arguments merge_reparent : simpl never.
Arguments merge_adjust : simpl never.
Arguments merge_detach : simpl never.
Arguments merge_queue : simpl never.
Arguments merge_remove : simpl never.

(** ** The invariants of the node tree *)

Definition sumZ (l : list Z) : Z := foldr Z.add 0 l.
Definition sumQ (l : list Q) : Q := foldr Qplus 0%Q l.

(** The marker count of the node at [c], and its count-weighted
    coordinate. *)
Definition child_count (h : gmap nat ClusteringNode) (c : nat) : Z :=
  match h !! c with
  | Some n => NumberOfMarkers n
  | None => 0
  end.

Definition child_moment (proj : Q * Q → Q) (h : gmap nat ClusteringNode)
    (c : nat) : Q :=
  match h !! c with
  | Some n => (inject_Z (NumberOfMarkers n) * proj (gcsCoords n))%Q
  | None => 0%Q
  end.

(** The sums over a set of children. *)
Definition children_count (h : gmap nat ClusteringNode) (cs : gset nat) : Z :=
  sumZ (map (child_count h) (elements cs)).

Definition children_moment (proj : Q * Q → Q) (h : gmap nat ClusteringNode)
    (cs : gset nat) : Q :=
  sumQ (map (child_moment proj h) (elements cs)).

(** A node agrees with its children: it stands for at least one marker,
    and below the finest level its count is the sum of the counts of its
    children and its position, weighted by its count, is the sum of their
    weighted positions. *)
Definition node_ok (h : gmap nat ClusteringNode) (n : ClusteringNode) : Prop :=
  1 ≤ NumberOfMarkers n ∧
  (Level n < 19 →
   NumberOfMarkers n = children_count h (Children n) ∧
   (inject_Z (NumberOfMarkers n) * fst (gcsCoords n)
    == children_moment fst h (Children n))%Q ∧
   (inject_Z (NumberOfMarkers n) * snd (gcsCoords n)
    == children_moment snd h (Children n))%Q).

(** The shape of the tree: the level sets hold live nodes of their level,
    parent and children links mirror each other between adjacent levels,
    and live addresses are below the next address that [new] hands out. *)
Record structure (s : vtkMapMarkerSet) : Prop := {
  st_size : length (NodeTable (Internals s)) = 20%nat;
  st_table : ∀ (l : nat) (nodeSet : gset nat) (p : nat),
    NodeTable (Internals s) !! l = Some nodeSet → p ∈ nodeSet →
    ∃ n, Memory s !! p = Some n ∧ Level n = Z.of_nat l;
  st_level : ∀ (p : nat) (n : ClusteringNode),
    Memory s !! p = Some n → 0 ≤ Level n ≤ 19;
  st_parent : ∀ (p : nat) (n : ClusteringNode) (q : nat),
    Memory s !! p = Some n → Parent n = Some q →
    ∃ qn, Memory s !! q = Some qn ∧ Level qn = Level n - 1 ∧
          p ∈ Children qn;
  st_children : ∀ (q : nat) (qn : ClusteringNode) (c : nat),
    Memory s !! q = Some qn → c ∈ Children qn →
    ∃ n, Memory s !! c = Some n ∧ Parent n = Some q;
  st_fresh : ∀ p : nat,
    is_Some (Memory s !! p) → (p < length (AllNodes (Internals s)))%nat
}.

(** Every live node outside [D] that has no child in [D] agrees with its
    children. *)
Definition consistent_outside (D : nat → Prop) (h : gmap nat ClusteringNode)
  : Prop :=
  ∀ (z : nat) (n : ClusteringNode),
    h !! z = Some n → ¬ D z → (∀ c, c ∈ Children n → ¬ D c) → node_ok h n.

(** What [node_ok] reads of a node. *)
Definition shape (n : ClusteringNode) : Z * Z * (Q * Q) * gset nat :=
  (Level n, NumberOfMarkers n, gcsCoords n, Children n).

(** What a step of [AddMarker] above the finest level keeps: the finest
    level set, the count and the marker id of its nodes, and the counters
    and settings of the marker set. *)
Record kept (s s' : vtkMapMarkerSet) : Prop := {
  k_table : NodeTable (Internals s') !! 19%nat
            = NodeTable (Internals s) !! 19%nat;
  k_leaves : ∀ (k : nat) (r : ClusteringNode),
    Memory s !! k = Some r → Level r = 19 →
    ∃ r', Memory s' !! k = Some r' ∧ Level r' = 19 ∧
      NumberOfMarkers r' = NumberOfMarkers r ∧ MarkerId r' = MarkerId r;
  k_settings : Clustering s' = Clustering s ∧
    Internals_NumberOfMarkers (Internals s')
    = Internals_NumberOfMarkers (Internals s) ∧
    ClusterDistance (Internals s') = ClusterDistance (Internals s)
}.

(** The state at the start of a round of the refinement loop at [level]:
    the nodes that may disagree with their children are the current node
    and the queued nodes, all of them at [level]. *)
Record refine_inv (level : Z) (node : option nat) (nodesToMerge : gset nat)
    (s : vtkMapMarkerSet) : Prop := {
  ri_structure : structure s;
  ri_consistent :
    consistent_outside (λ k, node = Some k ∨ k ∈ nodesToMerge) (Memory s);
  ri_level : ∀ (k : nat) (r : ClusteringNode),
    node = Some k ∨ k ∈ nodesToMerge → Memory s !! k = Some r →
    Level r = level;
  ri_apart : ∀ k : nat, node = Some k → k ∉ nodesToMerge
}.

(** The state inside a round, while the queued nodes are merged into
    [node]: the parent [P] of [node] and the parents queued so far may
    disagree with their children as well. *)
Record merging_inv (node : nat) (level : Z) (P : option nat)
    (nodesToMerge parentsToMerge : gset nat) (s : vtkMapMarkerSet) : Prop := {
  mi_structure : structure s;
  mi_node : ∀ nx, Memory s !! node = Some nx →
    Level nx = level ∧ Parent nx = P;
  mi_consistent :
    consistent_outside
      (λ k, k = node ∨ k ∈ nodesToMerge ∨ P = Some k ∨ k ∈ parentsToMerge)
      (Memory s);
  mi_queue : ∀ k r, k ∈ nodesToMerge → Memory s !! k = Some r →
    Level r = level;
  mi_parents : ∀ k, k ∈ parentsToMerge →
    P ≠ Some k ∧ ∀ r, Memory s !! k = Some r → Level r = level - 1;
  mi_parent : ∀ k r, P = Some k → Memory s !! k = Some r →
    Level r = level - 1
}.

(** The invariant between two calls. *)
Definition tree_ok (s : vtkMapMarkerSet) : Prop :=
  structure s ∧ consistent_outside (λ _, False) (Memory s).

(** The state at the start of a round of the insertion loop: the climbing
    node stands for the new marker alone and has no parent yet. *)
Record climb_inv (n : nat) (node : nat) (s : vtkMapMarkerSet) : Prop := {
  ci_tree : tree_ok s;
  ci_node : ∃ nd, Memory s !! node = Some nd ∧ Level nd = Z.of_nat n ∧
    Parent nd = None ∧ NumberOfMarkers nd = 1
}.

(** The state in which the insertion loop is left with [node] at
    [level]. *)
Record climb_post (node : nat) (level : Z) (s : vtkMapMarkerSet) : Prop := {
  cp_structure : structure s;
  cp_node : ∃ nd, Memory s !! node = Some nd ∧
    consistent_outside (λ k, Parent nd = Some k) (Memory s) ∧
    (level = Level nd ∨ (level = -1 ∧ Level nd = 0)) ∧ level ≤ 18
}.

(** The finest level holds one node per marker, in the order of the
    calls: the node of the [i]-th marker stands for that marker alone and
    carries its id. *)
Definition leaves_ok (s : vtkMapMarkerSet) : Prop :=
  ∃ leaves : list nat,
    NoDup leaves ∧
    NodeTable (Internals s) !! 19%nat = Some (list_to_set leaves) ∧
    Internals_NumberOfMarkers (Internals s) = Z.of_nat (length leaves) ∧
    ∀ (i p : nat), leaves !! i = Some p →
      ∃ r, Memory s !! p = Some r ∧ Level r = 19 ∧
           NumberOfMarkers r = 1 ∧ MarkerId r = Z.of_nat i.

(** The states that the public operations reach from the constructor once
    clustering is switched on, with the number of [AddMarker] calls that
    have returned. *)
Inductive reachable (lat2y : Q → Q) : nat → vtkMapMarkerSet → Prop :=
| reach_new : reachable lat2y 0 (set_Clustering true vtkMapMarkerSet_new)
| reach_Init (N : nat) (s : vtkMapMarkerSet) :
    reachable lat2y N s → reachable lat2y N (Init s)
| reach_AddMarker (N : nat) (s s' : vtkMapMarkerSet)
    (latitude longitude : Q) (id : Z) :
    reachable lat2y N s →
    AddMarker lat2y latitude longitude s = Ok (id, s') →
    reachable lat2y (S N) s'
| reach_Update (N : nat) (s s' : vtkMapMarkerSet) (zoom : Z) :
    reachable lat2y N s → Update zoom s = Ok s' → reachable lat2y N s'.

(** The part of the state that the invariants of the tree read. *)
Definition same_tree (s s' : vtkMapMarkerSet) : Prop :=
  Memory s' = Memory s ∧
  NodeTable (Internals s') = NodeTable (Internals s) ∧
  AllNodes (Internals s') = AllNodes (Internals s) ∧
  Internals_NumberOfMarkers (Internals s')
  = Internals_NumberOfMarkers (Internals s) ∧
  Clustering s' = Clustering s.

(** The count-weighted centroid of the nodes in [cs]: the sum of their
    weighted coordinates over the sum of their counts. *)
Definition centroid (proj : Q * Q → Q) (h : gmap nat ClusteringNode)
    (cs : gset nat) : Q :=
  (children_moment proj h cs / inject_Z (children_count h cs))%Q.

(** What a merge leaves, address by address. *)
Record merge_post (node mergingNode : nat) (level : Z)
    (parentsToMerge : gset nat) (s : vtkMapMarkerSet) (n m : ClusteringNode)
    (p q : nat) (s' : vtkMapMarkerSet) (parentsToMerge' : gset nat) : Prop := {
  mp_merging : Memory s' !! mergingNode = None;
  mp_node : Memory s' !! node
    = Some (mkNode (NodeId n) (Level n)
              (weighted_mean (fst (gcsCoords n)) (NumberOfMarkers n)
                             (fst (gcsCoords m)) (NumberOfMarkers m),
               weighted_mean (snd (gcsCoords n)) (NumberOfMarkers n)
                             (snd (gcsCoords m)) (NumberOfMarkers m))
              (Parent n) (Children m ∪ Children n)
              (NumberOfMarkers n + NumberOfMarkers m) (-1));
  mp_child : ∀ c, c ∈ Children m →
    Memory s' !! c = set_Parent (Some node) <$> Memory s !! c;
  mp_parent : ∀ k, k = p ∨ k = q →
    ∃ r r', Memory s !! k = Some r ∧ Memory s' !! k = Some r' ∧
      NodeId r' = NodeId r ∧ Level r' = Level r ∧ Parent r' = Parent r ∧
      MarkerId r' = MarkerId r ∧
      Children r' = (if decide (k = q) then Children r ∖ {[mergingNode]}
                     else Children r);
  mp_other : ∀ k, k ≠ node → k ≠ mergingNode → k ≠ p → k ≠ q →
    k ∉ Children m → Memory s' !! k = Memory s !! k;
  mp_table : NodeTable (Internals s')
    = alter (λ nodeSet, nodeSet ∖ {[mergingNode]}) (Z.to_nat level)
            (NodeTable (Internals s));
  mp_arena : length (AllNodes (Internals s'))
    = length (AllNodes (Internals s));
  mp_queue : parentsToMerge'
    = if decide (q = p) then parentsToMerge else {[q]} ∪ parentsToMerge;
  mp_rest : Clustering s' = Clustering s ∧
    Internals_NumberOfMarkers (Internals s')
    = Internals_NumberOfMarkers (Internals s) ∧
    ClusterDistance (Internals s') = ClusterDistance (Internals s)
}.

(** ** Bookkeeping of the nodes *)

(** How the memory changes while nodes are linked, merged and recounted:
    the same addresses stay live, every node keeps its id and its level, and
    a node that has a parent keeps having one. *)
Definition relinked (h h' : gmap nat ClusteringNode) : Prop :=
  ∀ k : nat,
    match h !! k, h' !! k with
    | Some r, Some r' =>
      NodeId r' = NodeId r ∧ Level r' = Level r ∧
      (is_Some (Parent r) → is_Some (Parent r'))
    | None, None => True
    | _, _ => False
    end.

(** What the tree operations of [AddMarker] leave alone: the settings, the
    materialized points and arrays, and the counters of [Update]. *)
Definition view (s : vtkMapMarkerSet)
  : bool * bool * float * list (Q * Q) * option MarkerArrays * list nat * Z * Q
    * bool * Z :=
  (Initialized s, Clustering s, MaxClusterScaleFactor s, Points s,
   PointData s, CurrentNodes (Internals s), ZoomLevel (Internals s),
   ClusterDistance (Internals s), MarkersChanged (Internals s),
   Internals_NumberOfMarkers (Internals s)).

(** The bookkeeping of the live nodes: every live node is in the level set
    of its level, every live node above level 0 outside [D] has a parent,
    the id of a node is its slot in the arena [AllNodes], and the arena
    holds the address of a node exactly in the slots of the live nodes. *)
Record registered (D : nat → Prop) (s : vtkMapMarkerSet) : Prop := {
  rg_table : ∀ (p : nat) (n : ClusteringNode),
    Memory s !! p = Some n →
    ∃ nodeSet, 0 ≤ Level n ∧
      NodeTable (Internals s) !! Z.to_nat (Level n) = Some nodeSet ∧
      p ∈ nodeSet;
  rg_parent : ∀ (p : nat) (n : ClusteringNode),
    Memory s !! p = Some n → 0 < Level n → D p ∨ is_Some (Parent n);
  rg_id : ∀ (p : nat) (n : ClusteringNode),
    Memory s !! p = Some n → NodeId n = Z.of_nat p;
  rg_count :
    NumberOfNodes (Internals s) = Z.of_nat (length (AllNodes (Internals s)));
  rg_arena : ∀ (i a : nat),
    AllNodes (Internals s) !! i = Some (Some a) →
    a = i ∧ is_Some (Memory s !! i);
  rg_live : ∀ p : nat,
    is_Some (Memory s !! p) → AllNodes (Internals s) !! p = Some (Some p)
}.

(** The children of the node at [p]. *)
Definition kids_of (h : gmap nat ClusteringNode) (p : nat) : gset nat :=
  match h !! p with
  | Some n => Children n
  | None => ∅
  end.

(** The number of markers that the nodes of [nodeSet] stand for. *)
Definition markers_in (s : vtkMapMarkerSet) (nodeSet : gset nat) : Z :=
  sumZ (map (child_count (Memory s)) (elements nodeSet)).

(** ** Positions *)

(** Every node of the finest level stays live with its position, its
    marker id and its count. *)
Definition leaves_stay (s s' : vtkMapMarkerSet) : Prop :=
  ∀ (k : nat) (r : ClusteringNode),
    Memory s !! k = Some r → Level r = 19 →
    ∃ r', Memory s' !! k = Some r' ∧ Level r' = 19 ∧
      gcsCoords r' = gcsCoords r ∧ MarkerId r' = MarkerId r ∧
      NumberOfMarkers r' = NumberOfMarkers r.

(** What is live in [h'] was live in [h], at the same position unless it is
    the node at [x]. *)
Definition pos_kept (x : nat) (h h' : gmap nat ClusteringNode) : Prop :=
  ∀ (k : nat) (r' : ClusteringNode),
    h' !! k = Some r' →
    ∃ r, h !! k = Some r ∧ (k ≠ x → gcsCoords r' = gcsCoords r).

(** The projected position of a marker given by latitude and longitude. *)
Definition projected (lat2y : Q → Q) (marker : Q * Q) : Q * Q :=
  (snd marker, lat2y (fst marker)).

(** The marker with id [i] has a node of the finest level at [pos]. *)
Definition marker_position (s : vtkMapMarkerSet) (i : nat) (pos : Q * Q)
  : Prop :=
  ∃ (p : nat) (r : ClusteringNode),
    Memory s !! p = Some r ∧ Level r = 19 ∧ NumberOfMarkers r = 1 ∧
    MarkerId r = Z.of_nat i ∧ gcsCoords r = pos.

(** The position of the node at [p]. *)
Definition position_of (h : gmap nat ClusteringNode) (p : nat) : Q * Q :=
  match h !! p with
  | Some r => gcsCoords r
  | None => (0%Q, 0%Q)
  end.

(** ** What a pick resolves to *)

(** The result for the materialized point [pointId]: [inl] of the marker id
    when the node stored at that index stands for one marker, [inr] of the
    node id otherwise. *)
Definition pick_of (s : vtkMapMarkerSet) (pointId : Z) (r : Z + Z) : Prop :=
  ∃ node nd,
    0 ≤ pointId ∧
    CurrentNodes (Internals s) !! Z.to_nat pointId = Some node ∧
    Memory s !! node = Some nd ∧
    r = if NumberOfMarkers nd =? 1 then inl (MarkerId nd) else inr (NodeId nd).

Definition marker_results (rs : list (Z + Z)) : list Z :=
  omap (λ r, match r with inl m => Some m | inr _ => None end) rs.

Definition cluster_results (rs : list (Z + Z)) : list Z :=
  omap (λ r, match r with inl _ => None | inr c => Some c end) rs.

(** ** Concrete runs *)

(** A stand-in for [vtkMercator::lat2y] in the concrete runs below, which
    place every marker on the equator. *)
Definition equator_lat2y : Q → Q := λ latitude, latitude.

(** A marker set after [Init], with clustering switched on. *)
Definition clustering_set : vtkMapMarkerSet :=
  set_Clustering true (Init vtkMapMarkerSet_new).

(** The state that a run of [AddMarkers] ends in. *)
Definition state_after (markers : list (Q * Q)) (s : vtkMapMarkerSet)
  : vtkMapMarkerSet :=
  match AddMarkers equator_lat2y markers s with
  | Ok (_, s') => s'
  | _ => s
  end.

(** Two markers at the same place. *)
Definition two_coincident : vtkMapMarkerSet :=
  Eval vm_compute in state_after [(0, 0); (0, 0)]%Q clustering_set.

(** One marker on a clustering set. *)
Definition one_marker : vtkMapMarkerSet :=
  Eval vm_compute in state_after [(0, 0)]%Q clustering_set.

(** The state that an [Update] ends in. *)
Definition state_updated (zoom : Z) (s : vtkMapMarkerSet) : vtkMapMarkerSet :=
  match Update zoom s with
  | Ok s' => s'
  | _ => s
  end.

Definition one_marker_updated : vtkMapMarkerSet :=
  Eval vm_compute in state_updated 18 one_marker.

Definition two_coincident_updated : vtkMapMarkerSet :=
  Eval vm_compute in state_updated 18 two_coincident.

(** Two markers that share their root only. *)
Definition two_apart : vtkMapMarkerSet :=
  Eval vm_compute in state_after [(0, 0); (0, 100)]%Q clustering_set.

(** Three markers on the equator, the third too far from the centroid of
    the first two to join their root: level 0 holds two nodes. *)
Definition two_roots : vtkMapMarkerSet :=
  Eval vm_compute in state_after [(0, 0); (0, 100); (0, -70)]%Q clustering_set.

(** ** Further concrete runs *)

(** The state that a [Cleanup] ends in. *)
Definition state_cleaned (s : vtkMapMarkerSet) : vtkMapMarkerSet :=
  match Cleanup s with
  | Ok s' => s'
  | _ => s
  end.

(** The state that a merge ends in. *)
Definition state_merged (node mergingNode : nat) (level : Z)
    (s : vtkMapMarkerSet) : vtkMapMarkerSet :=
  match MergeNodes node mergingNode ∅ level s with
  | Ok (s', _) => s'
  | _ => s
  end.

Definition two_coincident_finest : vtkMapMarkerSet :=
  Eval vm_compute in state_updated 19 two_coincident.

Definition two_coincident_cleaned : vtkMapMarkerSet :=
  Eval vm_compute in state_cleaned two_coincident.

Definition one_marker_again : vtkMapMarkerSet :=
  Eval vm_compute in state_after [(0, 0)]%Q two_coincident_cleaned.

Definition two_apart_merged : vtkMapMarkerSet :=
  Eval vm_compute in state_merged 18 38 1 two_apart.

(* ================================================================== *)
(** * Properties *)

(** ** Reasoning about runs *)

Lemma bind_Ok {A B : Type} (m : result A) (f : A → result B) (b : B) :
  m ≫= f = Ok b → ∃ a, m = Ok a ∧ f a = Ok b.
Proof. destruct m; simpl; intros H; try discriminate. eauto. Qed.

Lemma bind_Ok_l {A B : Type} (m : result A) (f : A → result B) (a : A) :
  m = Ok a → m ≫= f = f a.
Proof. intros ->. reflexivity. Qed.

Ltac inv_bind H :=
  let a := fresh "a" in
  let Ha := fresh "E" in
  apply bind_Ok in H as (a & Ha & H).

Tactic Notation "bind_inv" hyp(H) "as" simple_intropattern(a) ident(Ha) :=
  apply bind_Ok in H as (a & Ha & H).

Lemma foldlM_app {A B : Type} (f : A → B → result A) (a : A) (l1 l2 : list B) :
  foldlM f a (l1 ++ l2) = (a' ← foldlM f a l1; foldlM f a' l2).
Proof.
  revert a. induction l1 as [|b l1 IH]; intros a; simpl; [reflexivity|].
  destruct (f a b); simpl; auto.
Qed.

Lemma Qltb_lt (x y : Q) : Qltb x y = true ↔ (x < y)%Q.
Proof. unfold Qltb, Qlt. apply Z.ltb_lt. Qed.

Lemma Qltb_ge (x y : Q) : Qltb x y = false ↔ (y <= x)%Q.
Proof. unfold Qltb, Qle. rewrite Z.ltb_ge. reflexivity. Qed.

Lemma fdiv_Ok (a b q : Q) :
  fdiv a b = Ok q ↔ ¬ (b == 0)%Q ∧ q = (a / b)%Q.
Proof.
  unfold fdiv. destruct (Qeq_bool b 0) eqn:E.
  - apply Qeq_bool_iff in E. split; [discriminate|]. intros [H _]. tauto.
  - apply Qeq_bool_neq in E. split.
    + intros [= <-]. auto.
    + intros [_ ->]. reflexivity.
Qed.

Lemma at_index_Ok {A : Type} (v : list A) (i : Z) (x : A) :
  at_index v i = Ok x ↔ 0 ≤ i ∧ v !! Z.to_nat i = Some x.
Proof.
  unfold at_index. destruct (Z.ltb_spec i 0).
  - split; [discriminate|lia].
  - destruct (v !! Z.to_nat i); split; try discriminate; intros; try tauto.
    + split; [lia|congruence].
    + destruct H0; congruence.
    + destruct H0; discriminate.
Qed.

Lemma load_Ok (h : gmap nat ClusteringNode) (p : option nat) (n : ClusteringNode) :
  load h p = Ok n ↔ ∃ a, p = Some a ∧ h !! a = Some n.
Proof.
  unfold load. destruct p as [a|].
  - destruct (h !! a) eqn:E; split; try discriminate.
    + intros [= <-]. eauto.
    + intros (? & [= <-] & ?). congruence.
    + intros (? & [= <-] & ?). congruence.
  - split; [discriminate|]. intros (? & ? & _). discriminate.
Qed.

Lemma load_Some (h : gmap nat ClusteringNode) (a : nat) (n : ClusteringNode) :
  h !! a = Some n → load h (Some a) = Ok n.
Proof. intros H. unfold load. rewrite H. reflexivity. Qed.

Lemma modify_Some (h : gmap nat ClusteringNode) (a : nat)
    (f : ClusteringNode → ClusteringNode) (n : ClusteringNode) :
  h !! a = Some n → modify h (Some a) f = Ok (<[a := f n]> h).
Proof. intros H. unfold modify. rewrite (load_Some _ _ _ H). reflexivity. Qed.

Lemma modify_Ok (h h' : gmap nat ClusteringNode) (p : option nat)
    (f : ClusteringNode → ClusteringNode) :
  modify h p f = Ok h' ↔
  ∃ a n, p = Some a ∧ h !! a = Some n ∧ h' = <[a := f n]> h.
Proof.
  unfold modify. split.
  - intros H. apply bind_Ok in H as (n & Hn & H).
    apply load_Ok in Hn as (a & -> & Hn). injection H as <-. eauto.
  - intros (a & n & -> & Hn & ->). rewrite (load_Some _ _ _ Hn). reflexivity.
Qed.

Lemma assign_index_Ok {A : Type} (v v' : list A) (i : Z) (x : A) :
  assign_index v i x = Ok v' ↔
  0 ≤ i ∧ (Z.to_nat i < length v)%nat ∧ v' = <[Z.to_nat i := x]> v.
Proof.
  unfold assign_index. split.
  - intros H. apply bind_Ok in H as (y & Hy & H). injection H as <-.
    apply at_index_Ok in Hy as [Hi Hy]. apply lookup_lt_Some in Hy. auto.
  - intros (Hi & Hlt & ->). apply lookup_lt_is_Some in Hlt as [y Hy].
    assert (E : at_index v i = Ok y) by (apply at_index_Ok; auto).
    rewrite E. reflexivity.
Qed.

(** ** Update: skipping and rebuilding *)

Lemma Update_skip (zoom : Z) (s : vtkMapMarkerSet) :
  Update_skips zoom s = true → Update zoom s = Ok s.
Proof.
  unfold Update_skips, Update. intros H. cbv zeta.
  destruct (negb (Clustering s) && negb (MarkersChanged (Internals s)));
    [reflexivity|].
  simpl in H. rewrite H. reflexivity.
Qed.

Lemma Update_rebuild (zoom : Z) (s s' : vtkMapMarkerSet) :
  Update_skips zoom s = false → Update zoom s = Ok s' →
  ∃ arrays nodeSet m,
    PointData s = Some arrays ∧
    at_index (NodeTable (Internals s))
             (if negb (Clustering s) then 0 else clip_zoom zoom) = Ok nodeSet ∧
    foldlM (Update_emit (Memory s) (MaxClusterScaleFactor s))
           (mkMaterialized [] [] [] [] []) (elements nodeSet) = Ok m ∧
    s' = mkMarkerSet (Initialized s) (Clustering s) (MaxClusterScaleFactor s)
           (mkInternals false (m_nodes m)
              (if negb (Clustering s) then 0 else clip_zoom zoom)
              (NodeTable (Internals s))
              (Internals_NumberOfMarkers (Internals s))
              (ClusterDistance (Internals s))
              (NumberOfNodes (Internals s)) (AllNodes (Internals s)))
           (m_points m)
           (Some (mkArrays (m_colors m) (m_types m) (m_scales m)))
           (Memory s).
Proof.
  unfold Update_skips, Update. intros Hs H. cbv zeta in H.
  apply orb_false_iff in Hs as [Hs1 Hs2]. rewrite Hs1, Hs2 in H.
  destruct (PointData s) as [arrays|]; [|discriminate]. simpl in H.
  inv_bind H. inv_bind H. injection H as <-.
  eauto 10.
Qed.

(** C8.  Materializing a second time at the same zoom, with no insertion in
    between, changes nothing: the first call leaves the changed flag cleared
    and the level stored, so the second call returns before the rebuild and
    the points, the arrays and the stored node list stay as they are. *)
Theorem Update_twice (zoom : Z) (s s1 : vtkMapMarkerSet) :
  Update zoom s = Ok s1 →
  Update_skips zoom s1 = true ∧ Update zoom s1 = Ok s1.
Proof.
  intros H.
  assert (Hskip : Update_skips zoom s1 = true).
  { destruct (Update_skips zoom s) eqn:Hs.
    - rewrite (Update_skip _ _ Hs) in H. injection H as <-. exact Hs.
    - destruct (Update_rebuild _ _ _ Hs H) as (ar & ns & m & _ & _ & _ & ->).
      unfold Update_skips. simpl.
      destruct (Clustering s); simpl; [|reflexivity].
      apply Z.eqb_refl. }
  split; [exact Hskip|]. apply Update_skip, Hskip.
Qed.

(** ** Update: what is emitted *)

Lemma Update_emit_loop (h : gmap nat ClusteringNode) (k : float)
    (l : list nat) (acc m : Materialized) :
  foldlM (Update_emit h k) acc l = Ok m →
  ∃ es, Forall2 (entry_of h k) l es ∧ m = m_extend acc l es.
Proof.
  revert acc. induction l as [|p l IH]; intros acc H; simpl in H.
  - injection H as <-. exists []. split; [constructor|].
    destruct acc; unfold m_extend; simpl. rewrite !app_nil_r. reflexivity.
  - inv_bind H. unfold Update_emit in E. inv_bind E.
    apply load_Ok in E0 as (? & [= <-] & Hp).
    destruct (NumberOfMarkers a0 =? 1) eqn:Hc.
    + injection E as <-. destruct (IH _ H) as (es & Hes & ->).
      exists (mkEntry (gcsCoords a0) MARKER_TYPE kwBlue 1 :: es). split.
      * constructor; [|exact Hes]. exists a0. rewrite Hc. auto.
      * unfold m_extend; simpl. rewrite <- !app_assoc. reflexivity.
    + injection E as <-. destruct (IH _ H) as (es & Hes & ->).
      exists (mkEntry (gcsCoords a0) CLUSTER_TYPE kwGreen
                (ClusterScale k (NumberOfMarkers a0)) :: es). split.
      * constructor; [|exact Hes]. exists a0. rewrite Hc. auto.
      * unfold m_extend; simpl. rewrite <- !app_assoc. reflexivity.
Qed.





(** ** Update: the zoom level *)

Lemma clip_zoom_le (zoom : Z) : clip_zoom zoom ≤ 19.
Proof.
  unfold clip_zoom, NumberOfClusterLevels. destruct (Z.leb_spec 20 zoom); lia.
Qed.

Lemma clip_zoom_negative (zoom : Z) : zoom < 0 → clip_zoom zoom = zoom.
Proof.
  unfold clip_zoom, NumberOfClusterLevels. destruct (Z.leb_spec 20 zoom); lia.
Qed.

(** C6.  The clip only bounds the zoom level from above.  With clustering
    on, a negative zoom level reaches [NodeTable[zoomLevel]] as it is, and
    the rebuild indexes the level table out of its range. *)
Theorem Update_negative_zoom (zoom : Z) (s : vtkMapMarkerSet) :
  Clustering s = true → Update_skips zoom s = false →
  is_Some (PointData s) → zoom < 0 →
  Update zoom s = Fault.
Proof.
  intros Hc Hs [ar Har] Hz. unfold Update_skips in Hs. unfold Update.
  cbv zeta. apply orb_false_iff in Hs as [Hs1 Hs2]. rewrite Hs1, Hs2.
  rewrite Hc, Har. simpl. rewrite (clip_zoom_negative _ Hz).
  unfold at_index. destruct (Z.ltb_spec zoom 0); [reflexivity|lia].
Qed.

Lemma Update_negative_zoom_witness : Update (-1) one_marker = Fault.
Proof.
  apply Update_negative_zoom.
  - reflexivity.
  - reflexivity.
  - eexists. reflexivity.
  - reflexivity.
Defined.

(** ** AddMarker without clustering *)

Lemma AddMarker_no_clustering (lat2y : Q → Q) (latitude longitude : Q)
    (s : vtkMapMarkerSet) :
  Clustering s = false →
  ∃ s', AddMarker lat2y latitude longitude s
        = Ok (Internals_NumberOfMarkers (Internals s), s') ∧
    Clustering s' = false ∧
    NodeTable (Internals s') = NodeTable (Internals s) ∧
    CurrentNodes (Internals s') = CurrentNodes (Internals s) ∧
    Points s' = Points s ∧ PointData s' = PointData s ∧
    Internals_NumberOfMarkers (Internals s')
    = Internals_NumberOfMarkers (Internals s) + 1.
Proof.
  intros Hc. unfold AddMarker, new_node. simpl. rewrite Hc. simpl.
  eexists. split; [reflexivity|]. simpl. auto 10.
Qed.

Lemma AddMarkers_no_clustering (lat2y : Q → Q) (markers : list (Q * Q))
    (s : vtkMapMarkerSet) :
  Clustering s = false →
  ∃ ids s', AddMarkers lat2y markers s = Ok (ids, s') ∧
    ids = map (λ i, Internals_NumberOfMarkers (Internals s) + Z.of_nat i)
              (seq 0 (length markers)) ∧
    Clustering s' = false ∧
    NodeTable (Internals s') = NodeTable (Internals s) ∧
    CurrentNodes (Internals s') = CurrentNodes (Internals s) ∧
    Points s' = Points s ∧ PointData s' = PointData s.
Proof.
  revert s. induction markers as [|m rest IH]; intros s Hc.
  - exists [], s. simpl. auto 10.
  - destruct (AddMarker_no_clustering lat2y (fst m) (snd m) s Hc)
      as (s1 & E1 & Hc1 & Ht1 & Hn1 & Hp1 & Hd1 & Hm1).
    destruct (IH s1 Hc1)
      as (ids & s2 & E2 & Hids & Hc2 & Ht2 & Hn2 & Hp2 & Hd2).
    exists (Internals_NumberOfMarkers (Internals s) :: ids), s2.
    simpl. rewrite E1. simpl. rewrite E2. simpl.
    split; [reflexivity|]. split.
    + f_equal; [lia|]. rewrite Hids, <- seq_shift, map_map.
      apply map_ext. intros i. rewrite Hm1. lia.
    + repeat split; congruence.
Qed.

(** C5.  With clustering off (the constructor's setting) every run of
    [AddMarker] returns, but no node enters a level set: whatever the number
    of markers and the zoom, [Update] returns with no point, no type tag and
    no stored node. *)
Theorem Update_no_clustering_empty (lat2y : Q → Q) (markers : list (Q * Q))
    (zoom : Z) :
  ∃ ids s1 s2 arrays,
    AddMarkers lat2y markers (Init vtkMapMarkerSet_new) = Ok (ids, s1) ∧
    length ids = length markers ∧
    Update zoom s1 = Ok s2 ∧
    Points s2 = [] ∧ PointData s2 = Some arrays ∧ MarkerType arrays = [] ∧
    CurrentNodes (Internals s2) = [].
Proof.
  destruct (AddMarkers_no_clustering lat2y markers (Init vtkMapMarkerSet_new)
              eq_refl) as (ids & s1 & E & Hids & Hc & Ht & Hn & Hp & Hd).
  exists ids, s1.
  assert (Hlen : length ids = length markers).
  { rewrite Hids, length_map, length_seq. reflexivity. }
  destruct (Update_skips zoom s1) eqn:Hs.
  - exists s1, (mkArrays [] [] []). rewrite (Update_skip _ _ Hs).
    repeat split; assumption.
  - unfold Update_skips in Hs. unfold Update. cbv zeta.
    apply orb_false_iff in Hs as [Hs1 Hs2]. rewrite Hs1, Hs2.
    rewrite Hc, Hd, Ht. simpl.
    eexists _, _. repeat split; try reflexivity; assumption.
Qed.

(** ** FindClosestNode *)

Lemma shl1_Ok (level : Z) :
  0 ≤ level < 31 → shl1 level = Ok (2 ^ level).
Proof.
  intros H. unfold shl1.
  destruct (Z.leb_spec 0 level); [|lia].
  destruct (Z.ltb_spec level 31); [|lia]. simpl.
  rewrite Z.shiftl_1_l. reflexivity.
Qed.

(** ** Order and addition on doubles *)

Lemma SFltb_trans (a b c : spec_float) :
  SFltb a b = true → SFltb b c = true → SFltb a c = true.
Proof.
  unfold SFltb.
  destruct a as [sa|sa| |sa ma ea], b as [sb|sb| |sb mb eb],
    c as [sc|sc| |sc mc ec]; simpl;
    repeat match goal with s : bool |- _ => destruct s end; simpl;
    try discriminate; try reflexivity;
    destruct (Z.compare_spec ea eb), (Z.compare_spec eb ec),
      (Z.compare_spec ea ec);
    simpl; try discriminate; try reflexivity; try lia;
    rewrite ?Pos.compare_cont_spec; simpl;
    destruct (Pos.compare_spec ma mb), (Pos.compare_spec mb mc),
      (Pos.compare_spec ma mc);
    simpl; try discriminate; try reflexivity; try lia.
Qed.

Lemma SFleb_ltb_trans (a b c : spec_float) :
  SFleb a b = true → SFltb b c = true → SFltb a c = true.
Proof.
  unfold SFltb, SFleb.
  destruct a as [sa|sa| |sa ma ea], b as [sb|sb| |sb mb eb],
    c as [sc|sc| |sc mc ec]; simpl;
    repeat match goal with s : bool |- _ => destruct s end; simpl;
    try discriminate; try reflexivity;
    destruct (Z.compare_spec ea eb), (Z.compare_spec eb ec),
      (Z.compare_spec ea ec);
    simpl; try discriminate; try reflexivity; try lia;
    rewrite ?Pos.compare_cont_spec; simpl;
    destruct (Pos.compare_spec ma mb), (Pos.compare_spec mb mc),
      (Pos.compare_spec ma mc);
    simpl; try discriminate; try reflexivity; try lia.
Qed.

Lemma SFltb_not_leb (a b : spec_float) :
  SFltb a b = true → SFleb b a = false.
Proof.
  unfold SFltb, SFleb.
  destruct a as [sa|sa| |sa ma ea], b as [sb|sb| |sb mb eb]; simpl;
    repeat match goal with s : bool |- _ => destruct s end; simpl;
    try discriminate; try reflexivity;
    destruct (Z.compare_spec ea eb), (Z.compare_spec eb ea);
    simpl; try discriminate; try reflexivity; try lia;
    rewrite ?Pos.compare_cont_spec; simpl;
    destruct (Pos.compare_spec ma mb), (Pos.compare_spec mb ma);
    simpl; try discriminate; try reflexivity; try lia.
Qed.

Lemma ltb_trans (a b c : float) :
  (a <? b)%float = true → (b <? c)%float = true → (a <? c)%float = true.
Proof. rewrite !ltb_spec. apply SFltb_trans. Qed.

Lemma leb_ltb_trans (a b c : float) :
  (a <=? b)%float = true → (b <? c)%float = true → (a <? c)%float = true.
Proof. rewrite !ltb_spec, leb_spec. apply SFleb_ltb_trans. Qed.

Lemma ltb_not_leb (a b : float) :
  (a <? b)%float = true → (b <=? a)%float = false.
Proof. rewrite ltb_spec, leb_spec. apply SFltb_not_leb. Qed.

Lemma SFmul_square_sign (x : spec_float) :
  SF64mul x x ≠ S754_zero true.
Proof.
  unfold SF64mul, SFmul.
  destruct x as [s|s| |s m e]; try discriminate;
    try (destruct s; discriminate).
  replace (xorb s s) with false by (destruct s; reflexivity).
  unfold binary_round_aux.
  destruct (shr_fexp prec emax (Z.pos (m * m)) (e + e) loc_Exact) as [r1 e1].
  destruct (shr_fexp prec emax _ e1 loc_Exact) as [r2 e2].
  destruct (shr_m r2); [discriminate| |discriminate].
  destruct (e2 <=? emax - prec); discriminate.
Qed.

Lemma add_zero_square (x : float) : (0 + x * x = x * x)%float.
Proof.
  apply Prim2SF_inj. rewrite add_spec, mul_spec.
  pose proof (SFmul_square_sign (Prim2SF x)) as H.
  change (Prim2SF 0) with (S754_zero false).
  destruct (SF64mul (Prim2SF x) (Prim2SF x)) as [[]|[]| |]; try reflexivity.
  congruence.
Qed.

(** ** The proximity search in double arithmetic *)

Lemma Double_load_Some (h : gmap nat Double.ClusteringNode) (p : nat)
    (n : Double.ClusteringNode) :
  h !! p = Some n → Double.load h (Some p) = Ok n.
Proof. intros H. unfold Double.load. rewrite H. reflexivity. Qed.

(** [1 << level] as a double is the power of two. *)
Lemma double_of_pow2 (level : Z) :
  0 ≤ level ≤ 19 → double_of_int (2 ^ level) = Z.ldexp 1 level.
Proof.
  intros H. remember (Z.to_nat level) as n eqn:En.
  assert (El : level = Z.of_nat n) by lia.
  assert (Hn : (n < 20)%nat) by lia.
  rewrite El. clear En El H.
  do 20 (destruct n as [|n]; [vm_compute; reflexivity|]). lia.
Qed.

(** What the loop of the source adds up is the squared planar distance. *)
Lemma Double_dist2_planar (o n : Double.ClusteringNode) :
  Double.dist2 o n
  = Double.squared_distance (Double.gcsCoords o) (Double.gcsCoords n).
Proof.
  unfold Double.dist2, Double.squared_distance.
  rewrite add_zero_square. reflexivity.
Qed.

Lemma Double_scan_spec (h : gmap nat Double.ClusteringNode) (node : nat)
    (n : Double.ClusteringNode) (l : list nat) (acc : option nat)
    (cd2 : float) :
  h !! node = Some n →
  (∀ o, o ∈ l → is_Some (h !! o)) →
  let d2 := λ o, Double.squared_distance (Double.position h o)
                   (Double.gcsCoords n) in
  ∃ r, Double.FindClosestNode_scan h node l acc cd2 = Ok r ∧
    ((r = acc ∧
      ∀ o, o ∈ filter (λ o, o ≠ node) l → (d2 o <? cd2)%float = false)
     ∨ (∃ c before after,
          r = Some c ∧ filter (λ o, o ≠ node) l = before ++ c :: after ∧
          (d2 c <? cd2)%float = true ∧
          (∀ o, o ∈ before → (d2 o <=? d2 c)%float = false) ∧
          (∀ o, o ∈ after → (d2 o <? d2 c)%float = false))).
Proof.
  intros Hn Hl d2. revert acc cd2 Hl.
  induction l as [|other rest IH]; intros acc cd2 Hl; simpl.
  - exists acc. split; [reflexivity|]. left. split; [reflexivity|].
    intros o Ho. inversion Ho.
  - assert (Hrest : ∀ o, o ∈ rest → is_Some (h !! o)).
    { intros o Ho. apply Hl. right. exact Ho. }
    destruct (decide (other = node)) as [->|Hne].
    + rewrite filter_cons_False by (intros ?; congruence).
      apply IH. exact Hrest.
    + rewrite filter_cons_True by exact Hne.
      destruct (Hl other) as [o Ho]; [left|].
      rewrite (Double_load_Some _ _ _ Ho), (Double_load_Some _ _ _ Hn).
      simpl.
      assert (Hd : Double.dist2 o n = d2 other).
      { rewrite Double_dist2_planar. unfold d2, Double.position.
        rewrite Ho. reflexivity. }
      rewrite Hd.
      destruct (d2 other <? cd2)%float eqn:Hlt.
      * destruct (IH (Some other) (d2 other) Hrest) as (r & -> & Hr).
        exists r. split; [reflexivity|]. right.
        destruct Hr as [[-> Hall]|(c & b & a & -> & Hf & Hc & Hb & Ha)].
        -- exists other, [], (filter (λ o, o ≠ node) rest).
           split; [reflexivity|]. split; [reflexivity|].
           split; [exact Hlt|]. split; [|exact Hall].
           intros x Hx. inversion Hx.
        -- exists c, (other :: b), a. split; [reflexivity|].
           split; [rewrite Hf; reflexivity|].
           split; [exact (ltb_trans _ _ _ Hc Hlt)|]. split; [|exact Ha].
           intros x Hx. apply elem_of_cons in Hx as [->|Hx].
           ++ exact (ltb_not_leb _ _ Hc).
           ++ apply Hb, Hx.
      * destruct (IH acc cd2 Hrest) as (r & -> & Hr).
        exists r. split; [reflexivity|].
        destruct Hr as [[-> Hall]|(c & b & a & -> & Hf & Hc & Hb & Ha)].
        -- left. split; [reflexivity|].
           intros x Hx. apply elem_of_cons in Hx as [->|Hx].
           ++ exact Hlt.
           ++ apply Hall, Hx.
        -- right. exists c, (other :: b), a. split; [reflexivity|].
           split; [rewrite Hf; reflexivity|].
           split; [exact Hc|]. split; [|exact Ha].
           intros x Hx. apply elem_of_cons in Hx as [->|Hx].
           ++ destruct (d2 other <=? d2 c)%float eqn:Hle; [|reflexivity].
              rewrite (leb_ltb_trans _ _ _ Hle Hc) in Hlt. discriminate.
           ++ apply Hb, Hx.
Qed.

(** C2.  The search converts the pixel threshold [t] to
    [g = (360/256) / 2^level * t] and scans the active nodes of the level
    other than the probe, each once, in the order [visit] of the loop.  It
    answers a node exactly when the smallest squared planar distance to the
    probe is strictly below [g * g]: no node scanned before the answer is as
    close as it or closer, and no node scanned after it is closer (on a tie
    the first one scanned wins); it answers none when no other node is
    below [g * g].  The distances, the threshold and the comparisons are
    those of double arithmetic, for every order in which the loop may visit
    the level set. *)
Theorem FindClosestNode_spec (visit : gset nat → list nat) (node : nat)
    (level : Z) (threshold : float) (NodeTable : list (gset nat))
    (Memory : gmap nat Double.ClusteringNode) (n : Double.ClusteringNode)
    (nodeSet : gset nat) :
  (∀ X, visit X ≡ₚ elements X) →
  0 ≤ level ≤ 19 →
  NodeTable !! Z.to_nat level = Some nodeSet →
  Memory !! node = Some n →
  (∀ o, o ∈ nodeSet → is_Some (Memory !! o)) →
  let others := filter (λ o, o ≠ node) (visit nodeSet) in
  let d2 := λ o, Double.squared_distance (Double.position Memory o)
                   (Double.gcsCoords n) in
  let g := (Double.spec_scale level * threshold)%float in
  ∃ r, Double.FindClosestNode visit node level threshold NodeTable Memory
       = Ok r ∧
    NoDup others ∧
    (∀ o, o ∈ others ↔ o ∈ nodeSet ∧ o ≠ node) ∧
    match r with
    | Some c =>
      ∃ before after,
        others = before ++ c :: after ∧
        (d2 c <? g * g)%float = true ∧
        (∀ o, o ∈ before → (d2 o <=? d2 c)%float = false) ∧
        (∀ o, o ∈ after → (d2 o <? d2 c)%float = false)
    | None => ∀ o, o ∈ others → (d2 o <? g * g)%float = false
    end.
Proof.
  intros Hvisit Hlev Ht Hn Hlive others d2 g. unfold Double.FindClosestNode.
  unfold Double.gcsThreshold. rewrite (shl1_Ok level) by lia. simpl.
  rewrite (double_of_pow2 level Hlev).
  change (Double.level0Scale / Z.ldexp 1 level)%float
    with (Double.spec_scale level).
  assert (Hat : at_index NodeTable level = Ok nodeSet).
  { apply at_index_Ok. split; [lia|exact Ht]. }
  rewrite Hat. simpl.
  destruct (Double_scan_spec Memory node n (visit nodeSet) None
              (g * g) Hn) as (r & Hscan & Hr).
  { intros o Ho. apply Hlive. rewrite (Hvisit nodeSet) in Ho.
    apply elem_of_elements. exact Ho. }
  exists r. split; [exact Hscan|]. split.
  { apply NoDup_filter. rewrite (Hvisit nodeSet). apply NoDup_elements. }
  split.
  { intros o. unfold others. rewrite list_elem_of_filter, (Hvisit nodeSet),
      elem_of_elements. tauto. }
  destruct Hr as [[-> Hall]|(c & b & a & -> & Hf & Hc & Hb & Ha)].
  - exact Hall.
  - exists b, a. auto.
Qed.

(** ** GetMarkerIds *)

Lemma marker_results_app (rs1 rs2 : list (Z + Z)) :
  marker_results (rs1 ++ rs2) = marker_results rs1 ++ marker_results rs2.
Proof. apply omap_app. Qed.

Lemma cluster_results_app (rs1 rs2 : list (Z + Z)) :
  cluster_results (rs1 ++ rs2) = cluster_results rs1 ++ cluster_results rs2.
Proof. apply omap_app. Qed.

Lemma GetMarkerIds_loop (inputPointOf : Z → Z) (s : vtkMapMarkerSet)
    (cellIds : list Z) (idSet idSet' : gset Z)
    (markerIds clusterIds markerIds' clusterIds' : list Z) :
  foldlM (GetMarkerIds_cell inputPointOf s) (idSet, markerIds, clusterIds)
         cellIds = Ok (idSet', markerIds', clusterIds') →
  ∃ picks rs,
    NoDup picks ∧
    (∀ p, p ∈ picks ↔ p ∈ map inputPointOf cellIds ∧ p ∉ idSet) ∧
    Forall2 (pick_of s) picks rs ∧
    markerIds' = markerIds ++ marker_results rs ∧
    clusterIds' = clusterIds ++ cluster_results rs.
Proof.
  revert idSet markerIds clusterIds.
  induction cellIds as [|cell rest IH]; intros idSet mk cl H; simpl in H.
  - injection H as <- <- <-. exists [], []. simpl.
    rewrite !app_nil_r. split; [constructor|].
    split; [|split; [constructor|split; reflexivity]].
    intros p. split; [intros Hp|intros [Hp _]]; inversion Hp.
  - inv_bind H. unfold GetMarkerIds_cell in E.
    destruct (decide (inputPointOf cell ∈ idSet)) as [Hin|Hnin].
    + injection E as <-. destruct (IH _ _ _ H) as (picks & rs & Hnd & Hp & Hrest).
      exists picks, rs. split; [exact Hnd|]. split; [|exact Hrest].
      intros p. rewrite Hp. simpl. rewrite elem_of_cons.
      split; [tauto|]. intros [[->|Hq] Hn]; tauto.
    + inv_bind E. inv_bind E.
      apply at_index_Ok in E0 as [Hge Hcur].
      apply load_Ok in E1 as (? & [= <-] & Hmem).
      set (r := if NumberOfMarkers a1 =? 1 then inl (MarkerId a1)
                else inr (NodeId a1) : Z + Z).
      assert (Hpick : pick_of s (inputPointOf cell) r).
      { exists a0, a1. auto. }
      assert (Ha : a = ({[inputPointOf cell]} ∪ idSet,
                        mk ++ marker_results [r], cl ++ cluster_results [r])).
      { subst r. destruct (NumberOfMarkers a1 =? 1); injection E as <-;
          simpl; rewrite ?app_nil_r; reflexivity. }
      subst a. destruct (IH _ _ _ H) as (picks & rs & Hnd & Hp & Hf & -> & ->).
      exists (inputPointOf cell :: picks), (r :: rs).
      split; [|split; [|split; [|split]]].
      * constructor; [|exact Hnd]. rewrite Hp. set_solver.
      * intros p. rewrite elem_of_cons, Hp. simpl. rewrite elem_of_cons.
        split.
        -- intros [->|[Hq Hn]]; [tauto|]. split; [tauto|]. set_solver.
        -- intros [[->|Hq] Hn]; [tauto|].
           destruct (decide (p = inputPointOf cell)); [tauto|].
           right. split; [exact Hq|]. set_solver.
      * constructor; assumption.
      * rewrite <- app_assoc, <- marker_results_app. reflexivity.
      * rewrite <- app_assoc, <- cluster_results_app. reflexivity.
Qed.

(** C9.  The ids that a pick adds to the two lists are the results of a
    duplicate-free list of materialized points, which are exactly the points
    the selected cells come from: every such point contributes one result,
    the marker id when its stored node stands for one marker and the node id
    otherwise, however many of its cells were selected. *)
Theorem GetMarkerIds_picks (inputPointOf : Z → Z)
    (cellIds markerIds clusterIds markerIds' clusterIds' : list Z)
    (s : vtkMapMarkerSet) :
  GetMarkerIds inputPointOf cellIds markerIds clusterIds s
  = Ok (markerIds', clusterIds') →
  ∃ picks rs,
    NoDup picks ∧
    (∀ p, p ∈ picks ↔ p ∈ map inputPointOf cellIds) ∧
    Forall2 (pick_of s) picks rs ∧
    markerIds' = markerIds ++ marker_results rs ∧
    clusterIds' = clusterIds ++ cluster_results rs.
Proof.
  unfold GetMarkerIds. intros H. inv_bind H. inv_bind H.
  destruct a0 as [[idSet' mk'] cl']. injection H as <- <-.
  destruct (GetMarkerIds_loop _ _ _ _ _ _ _ _ _ E0)
    as (picks & rs & Hnd & Hp & Hrest).
  exists picks, rs. split; [exact Hnd|]. split; [|exact Hrest].
  intros p. rewrite Hp. set_solver.
Qed.

(** ** The statements at concrete runs *)

Lemma Update_twice_witness :
  Update_skips 18 one_marker_updated = true ∧
  Update 18 one_marker_updated = Ok one_marker_updated.
Proof. apply (Update_twice 18 one_marker). vm_compute. reflexivity. Defined.

Lemma FindClosestNode_spec_witness :
  let d2 := λ o, Double.squared_distance (Double.position Double.four_roots o)
                   (0x1.999999999999ap-4, 0)%float in
  (∀ o, o ∈ filter (λ o, o ≠ 1%nat)
                   (Double.ascending ({[1%nat; 2%nat]} : gset nat)) →
        (d2 o <? 112.5 * 112.5)%float = false) ∧
  filter (λ o, o ≠ 1%nat)
         (Double.ascending ({[1%nat; 2%nat; 3%nat; 4%nat]} : gset nat))
  = [2; 3; 4]%nat ∧
  d2 2%nat = 12656.25%float ∧ d2 3%nat = 2500%float ∧
  d2 4%nat = 2500%float ∧
  (∃ before after,
     filter (λ o, o ≠ 1%nat)
            (Double.ascending ({[1%nat; 2%nat; 3%nat; 4%nat]} : gset nat))
     = before ++ 3%nat :: after ∧
     (d2 3%nat <? 112.5 * 112.5)%float = true ∧
     (∀ o, o ∈ before → (d2 o <=? d2 3%nat)%float = false) ∧
     (∀ o, o ∈ after → (d2 o <? d2 3%nat)%float = false)).
Proof.
  assert (Hvisit : ∀ X, Double.ascending X ≡ₚ elements X)
    by (intros X; apply merge_sort_Permutation).
  assert (Hlive : ∀ (X : gset nat) o,
            o ∈ X → X ⊆ {[1%nat; 2%nat; 3%nat; 4%nat]} →
            is_Some (Double.four_roots !! o)).
  { intros X o Ho HX. apply HX in Ho.
    repeat (apply elem_of_union in Ho as [Ho|Ho]);
      apply elem_of_singleton in Ho as ->; eexists; reflexivity. }
  intros d2. split; [|split; [vm_compute; reflexivity|]].
  - destruct (FindClosestNode_spec Double.ascending 1 0 80
                [{[1%nat; 2%nat]}] Double.four_roots
                (Double.root_at 1 0x1.999999999999ap-4 0) {[1%nat; 2%nat]})
      as (r & Hr & _ & _ & Hm);
      [exact Hvisit|lia|reflexivity|reflexivity| |].
    { intros o Ho. apply (Hlive _ o Ho). set_solver. }
    vm_compute in Hr. injection Hr as <-. exact Hm.
  - split; [vm_compute; reflexivity|]. split; [vm_compute; reflexivity|].
    split; [vm_compute; reflexivity|].
    destruct (FindClosestNode_spec Double.ascending 1 0 80
                [{[1%nat; 2%nat; 3%nat; 4%nat]}] Double.four_roots
                (Double.root_at 1 0x1.999999999999ap-4 0)
                {[1%nat; 2%nat; 3%nat; 4%nat]})
      as (r & Hr & _ & _ & Hm);
      [exact Hvisit|lia|reflexivity|reflexivity| |].
    { intros o Ho. apply (Hlive _ o Ho). set_solver. }
    vm_compute in Hr. injection Hr as <-. exact Hm.
Defined.

Lemma GetMarkerIds_picks_witness :
  ∃ picks rs,
    NoDup picks ∧
    (∀ p, p ∈ picks ↔ p ∈ map (λ _ : Z, 0) [5; 6]) ∧
    Forall2 (pick_of two_coincident_updated) picks rs ∧
    [] = [] ++ marker_results rs ∧
    [1] = [] ++ cluster_results rs.
Proof.
  apply (GetMarkerIds_picks (λ _, 0) [5; 6] [] [] [] [1]
           two_coincident_updated).
  vm_compute. reflexivity.
Defined.

(** ** MergeNodes: the run and its effects *)

Lemma reparent_lookup (node : nat) (l : list nat)
    (h : gmap nat ClusteringNode) (k : nat) :
  foldr (λ child, alter (set_Parent (Some node)) child) h l !! k
  = if decide (k ∈ l) then set_Parent (Some node) <$> h !! k else h !! k.
Proof.
  induction l as [|c l IH]; simpl.
  - destruct (decide (k ∈ [])) as [Hk|_]; [inversion Hk|reflexivity].
  - rewrite lookup_alter. destruct (decide (c = k)) as [->|Hne].
    + destruct (decide (k ∈ k :: l)) as [_|Hk]; [|exfalso; apply Hk; left].
      rewrite IH. destruct (decide (k ∈ l)); [|reflexivity].
      destruct (h !! k); reflexivity.
    + rewrite IH. destruct (decide (k ∈ l)) as [Hk|Hk].
      * destruct (decide (k ∈ c :: l)) as [_|Hk']; [reflexivity|].
        exfalso. apply Hk'. right. exact Hk.
      * destruct (decide (k ∈ c :: l)) as [Hk'|_]; [|reflexivity].
        apply elem_of_cons in Hk' as [->|Hk']; tauto.
Qed.

Lemma MergeNodes_relink_Some (node c : nat) (h : gmap nat ClusteringNode)
    (n nc : ClusteringNode) :
  h !! node = Some n → h !! c = Some nc → c ≠ node →
  MergeNodes_relink node h c
  = Ok (<[c := set_Parent (Some node) nc]>
          (<[node := set_Children ({[c]} ∪ Children n) n]> h)).
Proof.
  intros Hn Hc Hne. unfold MergeNodes_relink.
  rewrite (modify_Some _ _ _ _ Hn). simpl.
  erewrite modify_Some by (rewrite lookup_insert_ne by done; exact Hc).
  reflexivity.
Qed.

Lemma MergeNodes_relink_loop (node : nat) (l : list nat) :
  ∀ (h : gmap nat ClusteringNode) (n : ClusteringNode),
  h !! node = Some n →
  (∀ c, c ∈ l → is_Some (h !! c) ∧ c ≠ node) →
  foldlM (MergeNodes_relink node) h l
  = Ok (foldr (λ child, alter (set_Parent (Some node)) child)
          (<[node := set_Children (list_to_set l ∪ Children n) n]> h) l).
Proof.
  induction l as [|c l IH]; intros h n Hn Hl; simpl.
  - f_equal. rewrite insert_id; [reflexivity|]. rewrite Hn. f_equal.
    destruct n; unfold set_Children; simpl. f_equal. set_solver.
  - destruct (Hl c) as [[nc Hc] Hne]; [left|].
    rewrite (MergeNodes_relink_Some _ _ _ _ _ Hn Hc Hne). simpl.
    rewrite (IH _ (set_Children ({[c]} ∪ Children n) n)).
    + f_equal. apply map_eq. intros k.
      rewrite lookup_alter, !reparent_lookup.
      destruct (decide (k = node)) as [->|Hk].
      * rewrite (decide_False (P := c = node)) by done.
        destruct (decide (node ∈ l)) as [Hin|Hin].
        { destruct (Hl node) as [_ Hx]; [right; exact Hin|]. done. }
        rewrite lookup_insert_eq, lookup_insert_eq. f_equal.
        unfold set_Children. simpl. f_equal. set_solver.
      * destruct (decide (c = k)) as [->|Hck].
        -- rewrite !(lookup_insert_ne _ node k) by done.
           rewrite lookup_insert_eq, Hc.
           destruct (decide (k ∈ l)); reflexivity.
        -- rewrite !(lookup_insert_ne _ node k) by done.
           rewrite (lookup_insert_ne _ c k) by done.
           rewrite !(lookup_insert_ne _ node k) by done. reflexivity.
    + rewrite lookup_insert_ne by done. apply lookup_insert_eq.
    + intros c' Hc'. destruct (Hl c') as [Hlive Hne']; [right; exact Hc'|].
      split; [|exact Hne'].
      rewrite !lookup_insert_is_Some'. tauto.
Qed.

Lemma insert_as_alter (h : gmap nat ClusteringNode) (a : nat)
    (f : ClusteringNode → ClusteringNode) (x : ClusteringNode) :
  h !! a = Some x → <[a := f x]> h = alter f a h.
Proof.
  intros H. apply map_eq. intros k. rewrite lookup_alter, lookup_insert.
  destruct (decide (a = k)) as [->|]; [rewrite H|]; reflexivity.
Qed.

Lemma modify_alter (h : gmap nat ClusteringNode) (a : nat)
    (f : ClusteringNode → ClusteringNode) :
  is_Some (h !! a) → modify h (Some a) f = Ok (alter f a h).
Proof.
  intros [x H]. rewrite (modify_Some _ _ _ _ H), (insert_as_alter _ _ _ _ H).
  reflexivity.
Qed.

Lemma modify_None (h : gmap nat ClusteringNode)
    (f : ClusteringNode → ClusteringNode) :
  modify h None f = Fault.
Proof. reflexivity. Qed.

Lemma list_alter_as_insert {A : Type} (f : A → A) (l : list A) (i : nat) (x : A) :
  l !! i = Some x → alter f i l = <[i := f x]> l.
Proof.
  intros H. apply list_eq. intros j.
  rewrite list_lookup_alter, list_lookup_insert.
  destruct (decide (i = j)) as [->|].
  - rewrite H. simpl. rewrite decide_True; [reflexivity|].
    split; [reflexivity|]. apply lookup_lt_Some in H. exact H.
  - rewrite decide_False by tauto. reflexivity.
Qed.

Lemma MergeNodes_eq (node mergingNode : nat) (parentsToMerge : gset nat)
    (level : Z) (s : vtkMapMarkerSet) (n m : ClusteringNode) :
  merge_shape node mergingNode level s n m →
  MergeNodes node mergingNode parentsToMerge level s
  = if Qeq_bool (inject_Z (NumberOfMarkers n + NumberOfMarkers m)) 0
    then NotFinite
    else match Parent n, Parent m with
         | Some p, Some q =>
           _ ← at_index (NodeTable (Internals s)) level;
           _ ← at_index (AllNodes (Internals s)) (NodeId m);
           Ok (MergeNodes_effects node mergingNode parentsToMerge s)
         | _, _ => Fault
         end.
Proof.
  intros [Hn Hm Hd [Hl1 Hl2] Hpn Hpm Hch].
  unfold MergeNodes. cbv zeta.
  rewrite (load_Some _ _ _ Hn), (load_Some _ _ _ Hm). simpl.
  unfold fdiv.
  destruct (Qeq_bool (inject_Z (NumberOfMarkers n + NumberOfMarkers m)) 0)
    eqn:Hz; [reflexivity|]. simpl.
  rewrite (modify_Some _ _ _ _ Hn). simpl.
  match goal with |- context [<[node := ?r]> (Memory s)] =>
    set (n1 := r); set (h1 := <[node := n1]> (Memory s)) end.
  assert (Hm1 : h1 !! mergingNode = Some m).
  { unfold h1. rewrite lookup_insert_ne by done. exact Hm. }
  assert (Hn1 : h1 !! node = Some n1) by apply lookup_insert_eq.
  rewrite (load_Some _ _ _ Hm1). simpl.
  rewrite (MergeNodes_relink_loop node _ h1 n1 Hn1).
  2:{ intros c Hc. apply elem_of_elements in Hc.
      destruct (Hch c Hc) as (Hlive & Hc1 & _). split; [|exact Hc1].
      unfold h1. rewrite lookup_insert_is_Some'. tauto. }
  simpl. rewrite list_to_set_elements_L.
  match goal with |- context [foldr ?f ?b ?l] => set (h2 := foldr f b l) end.
  assert (Hkeep : ∀ k, k ∉ Children m → k ≠ node →
            h2 !! k = Memory s !! k).
  { intros k Hk Hkn. unfold h2. rewrite reparent_lookup.
    rewrite decide_False by (rewrite elem_of_elements; exact Hk).
    unfold h1. rewrite !lookup_insert_ne by done. reflexivity. }
  assert (Hnotchild : ∀ k, k ∈ Children m → k ≠ mergingNode ∧ k ≠ node ∧
            Parent n ≠ Some k ∧ Parent m ≠ Some k).
  { intros k Hk. destruct (Hch k Hk) as (_ & ? & ? & ? & ?). auto. }
  assert (Hm2 : h2 !! mergingNode = Some m).
  { rewrite Hkeep; [exact Hm| |done].
    intros Hk. apply Hnotchild in Hk. tauto. }
  set (n2 := set_Children (Children m ∪ Children n1) n1).
  assert (Hn2 : h2 !! node = Some n2).
  { unfold h2. rewrite reparent_lookup.
    rewrite decide_False.
    - apply lookup_insert_eq.
    - rewrite elem_of_elements. intros Hk. apply Hnotchild in Hk. tauto. }
  rewrite (load_Some _ _ _ Hm2). simpl.
  rewrite (load_Some _ _ _ Hn2). simpl.
  destruct (Parent n) as [p|] eqn:Hp; [|reflexivity].
  destruct (Hpn p eq_refl) as (Hplive & Hpx & Hpm').
  assert (Hp2 : is_Some (h2 !! p)).
  { rewrite Hkeep; [exact Hplive| |done].
    intros Hk. apply Hnotchild in Hk. tauto. }
  rewrite (modify_alter _ _ _ Hp2). simpl.
  match goal with |- context [alter ?f p h2] => set (h3 := alter f p h2) end.
  assert (Hm3 : h3 !! mergingNode = Some m).
  { unfold h3. rewrite lookup_alter_ne by done. exact Hm2. }
  rewrite (load_Some _ _ _ Hm3). simpl.
  destruct (Parent m) as [q|] eqn:Hq; [|reflexivity].
  destruct (Hpm q eq_refl) as (Hqlive & Hqx & Hqm).
  assert (Hq3 : is_Some (h3 !! q)).
  { unfold h3. rewrite lookup_alter_is_Some. rewrite Hkeep; [exact Hqlive| |done].
    intros Hk. apply Hnotchild in Hk. tauto. }
  rewrite (modify_alter _ _ _ Hq3). simpl.
  match goal with |- context [alter ?f q h3] => set (h4 := alter f q h3) end.
  assert (Hm4 : h4 !! mergingNode = Some m).
  { unfold h4. rewrite lookup_alter_ne by done. exact Hm3. }
  rewrite (load_Some _ _ _ Hm4). simpl. rewrite Hq.
  assert (Hq4 : is_Some (h4 !! q)).
  { unfold h4. rewrite lookup_alter_is_Some. exact Hq3. }
  rewrite (modify_alter _ _ _ Hq4). simpl.
  match goal with |- context [alter ?f q h4] => set (h5 := alter f q h4) end.
  assert (Hm5 : h5 !! mergingNode = Some m).
  { unfold h5. rewrite lookup_alter_ne by done. exact Hm4. }
  assert (Hn5 : h5 !! node = Some n2).
  { unfold h5, h4, h3. rewrite !lookup_alter_ne by done. exact Hn2. }
  rewrite (load_Some _ _ _ Hm5). simpl.
  rewrite (load_Some _ _ _ Hn5). simpl. rewrite Hq, Hp.
  (* the effects, one by one *)
  assert (E3 : merge_aggregate node
                 (merge_count node mergingNode
                    (merge_position node mergingNode (Memory s))) = h1).
  { unfold merge_position. rewrite Hn, Hm.
    unfold merge_count. rewrite lookup_insert_eq.
    rewrite lookup_insert_ne by done. rewrite Hm.
    rewrite insert_insert_eq. unfold merge_aggregate.
    rewrite alter_insert_eq. reflexivity. }
  assert (E4 : merge_reparent node mergingNode h1 = h2).
  { unfold merge_reparent. rewrite Hm1.
    rewrite <- (insert_as_alter _ _ _ _ Hn1). reflexivity. }
  assert (E5 : merge_adjust node mergingNode h2 = h4).
  { unfold merge_adjust. rewrite Hn2, Hm2. simpl. rewrite Hp, Hq.
    reflexivity. }
  assert (E6 : merge_detach mergingNode h4 = h5).
  { unfold merge_detach. rewrite Hm4, Hq. reflexivity. }
  assert (E7 : merge_queue node mergingNode h5 parentsToMerge
               = if decide (Some q = Some p) then parentsToMerge
                 else {[q]} ∪ parentsToMerge).
  { unfold merge_queue. rewrite Hn5, Hm5, Hq. simpl. rewrite Hp.
    reflexivity. }
  unfold MergeNodes_effects, on_Memory. cbn [Memory set_Memory].
  rewrite E3, E4, E5, E6, E7.
  unfold merge_remove. cbn [Memory set_Memory Internals set_Internals].
  rewrite Hm5.
  destruct (at_index (NodeTable (Internals s)) level) as [nodeSet| |] eqn:Ht;
    simpl; [|reflexivity..].
  apply at_index_Ok in Ht as Ht'. destruct Ht' as [Hlev Hns].
  assert (Htab : (if decide (mergingNode ∈ nodeSet)
                  then assign_index (NodeTable (Internals s)) level
                         (nodeSet ∖ {[mergingNode]})
                  else Ok (NodeTable (Internals s)))
                 = Ok (alter (λ ns, ns ∖ {[mergingNode]})
                         (Z.to_nat (Level m)) (NodeTable (Internals s)))).
  { rewrite Hl2. rewrite (list_alter_as_insert _ _ _ _ Hns).
    destruct (decide (mergingNode ∈ nodeSet)) as [Hin|Hin].
    - unfold assign_index. rewrite Ht. reflexivity.
    - f_equal. replace (nodeSet ∖ {[mergingNode]}) with nodeSet by set_solver.
      symmetry. apply list_insert_id. exact Hns. }
  rewrite Htab. simpl. unfold assign_index.
  destruct (at_index (AllNodes (Internals s)) (NodeId m)) as [x| |];
    simpl; reflexivity.
Qed.

Lemma merge_ready_shape (node mergingNode : nat) (level : Z)
    (s : vtkMapMarkerSet) (n m : ClusteringNode) (p q : nat) :
  merge_ready node mergingNode level s n m p q →
  merge_shape node mergingNode level s n m.
Proof.
  intros [Hn Hm Hd Hl Hp Hq [Hpl Hql] (Hp1 & Hp2 & Hq1 & Hq2) Hch Hw Ht Ha].
  constructor; try assumption.
  - intros p' Hp'. rewrite Hp in Hp'. injection Hp' as <-. auto.
  - intros q' Hq'. rewrite Hq in Hq'. injection Hq' as <-. auto.
  - intros c Hc. destruct (Hch c Hc) as (? & ? & ? & ? & ?).
    rewrite Hp, Hq. repeat split; try assumption; congruence.
Qed.

(** X24.  A merge of [mergingNode] into [node], two nodes of one level
    whose parents are live (a level above 0), returns, and what it leaves is
    the outcome of the eight effects carried out in this order: position,
    count, aggregate mark, re-parenting of the children, adjustment of the
    two parents' counts, detaching from the old parent, queueing of the old
    parent when it differs, removal from the level set, the arena and the
    memory. *)
Theorem MergeNodes_in_order (node mergingNode : nat) (parentsToMerge : gset nat)
    (level : Z) (s : vtkMapMarkerSet) (n m : ClusteringNode) (p q : nat) :
  merge_ready node mergingNode level s n m p q →
  MergeNodes node mergingNode parentsToMerge level s
  = Ok (MergeNodes_effects node mergingNode parentsToMerge s).
Proof.
  intros Hr. rewrite (MergeNodes_eq _ _ _ _ _ n m (merge_ready_shape _ _ _ _ _ _ _ _ Hr)).
  destruct Hr as [Hn Hm Hd Hl Hp Hq Hpl Hpa Hch Hw [Ht1 Ht2] [Ha1 Ha2]].
  destruct (Qeq_bool _ 0) eqn:Hz.
  - apply Qeq_bool_iff in Hz. unfold Qeq in Hz. simpl in Hz. lia.
  - rewrite Hp, Hq.
    apply lookup_lt_is_Some in Ht2 as [ns Hns].
    apply lookup_lt_is_Some in Ha2 as [x Hx].
    assert (E1 : at_index (NodeTable (Internals s)) level = Ok ns)
      by (apply at_index_Ok; auto).
    assert (E2 : at_index (AllNodes (Internals s)) (NodeId m) = Ok x)
      by (apply at_index_Ok; auto).
    rewrite E1, E2. reflexivity.
Qed.

(** ** Sums over children *)

Lemma sumZ_app (l1 l2 : list Z) : sumZ (l1 ++ l2) = sumZ l1 + sumZ l2.
Proof. induction l1 as [|x l1 IH]; simpl; [reflexivity|]. rewrite IH. lia. Qed.

Lemma sumQ_app (l1 l2 : list Q) : (sumQ (l1 ++ l2) == sumQ l1 + sumQ l2)%Q.
Proof.
  induction l1 as [|x l1 IH]; simpl; [ring|]. rewrite IH. ring.
Qed.

Lemma sumZ_perm (l1 l2 : list Z) : l1 ≡ₚ l2 → sumZ l1 = sumZ l2.
Proof. induction 1; simpl; lia. Qed.

Lemma sumQ_perm (l1 l2 : list Q) : l1 ≡ₚ l2 → (sumQ l1 == sumQ l2)%Q.
Proof.
  induction 1; simpl.
  - reflexivity.
  - rewrite IHPermutation. reflexivity.
  - ring.
  - rewrite IHPermutation1. exact IHPermutation2.
Qed.

Lemma children_count_ext (h h' : gmap nat ClusteringNode) (cs : gset nat) :
  (∀ c, c ∈ cs → child_count h c = child_count h' c) →
  children_count h cs = children_count h' cs.
Proof.
  intros H. unfold children_count. f_equal. apply map_ext_in.
  intros c Hc. apply H. apply elem_of_elements, list_elem_of_In. exact Hc.
Qed.

Lemma children_moment_ext (proj : Q * Q → Q) (h h' : gmap nat ClusteringNode)
    (cs : gset nat) :
  (∀ c, c ∈ cs → child_moment proj h c = child_moment proj h' c) →
  children_moment proj h cs = children_moment proj h' cs.
Proof.
  intros H. unfold children_moment. f_equal. apply map_ext_in.
  intros c Hc. apply H. apply elem_of_elements, list_elem_of_In. exact Hc.
Qed.

Lemma children_count_union (h : gmap nat ClusteringNode) (X Y : gset nat) :
  X ## Y →
  children_count h (X ∪ Y) = children_count h X + children_count h Y.
Proof.
  intros H. unfold children_count. rewrite <- sumZ_app, <- map_app.
  apply sumZ_perm, Permutation_map, elements_disj_union, H.
Qed.

Lemma children_moment_union (proj : Q * Q → Q) (h : gmap nat ClusteringNode)
    (X Y : gset nat) :
  X ## Y →
  (children_moment proj h (X ∪ Y)
   == children_moment proj h X + children_moment proj h Y)%Q.
Proof.
  intros H. unfold children_moment. rewrite <- sumQ_app, <- map_app.
  apply sumQ_perm, Permutation_map, elements_disj_union, H.
Qed.

Lemma children_count_singleton (h : gmap nat ClusteringNode) (c : nat) :
  children_count h {[c]} = child_count h c.
Proof.
  unfold children_count. rewrite elements_singleton. simpl. lia.
Qed.

Lemma children_moment_singleton (proj : Q * Q → Q)
    (h : gmap nat ClusteringNode) (c : nat) :
  (children_moment proj h {[c]} == child_moment proj h c)%Q.
Proof.
  unfold children_moment. rewrite elements_singleton. simpl. ring.
Qed.

(** ** MergeNodes: what it leaves *)

Lemma merge_shape_of_structure (node mergingNode : nat) (level : Z)
    (s : vtkMapMarkerSet) (n m : ClusteringNode) :
  structure s →
  Memory s !! node = Some n → Memory s !! mergingNode = Some m →
  node ≠ mergingNode → Level n = Level m → Level m = level →
  merge_shape node mergingNode level s n m.
Proof.
  intros Hst Hn Hm Hd Hl1 Hl2. constructor; try assumption; [auto|..].
  - intros p Hp. destruct (st_parent s Hst _ _ _ Hn Hp) as (pn & Hpn & Hlp & _).
    split; [eauto|]. split; intros ->.
    + rewrite Hn in Hpn. injection Hpn as <-. lia.
    + rewrite Hm in Hpn. injection Hpn as <-. lia.
  - intros q Hq. destruct (st_parent s Hst _ _ _ Hm Hq) as (qn & Hqn & Hlq & _).
    split; [eauto|]. split; intros ->.
    + rewrite Hn in Hqn. injection Hqn as <-. lia.
    + rewrite Hm in Hqn. injection Hqn as <-. lia.
  - intros c Hc.
    destruct (st_children s Hst _ _ _ Hm Hc) as (cn & Hcn & Hcp).
    destruct (st_parent s Hst _ _ _ Hcn Hcp) as (m' & Hm' & Hlc & _).
    rewrite Hm in Hm'. injection Hm' as <-.
    split; [eauto|]. split; [|split; [|split]].
    + intros ->. rewrite Hn in Hcn. injection Hcn as <-. lia.
    + intros ->. rewrite Hm in Hcn. injection Hcn as <-. lia.
    + intros Hp.
      destruct (st_parent s Hst _ _ _ Hn Hp) as (c' & Hc' & Hlc' & _).
      rewrite Hcn in Hc'. injection Hc' as <-. lia.
    + intros Hq.
      destruct (st_parent s Hst _ _ _ Hm Hq) as (c' & Hc' & Hlc' & _).
      rewrite Hcn in Hc'. injection Hc' as <-. lia.
Qed.

Lemma MergeNodes_Ok_effects (node mergingNode : nat) (parentsToMerge : gset nat)
    (level : Z) (s : vtkMapMarkerSet) (n m : ClusteringNode)
    (r : vtkMapMarkerSet * gset nat) :
  merge_shape node mergingNode level s n m →
  MergeNodes node mergingNode parentsToMerge level s = Ok r →
  ∃ p q, Parent n = Some p ∧ Parent m = Some q ∧
    NumberOfMarkers n + NumberOfMarkers m ≠ 0 ∧
    0 ≤ level ∧
    r = MergeNodes_effects node mergingNode parentsToMerge s.
Proof.
  intros Hsh H. rewrite (MergeNodes_eq _ _ _ _ _ _ _ Hsh) in H.
  destruct (Qeq_bool _ 0) eqn:Hz; [discriminate|].
  apply Qeq_bool_neq in Hz.
  destruct (Parent n) as [p|]; [|discriminate].
  destruct (Parent m) as [q|]; [|discriminate].
  inv_bind H. inv_bind H. injection H as <-.
  apply at_index_Ok in E as [Hlev _].
  exists p, q. repeat split; try assumption.
  intros Hw. apply Hz. rewrite Hw. reflexivity.
Qed.

Lemma effects_memory (node mergingNode : nat) (parentsToMerge : gset nat)
    (level : Z) (s : vtkMapMarkerSet) (n m : ClusteringNode) (p q : nat) :
  merge_shape node mergingNode level s n m →
  Parent n = Some p → Parent m = Some q →
  let n2 :=
    mkNode (NodeId n) (Level n)
      (weighted_mean (fst (gcsCoords n)) (NumberOfMarkers n)
                     (fst (gcsCoords m)) (NumberOfMarkers m),
       weighted_mean (snd (gcsCoords n)) (NumberOfMarkers n)
                     (snd (gcsCoords m)) (NumberOfMarkers m))
      (Parent n) (Children m ∪ Children n)
      (NumberOfMarkers n + NumberOfMarkers m) (-1) in
  let h2 := foldr (λ child, alter (set_Parent (Some node)) child)
              (<[node := n2]> (Memory s)) (elements (Children m)) in
  let h5 :=
    alter (λ r, set_Children (Children r ∖ {[mergingNode]}) r) q
      (alter (λ r, set_NumberOfMarkers
                     (NumberOfMarkers r - NumberOfMarkers m) r) q
         (alter (λ r, set_NumberOfMarkers
                        (NumberOfMarkers r + NumberOfMarkers m) r) p h2)) in
  MergeNodes_effects node mergingNode parentsToMerge s
  = (set_Memory (delete mergingNode h5)
       (set_Internals
          (set_AllNodes (<[Z.to_nat (NodeId m) := None]>
                           (AllNodes (Internals s)))
             (set_NodeTable
                (alter (λ nodeSet, nodeSet ∖ {[mergingNode]})
                       (Z.to_nat level) (NodeTable (Internals s)))
                (Internals s))) s),
     if decide (q = p) then parentsToMerge else {[q]} ∪ parentsToMerge).
Proof.
  intros [Hn Hm Hd [Hl1 Hl2] Hpn Hpm Hch] Hp Hq n2 h2 h5.
  assert (Hnotchild : ∀ k, k ∈ Children m → k ≠ mergingNode ∧ k ≠ node).
  { intros k Hk. destruct (Hch k Hk) as (_ & ? & ? & _). auto. }
  set (h1 := <[node := set_MarkerId (-1)
                 (set_NumberOfMarkers (NumberOfMarkers n + NumberOfMarkers m)
                    (set_gcsCoords
                       (weighted_mean (fst (gcsCoords n)) (NumberOfMarkers n)
                          (fst (gcsCoords m)) (NumberOfMarkers m),
                        weighted_mean (snd (gcsCoords n)) (NumberOfMarkers n)
                          (snd (gcsCoords m)) (NumberOfMarkers m)) n))]>
               (Memory s)).
  assert (Hm1 : h1 !! mergingNode = Some m).
  { unfold h1. rewrite lookup_insert_ne by done. exact Hm. }
  assert (E3 : merge_aggregate node
                 (merge_count node mergingNode
                    (merge_position node mergingNode (Memory s))) = h1).
  { unfold merge_position. rewrite Hn, Hm.
    unfold merge_count. rewrite lookup_insert_eq.
    rewrite lookup_insert_ne by done. rewrite Hm.
    rewrite insert_insert_eq. unfold merge_aggregate.
    rewrite alter_insert_eq. reflexivity. }
  assert (E4 : merge_reparent node mergingNode h1 = h2).
  { unfold merge_reparent. rewrite Hm1. unfold h1.
    rewrite alter_insert_eq. reflexivity. }
  assert (Hm2 : h2 !! mergingNode = Some m).
  { unfold h2. rewrite reparent_lookup. rewrite decide_False.
    - rewrite lookup_insert_ne by done. exact Hm.
    - rewrite elem_of_elements. intros Hk. apply Hnotchild in Hk. tauto. }
  assert (Hn2 : h2 !! node = Some n2).
  { unfold h2. rewrite reparent_lookup. rewrite decide_False.
    - apply lookup_insert_eq.
    - rewrite elem_of_elements. intros Hk. apply Hnotchild in Hk. tauto. }
  destruct (Hpn p Hp) as (_ & Hpx & Hpm').
  destruct (Hpm q Hq) as (_ & Hqx & Hqm).
  assert (E5 : merge_adjust node mergingNode h2
               = alter (λ r, set_NumberOfMarkers
                               (NumberOfMarkers r - NumberOfMarkers m) r) q
                   (alter (λ r, set_NumberOfMarkers
                                  (NumberOfMarkers r + NumberOfMarkers m) r)
                      p h2)).
  { unfold merge_adjust. rewrite Hn2, Hm2. simpl. rewrite Hp, Hq.
    reflexivity. }
  assert (E6 : merge_detach mergingNode
                 (alter (λ r, set_NumberOfMarkers
                                (NumberOfMarkers r - NumberOfMarkers m) r) q
                    (alter (λ r, set_NumberOfMarkers
                                   (NumberOfMarkers r + NumberOfMarkers m) r)
                       p h2)) = h5).
  { unfold merge_detach. rewrite !lookup_alter_ne by done.
    rewrite Hm2, Hq. reflexivity. }
  assert (Hm5 : h5 !! mergingNode = Some m).
  { unfold h5. rewrite !lookup_alter_ne by done. exact Hm2. }
  assert (Hn5 : h5 !! node = Some n2).
  { unfold h5. rewrite !lookup_alter_ne by done. exact Hn2. }
  unfold MergeNodes_effects, on_Memory. cbn [Memory set_Memory].
  rewrite E3, E4, E5, E6.
  unfold merge_queue. rewrite Hn5, Hm5, Hq. simpl. rewrite Hp.
  unfold merge_remove. cbn [Memory set_Memory Internals set_Internals].
  rewrite Hm5, Hl2. f_equal.
  destruct (decide (Some q = Some p)) as [He|Hne];
    destruct (decide (q = p)) as [He'|Hne']; try reflexivity; congruence.
Qed.

Lemma MergeNodes_post (node mergingNode : nat) (parentsToMerge : gset nat)
    (level : Z) (s : vtkMapMarkerSet) (n m : ClusteringNode)
    (s' : vtkMapMarkerSet) (parentsToMerge' : gset nat) :
  merge_shape node mergingNode level s n m →
  MergeNodes node mergingNode parentsToMerge level s
  = Ok (s', parentsToMerge') →
  ∃ p q, Parent n = Some p ∧ Parent m = Some q ∧
    NumberOfMarkers n + NumberOfMarkers m ≠ 0 ∧ 0 ≤ level ∧
    merge_post node mergingNode level parentsToMerge s n m p q
               s' parentsToMerge'.
Proof.
  intros Hsh H.
  destruct (MergeNodes_Ok_effects _ _ _ _ _ _ _ _ Hsh H)
    as (p & q & Hp & Hq & Hw & Hlev & Heff).
  exists p, q. do 4 (split; [assumption|]).
  rewrite (effects_memory _ _ _ level _ _ _ _ _ Hsh Hp Hq) in Heff.
  injection Heff as -> ->.
  destruct Hsh as [Hn Hm Hd [Hl1 Hl2] Hpn Hpm Hch].
  destruct (Hpn p Hp) as ([pr Hpr] & Hpx & Hpm').
  destruct (Hpm q Hq) as ([qr Hqr] & Hqx & Hqm).
  assert (Hnc : ∀ k, k ∈ Children m →
            k ≠ mergingNode ∧ k ≠ node ∧ k ≠ p ∧ k ≠ q).
  { intros k Hk. destruct (Hch k Hk) as (_ & ? & ? & ? & ?).
    repeat split; congruence. }
  assert (Hh2 : ∀ k, k ≠ node → k ∉ Children m →
    foldr (λ child, alter (set_Parent (Some node)) child)
      (<[node := mkNode (NodeId n) (Level n)
          (weighted_mean (fst (gcsCoords n)) (NumberOfMarkers n)
                         (fst (gcsCoords m)) (NumberOfMarkers m),
           weighted_mean (snd (gcsCoords n)) (NumberOfMarkers n)
                         (snd (gcsCoords m)) (NumberOfMarkers m))
          (Parent n) (Children m ∪ Children n)
          (NumberOfMarkers n + NumberOfMarkers m) (-1)]> (Memory s))
      (elements (Children m)) !! k = Memory s !! k).
  { intros k Hk1 Hk2. rewrite reparent_lookup.
    rewrite decide_False by (rewrite elem_of_elements; exact Hk2).
    apply lookup_insert_ne. congruence. }
  constructor; cbn [Memory set_Memory Internals set_Internals NodeTable
                    set_NodeTable AllNodes set_AllNodes Clustering
                    Internals_NumberOfMarkers ClusterDistance].
  - apply lookup_delete_eq.
  - rewrite lookup_delete_ne by done. rewrite !lookup_alter_ne by done.
    rewrite reparent_lookup. rewrite decide_False.
    + apply lookup_insert_eq.
    + rewrite elem_of_elements. intros Hk. apply Hnc in Hk. tauto.
  - intros c Hc. destruct (Hnc c Hc) as (Hc1 & Hc2 & Hc3 & Hc4).
    rewrite lookup_delete_ne by done. rewrite !lookup_alter_ne by done.
    rewrite reparent_lookup.
    rewrite decide_True by (rewrite elem_of_elements; exact Hc).
    rewrite lookup_insert_ne by done. reflexivity.
  - intros k Hk.
    assert (Hkr : ∃ r, Memory s !! k = Some r).
    { destruct Hk as [->| ->]; eauto. }
    destruct Hkr as [r Hr]. exists r.
    assert (Hk1 : k ≠ node) by (destruct Hk as [->| ->]; assumption).
    assert (Hk2 : k ≠ mergingNode) by (destruct Hk as [->| ->]; assumption).
    assert (Hk3 : k ∉ Children m).
    { intros Hc. apply Hnc in Hc. destruct Hk as [->| ->]; tauto. }
    rewrite lookup_delete_ne by done.
    destruct (decide (k = q)) as [->|Hkq].
    + rewrite !lookup_alter_eq.
      destruct (decide (p = q)) as [->|Hpq].
      * rewrite lookup_alter_eq, (Hh2 q Hk1 Hk3), Hr. simpl.
        eexists. split; [reflexivity|]. split; [reflexivity|]. simpl.
        auto 10.
      * rewrite lookup_alter_ne by done. rewrite (Hh2 q Hk1 Hk3), Hr. simpl.
        eexists. split; [reflexivity|]. split; [reflexivity|]. simpl.
        auto 10.
    + assert (k = p) as -> by (destruct Hk; congruence).
      rewrite !(lookup_alter_ne _ _ q p) by done.
      rewrite lookup_alter_eq, (Hh2 p Hk1 Hk3), Hr. simpl.
      eexists. split; [reflexivity|]. split; [reflexivity|]. simpl.
      auto 10.
  - intros k Hk1 Hk2 Hk3 Hk4 Hk5.
    rewrite lookup_delete_ne by done. rewrite !lookup_alter_ne by done.
    apply Hh2; assumption.
  - reflexivity.
  - apply length_insert.
  - reflexivity.
  - auto.
Qed.

Section merge_facts.

Context (node mergingNode : nat) (level : Z) (parentsToMerge : gset nat)
  (s : vtkMapMarkerSet) (n m : ClusteringNode) (p q : nat)
  (s' : vtkMapMarkerSet) (parentsToMerge' : gset nat).
Hypothesis Hsh : merge_shape node mergingNode level s n m.
Hypothesis Hp : Parent n = Some p.
Hypothesis Hq : Parent m = Some q.
Hypothesis Hpost :
  merge_post node mergingNode level parentsToMerge s n m p q
             s' parentsToMerge'.

Lemma merge_apart :
  p ≠ node ∧ p ≠ mergingNode ∧ q ≠ node ∧ q ≠ mergingNode ∧
  ∀ c, c ∈ Children m →
    c ≠ node ∧ c ≠ mergingNode ∧ c ≠ p ∧ c ≠ q.
Proof.
  destruct Hsh as [Hn Hm Hd [Hl1 Hl2] Hpn Hpm Hch].
  destruct (Hpn p Hp) as (_ & ? & ?). destruct (Hpm q Hq) as (_ & ? & ?).
  repeat split; try assumption;
    destruct (Hch c H3) as (_ & ? & ? & ? & ?); congruence.
Qed.

(** Every node but [mergingNode] survives a merge, with its id and its
    level. *)
Lemma merge_survive (k : nat) (r : ClusteringNode) :
  k ≠ mergingNode → Memory s !! k = Some r →
  ∃ r', Memory s' !! k = Some r' ∧
    NodeId r' = NodeId r ∧ Level r' = Level r ∧
    Parent r' = (if decide (k ∈ Children m) then Some node else Parent r) ∧
    Children r' = (if decide (k = node) then Children m ∪ Children r
                   else if decide (k = q) then Children r ∖ {[mergingNode]}
                   else Children r).
Proof.
  intros Hkm Hr.
  destruct merge_apart as (Hpx & Hpm & Hqx & Hqm & Hc).
  destruct (decide (k ∈ Children m)) as [Hkc|Hkc].
  - destruct (Hc k Hkc) as (Hk1 & Hk2 & Hk3 & Hk4).
    rewrite (decide_False (P := k = node)) by done.
    rewrite (decide_False (P := k = q)) by done.
    exists (set_Parent (Some node) r).
    rewrite (mp_child _ _ _ _ _ _ _ _ _ _ _ Hpost k Hkc), Hr. auto.
  - destruct (decide (k = node)) as [->|Hkx].
    + rewrite (ms_node _ _ _ _ _ _ Hsh) in Hr. injection Hr as <-.
      eexists. split; [apply (mp_node _ _ _ _ _ _ _ _ _ _ _ Hpost)|].
      simpl. auto.
    + destruct (decide (k = q)) as [->|Hkq].
      * destruct (mp_parent _ _ _ _ _ _ _ _ _ _ _ Hpost q (or_intror eq_refl))
          as (r0 & r' & Hr0 & Hr' & Hid & Hlv & Hpa & _ & Hch).
        rewrite Hr in Hr0. injection Hr0 as <-.
        rewrite decide_True in Hch by done. exists r'. auto.
      * destruct (decide (k = p)) as [->|Hkp].
        -- destruct (mp_parent _ _ _ _ _ _ _ _ _ _ _ Hpost p (or_introl eq_refl))
             as (r0 & r' & Hr0 & Hr' & Hid & Hlv & Hpa & _ & Hch).
           rewrite Hr in Hr0. injection Hr0 as <-.
           rewrite decide_False in Hch by done. exists r'. auto.
        -- exists r. split; [|auto].
           rewrite (mp_other _ _ _ _ _ _ _ _ _ _ _ Hpost k); auto.
Qed.

(** A merge creates no node. *)
Lemma merge_origin (k : nat) :
  is_Some (Memory s' !! k) → k ≠ mergingNode ∧ is_Some (Memory s !! k).
Proof.
  intros [r' Hr'].
  destruct (decide (k = mergingNode)) as [->|Hkm].
  { rewrite (mp_merging _ _ _ _ _ _ _ _ _ _ _ Hpost) in Hr'. discriminate. }
  split; [exact Hkm|].
  destruct (Memory s !! k) as [r|] eqn:Hr; [eauto|]. exfalso.
  destruct (decide (k ∈ Children m)) as [Hkc|Hkc].
  { rewrite (mp_child _ _ _ _ _ _ _ _ _ _ _ Hpost k Hkc), Hr in Hr'.
    discriminate. }
  destruct (decide (k = node)) as [->|Hkx].
  { rewrite (ms_node _ _ _ _ _ _ Hsh) in Hr. discriminate. }
  destruct (decide (k = p)) as [->|Hkp].
  { destruct (mp_parent _ _ _ _ _ _ _ _ _ _ _ Hpost p (or_introl eq_refl))
      as (r0 & _ & Hr0 & _). congruence. }
  destruct (decide (k = q)) as [->|Hkq].
  { destruct (mp_parent _ _ _ _ _ _ _ _ _ _ _ Hpost q (or_intror eq_refl))
      as (r0 & _ & Hr0 & _). congruence. }
  rewrite (mp_other _ _ _ _ _ _ _ _ _ _ _ Hpost k) in Hr' by assumption.
  congruence.
Qed.

End merge_facts.

Lemma merge_structure (node mergingNode : nat) (level : Z)
    (parentsToMerge : gset nat) (s : vtkMapMarkerSet) (n m : ClusteringNode)
    (p q : nat) (s' : vtkMapMarkerSet) (parentsToMerge' : gset nat) :
  structure s →
  merge_shape node mergingNode level s n m →
  Parent n = Some p → Parent m = Some q → 0 ≤ level →
  merge_post node mergingNode level parentsToMerge s n m p q
             s' parentsToMerge' →
  structure s'.
Proof.
  intros Hst Hsh Hp Hq Hlev Hpost.
  pose proof (merge_survive _ _ _ _ _ _ _ _ _ _ _ Hsh Hp Hq Hpost) as Hsurv.
  pose proof (merge_origin _ _ _ _ _ _ _ _ _ _ _ Hsh Hpost) as Horig.
  destruct (merge_apart _ _ _ _ _ _ _ _ Hsh Hp Hq)
    as (Hpx & Hpm & Hqx & Hqm & Hc).
  pose proof (ms_node _ _ _ _ _ _ Hsh) as Hn.
  pose proof (ms_merging _ _ _ _ _ _ Hsh) as Hm.
  destruct (ms_level _ _ _ _ _ _ Hsh) as [Hl1 Hl2].
  constructor.
  - rewrite (mp_table _ _ _ _ _ _ _ _ _ _ _ Hpost), length_alter.
    apply (st_size s Hst).
  - intros l ns k Hl Hk.
    rewrite (mp_table _ _ _ _ _ _ _ _ _ _ _ Hpost) in Hl.
    rewrite list_lookup_alter in Hl.
    assert (Hin : ∃ ns0, NodeTable (Internals s) !! l = Some ns0 ∧ k ∈ ns0 ∧
                         (Z.to_nat level = l → k ≠ mergingNode)).
    { destruct (decide (Z.to_nat level = l)) as [<-|Hne].
      - destruct (NodeTable (Internals s) !! Z.to_nat level) as [ns0|];
          [|discriminate]. simpl in Hl. injection Hl as <-.
        exists ns0. split; [reflexivity|]. set_solver.
      - exists ns. split; [exact Hl|]. split; [exact Hk|]. tauto. }
    destruct Hin as (ns0 & Hns0 & Hk0 & Hkm).
    destruct (st_table s Hst _ _ _ Hns0 Hk0) as (r & Hr & Hlr).
    assert (Hne : k ≠ mergingNode).
    { intros ->. rewrite Hm in Hr. injection Hr as <-. apply Hkm; [lia|].
      reflexivity. }
    destruct (Hsurv k r Hne Hr) as (r' & Hr' & _ & Hlv & _).
    exists r'. split; [exact Hr'|]. lia.
  - intros k r' Hr'.
    destruct (Horig k) as [Hne [r Hr]]; [eauto|].
    destruct (Hsurv k r Hne Hr) as (r'' & Hr'' & _ & Hlv & _).
    rewrite Hr' in Hr''. injection Hr'' as <-.
    rewrite Hlv. apply (st_level s Hst _ _ Hr).
  - intros k r' k' Hr' Hpar.
    destruct (Horig k) as [Hne [r Hr]]; [eauto|].
    destruct (Hsurv k r Hne Hr) as (r'' & Hr'' & _ & Hlv & Hpa & _).
    rewrite Hr' in Hr''. injection Hr'' as <-.
    destruct (decide (k ∈ Children m)) as [Hkc|Hkc].
    + (* a re-parented child *)
      rewrite Hpa in Hpar. injection Hpar as <-.
      destruct (st_children s Hst _ _ _ Hm Hkc) as (r0 & Hr0 & Hpar0).
      rewrite Hr in Hr0. injection Hr0 as <-.
      destruct (st_parent s Hst _ _ _ Hr Hpar0) as (m0 & Hm0 & Hlm & _).
      rewrite Hm in Hm0. injection Hm0 as <-.
      eexists. split; [apply (mp_node _ _ _ _ _ _ _ _ _ _ _ Hpost)|].
      simpl. split; [lia|]. set_solver.
    + rewrite Hpa in Hpar.
      destruct (st_parent s Hst _ _ _ Hr Hpar) as (kr & Hkr & Hlk & Hin).
      assert (Hk'm : k' ≠ mergingNode).
      { intros ->. rewrite Hm in Hkr. injection Hkr as <-. tauto. }
      destruct (Hsurv k' kr Hk'm Hkr) as (kr' & Hkr' & _ & Hlv' & _ & Hch').
      exists kr'. split; [exact Hkr'|]. split; [lia|].
      rewrite Hch'.
      destruct (decide (k' = node)); [set_solver|].
      destruct (decide (k' = q)); set_solver.
  - intros k r' c Hr' Hcin.
    destruct (Horig k) as [Hne [r Hr]]; [eauto|].
    destruct (Hsurv k r Hne Hr) as (r'' & Hr'' & _ & Hlv & _ & Hch).
    rewrite Hr' in Hr''. injection Hr'' as <-.
    rewrite Hch in Hcin.
    destruct (decide (c ∈ Children m)) as [Hcm|Hcm].
    + (* a child of the merged node: it can only sit under [node] now *)
      destruct (st_children s Hst _ _ _ Hm Hcm) as (cr & Hcr & Hcp).
      destruct (Hc c Hcm) as (Hc1 & Hc2 & Hc3 & Hc4).
      destruct (Hsurv c cr Hc2 Hcr) as (cr' & Hcr' & _ & _ & Hcpa & _).
      rewrite decide_True in Hcpa by done.
      exists cr'. split; [exact Hcr'|]. rewrite Hcpa. f_equal.
      destruct (decide (k = node)) as [->|Hkx]; [reflexivity|].
      exfalso.
      assert (Hck : c ∈ Children r).
      { destruct (decide (k = q)); set_solver. }
      destruct (st_children s Hst _ _ _ Hr Hck) as (cr0 & Hcr0 & Hcp0).
      rewrite Hcr in Hcr0. injection Hcr0 as <-. congruence.
    + assert (Hck : c ∈ Children r ∧ c ≠ mergingNode).
      { destruct (decide (k = node)) as [->|Hkx].
        - rewrite Hn in Hr. injection Hr as <-.
          split; [set_solver|]. intros ->.
          assert (Hmn : mergingNode ∈ Children n) by set_solver.
          destruct (st_children s Hst _ _ _ Hn Hmn) as (m0 & Hm0 & Hpm0).
          rewrite Hm in Hm0. injection Hm0 as <-.
          rewrite Hq in Hpm0. congruence.
        - destruct (decide (k = q)) as [->|Hkq]; [set_solver|].
          split; [exact Hcin|]. intros ->.
          destruct (st_children s Hst _ _ _ Hr Hcin) as (m0 & Hm0 & Hpm0).
          rewrite Hm in Hm0. injection Hm0 as <-.
          rewrite Hq in Hpm0. congruence. }
      destruct Hck as [Hck Hcne].
      destruct (st_children s Hst _ _ _ Hr Hck) as (cr & Hcr & Hcp).
      destruct (Hsurv c cr Hcne Hcr) as (cr' & Hcr' & _ & _ & Hcpa & _).
      rewrite decide_False in Hcpa by done.
      exists cr'. split; [exact Hcr'|]. congruence.
  - intros k Hk. destruct (Horig k Hk) as [_ Hlive].
    rewrite (mp_arena _ _ _ _ _ _ _ _ _ _ _ Hpost).
    apply (st_fresh s Hst _ Hlive).
Qed.

(** ** Agreement of a node with its children *)

Lemma child_count_shape (h h' : gmap nat ClusteringNode) (c : nat) :
  shape <$> h' !! c = shape <$> h !! c → child_count h' c = child_count h c.
Proof.
  unfold child_count. destruct (h' !! c), (h !! c); simpl; intros H;
    try discriminate; [|reflexivity].
  injection H as _ H _ _. exact H.
Qed.

Lemma child_moment_shape (proj : Q * Q → Q) (h h' : gmap nat ClusteringNode)
    (c : nat) :
  shape <$> h' !! c = shape <$> h !! c →
  child_moment proj h' c = child_moment proj h c.
Proof.
  unfold child_moment. destruct (h' !! c), (h !! c); simpl; intros H;
    try discriminate; [|reflexivity].
  injection H as _ H1 H2 _. rewrite H1, H2. reflexivity.
Qed.

Lemma node_ok_shape (h h' : gmap nat ClusteringNode) (n n' : ClusteringNode) :
  shape n' = shape n →
  (∀ c, c ∈ Children n → shape <$> h' !! c = shape <$> h !! c) →
  node_ok h n → node_ok h' n'.
Proof.
  intros Hs Hc [H1 H2]. unfold shape in Hs. injection Hs as Hl Hn Hg Hch.
  unfold node_ok. rewrite Hl, Hn, Hg, Hch. split; [exact H1|].
  intros Hlt. destruct (H2 Hlt) as (Hc1 & Hc2 & Hc3).
  rewrite (children_count_ext h' h), (children_moment_ext fst h' h),
    (children_moment_ext snd h' h); auto using child_count_shape,
    child_moment_shape.
Qed.

(** The nodes that a step changes or frees are marked, the marks of
    before stay or belong to such nodes: agreement outside the marks
    carries over. *)
Lemma consistent_step (D D' Mod : nat → Prop) (h h' : gmap nat ClusteringNode) :
  consistent_outside D h →
  (∀ k, ¬ Mod k → shape <$> h' !! k = shape <$> h !! k) →
  (∀ k, Mod k → is_Some (h' !! k) → D' k) →
  (∀ k, D k → D' k ∨ Mod k) →
  (∀ z n c, h' !! z = Some n → c ∈ Children n → is_Some (h' !! c)) →
  consistent_outside D' h'.
Proof.
  intros HJ Hsame Hmod HD Hlive z n' Hz HDz Hch.
  assert (HMz : ¬ Mod z) by (intros HM; apply HDz, Hmod; eauto).
  pose proof (Hsame z HMz) as Hsz. rewrite Hz in Hsz.
  destruct (h !! z) as [n|] eqn:Hn; [|discriminate].
  assert (Hsz' : shape n' = shape n).
  { simpl in Hsz. unfold shape in *. congruence. }
  assert (Hcs : Children n = Children n').
  { unfold shape in Hsz'. injection Hsz' as _ _ _ Hcs. congruence. }
  assert (HMc : ∀ c, c ∈ Children n → ¬ Mod c).
  { intros c Hc HM. rewrite Hcs in Hc. apply (Hch c Hc), Hmod; eauto. }
  apply (node_ok_shape h h' n n'); [congruence| |].
  - intros c Hc. apply Hsame, HMc, Hc.
  - apply (HJ z n Hn).
    + intros HDz'. destruct (HD z HDz'); tauto.
    + intros c Hc HDc. destruct (HD c HDc) as [HD'|HM].
      * rewrite Hcs in Hc. apply (Hch c Hc HD').
      * apply (HMc c Hc HM).
Qed.

Lemma consistent_weaken (D D' : nat → Prop) (h : gmap nat ClusteringNode) :
  (∀ k, D k → D' k) → consistent_outside D h → consistent_outside D' h.
Proof.
  intros HD HJ z n Hz HDz Hch. apply (HJ z n Hz).
  - intros H. apply HDz, HD, H.
  - intros c Hc H. apply (Hch c Hc), HD, H.
Qed.

Section merge_agreement.

Context (node mergingNode : nat) (level : Z) (parentsToMerge : gset nat)
  (s : vtkMapMarkerSet) (n m : ClusteringNode) (p q : nat)
  (s' : vtkMapMarkerSet) (parentsToMerge' : gset nat).
Hypothesis Hst : structure s.
Hypothesis Hsh : merge_shape node mergingNode level s n m.
Hypothesis Hp : Parent n = Some p.
Hypothesis Hq : Parent m = Some q.
Hypothesis Hw : NumberOfMarkers n + NumberOfMarkers m ≠ 0.
Hypothesis Hpost :
  merge_post node mergingNode level parentsToMerge s n m p q
             s' parentsToMerge'.

Lemma merge_shape_kept (k : nat) :
  k ≠ node → k ≠ mergingNode → k ≠ p → k ≠ q →
  shape <$> Memory s' !! k = shape <$> Memory s !! k.
Proof.
  intros H1 H2 H3 H4.
  destruct (decide (k ∈ Children m)) as [Hc|Hc].
  - rewrite (mp_child _ _ _ _ _ _ _ _ _ _ _ Hpost k Hc).
    destruct (Memory s !! k); reflexivity.
  - rewrite (mp_other _ _ _ _ _ _ _ _ _ _ _ Hpost k); auto.
Qed.

Lemma merge_consistent (D : nat → Prop) :
  D node → structure s' →
  consistent_outside D (Memory s) →
  consistent_outside (λ k, D k ∨ k = p ∨ k = q) (Memory s').
Proof.
  intros HDx Hst' HJ.
  apply (consistent_step D _
           (λ k, k = node ∨ k = mergingNode ∨ k = p ∨ k = q)
           (Memory s) (Memory s') HJ).
  - intros k Hk. apply merge_shape_kept; tauto.
  - intros k [->|[->|[->| ->]]] Hlive; auto.
    rewrite (mp_merging _ _ _ _ _ _ _ _ _ _ _ Hpost) in Hlive.
    destruct Hlive; discriminate.
  - auto.
  - intros z r c Hz Hc.
    destruct (st_children s' Hst' _ _ _ Hz Hc) as (cr & Hcr & _). eauto.
Qed.

Lemma merge_kept : level ≤ 18 → kept s s'.
Proof.
  intros Hle.
  destruct (merge_apart _ _ _ _ _ _ _ _ Hsh Hp Hq)
    as (Hpx & Hpm & Hqx & Hqm & Hc).
  pose proof (ms_node _ _ _ _ _ _ Hsh) as Hn.
  pose proof (ms_merging _ _ _ _ _ _ Hsh) as Hm.
  destruct (ms_level _ _ _ _ _ _ Hsh) as [Hl1 Hl2].
  constructor.
  - rewrite (mp_table _ _ _ _ _ _ _ _ _ _ _ Hpost).
    apply list_lookup_alter_ne. lia.
  - intros k r Hr Hl.
    assert (Hk1 : k ≠ node).
    { intros ->. rewrite Hn in Hr. injection Hr as <-. lia. }
    assert (Hk2 : k ≠ mergingNode).
    { intros ->. rewrite Hm in Hr. injection Hr as <-. lia. }
    assert (Hk3 : k ≠ p).
    { intros ->.
      destruct (st_parent s Hst _ _ _ Hn Hp) as (pr & Hpr & Hlp & _).
      rewrite Hr in Hpr. injection Hpr as <-. lia. }
    assert (Hk4 : k ≠ q).
    { intros ->.
      destruct (st_parent s Hst _ _ _ Hm Hq) as (qr & Hqr & Hlq & _).
      rewrite Hr in Hqr. injection Hqr as <-. lia. }
    destruct (decide (k ∈ Children m)) as [Hkc|Hkc].
    + rewrite (mp_child _ _ _ _ _ _ _ _ _ _ _ Hpost k Hkc), Hr.
      eexists. split; [reflexivity|]. auto.
    + rewrite (mp_other _ _ _ _ _ _ _ _ _ _ _ Hpost k) by assumption.
      eauto.
  - apply (mp_rest _ _ _ _ _ _ _ _ _ _ _ Hpost).
Qed.

Lemma merge_node_ok :
  node_ok (Memory s) n → node_ok (Memory s) m →
  ∃ n', Memory s' !! node = Some n' ∧ node_ok (Memory s') n' ∧
        Level n' = Level n ∧ Parent n' = Parent n.
Proof.
  intros [Hn1 Hn2] [Hm1 Hm2].
  destruct (merge_apart _ _ _ _ _ _ _ _ Hsh Hp Hq)
    as (Hpx & Hpm & Hqx & Hqm & Hc).
  pose proof (ms_node _ _ _ _ _ _ Hsh) as Hn.
  pose proof (ms_merging _ _ _ _ _ _ Hsh) as Hm.
  destruct (ms_level _ _ _ _ _ _ Hsh) as [Hl1 Hl2].
  eexists. split; [apply (mp_node _ _ _ _ _ _ _ _ _ _ _ Hpost)|].
  split; [|split; reflexivity].
  assert (Hdisj : Children m ## Children n).
  { intros c Hcm Hcn.
    destruct (st_children s Hst _ _ _ Hm Hcm) as (cr & Hcr & Hcp).
    destruct (st_children s Hst _ _ _ Hn Hcn) as (cr' & Hcr' & Hcp').
    rewrite Hcr in Hcr'. injection Hcr' as <-.
    rewrite Hcp in Hcp'. injection Hcp' as Heq.
    apply (ms_distinct _ _ _ _ _ _ Hsh). congruence. }
  assert (Hkeep : ∀ c, c ∈ Children m ∪ Children n →
            shape <$> Memory s' !! c = shape <$> Memory s !! c).
  { intros c Hcin.
    assert (Hlc : ∃ cr, Memory s !! c = Some cr ∧ Level cr = Level n + 1).
    { apply elem_of_union in Hcin as [Hcin|Hcin].
      - destruct (st_children s Hst _ _ _ Hm Hcin) as (cr & Hcr & Hcp).
        destruct (st_parent s Hst _ _ _ Hcr Hcp) as (m0 & Hm0 & Hlm & _).
        rewrite Hm in Hm0. injection Hm0 as <-. exists cr. split; [auto|lia].
      - destruct (st_children s Hst _ _ _ Hn Hcin) as (cr & Hcr & Hcp).
        destruct (st_parent s Hst _ _ _ Hcr Hcp) as (n0 & Hn0 & Hln & _).
        rewrite Hn in Hn0. injection Hn0 as <-. exists cr. split; [auto|lia]. }
    destruct Hlc as (cr & Hcr & Hlc).
    apply merge_shape_kept.
    - intros ->. rewrite Hn in Hcr. injection Hcr as <-. lia.
    - intros ->. rewrite Hm in Hcr. injection Hcr as <-. lia.
    - intros ->.
      destruct (st_parent s Hst _ _ _ Hn Hp) as (pr & Hpr & Hlp & _).
      rewrite Hcr in Hpr. injection Hpr as <-. lia.
    - intros ->.
      destruct (st_parent s Hst _ _ _ Hm Hq) as (qr & Hqr & Hlq & _).
      rewrite Hcr in Hqr. injection Hqr as <-. lia. }
  unfold node_ok. simpl. split; [lia|]. intros Hlt.
  destruct (Hn2 Hlt) as (Hnc & Hnx & Hny).
  destruct (Hm2 ltac:(lia)) as (Hmc & Hmx & Hmy).
  rewrite (children_count_ext _ (Memory s)),
    (children_moment_ext fst _ (Memory s)),
    (children_moment_ext snd _ (Memory s));
    auto using child_count_shape, child_moment_shape.
  rewrite children_count_union, !children_moment_union by exact Hdisj.
  split; [lia|].
  rewrite <- Hnx, <- Hny, <- Hmx, <- Hmy.
  assert (Hnz : ¬ (inject_Z (NumberOfMarkers n + NumberOfMarkers m) == 0)%Q).
  { intros H. unfold Qeq in H. simpl in H. lia. }
  unfold weighted_mean. rewrite inject_Z_plus in *.
  split; field; exact Hnz.
Qed.

End merge_agreement.

(** ** The pieces of a round of [AddMarker] *)

Lemma FindClosestNode_scan_elem (h : gmap nat ClusteringNode) (node : nat)
    (l : list nat) (acc : option nat) (cd2 : Q) (y : nat) :
  FindClosestNode_scan h node l acc cd2 = Ok (Some y) →
  acc = Some y ∨ (y ∈ l ∧ y ≠ node).
Proof.
  revert acc cd2. induction l as [|o l IH]; intros acc cd2 H; simpl in H.
  - injection H as ->. left. reflexivity.
  - destruct (decide (o = node)) as [->|Hne].
    + destruct (IH _ _ H) as [Ha|[Hy Hn]]; [left; exact Ha|].
      right. split; [right; exact Hy|exact Hn].
    + inv_bind H. inv_bind H.
      destruct (Qltb (dist2 a a0) cd2).
      * destruct (IH _ _ H) as [[= ->]|[Hy Hn]].
        -- right. split; [left|exact Hne].
        -- right. split; [right; exact Hy|exact Hn].
      * destruct (IH _ _ H) as [Ha|[Hy Hn]]; [left; exact Ha|].
        right. split; [right; exact Hy|exact Hn].
Qed.

Lemma FindClosestNode_elem (node : nat) (level : Z) (threshold : Q)
    (s : vtkMapMarkerSet) (y : nat) :
  FindClosestNode node level threshold s = Ok (Some y) →
  ∃ nodeSet, 0 ≤ level ∧
    NodeTable (Internals s) !! Z.to_nat level = Some nodeSet ∧
    y ∈ nodeSet ∧ y ≠ node.
Proof.
  unfold FindClosestNode. intros H. inv_bind H. inv_bind H.
  apply at_index_Ok in E0 as [Hlev Hns].
  apply FindClosestNode_scan_elem in H as [H|[Hy Hne]]; [discriminate|].
  exists a0. rewrite elem_of_elements in Hy. auto.
Qed.

Lemma AddMarker_count_loop (h : gmap nat ClusteringNode) (l : list nat) :
  ∀ (a : Z) (b0 b1 : Q) (a' : Z) (b0' b1' : Q),
  foldlM (AddMarker_count h) (a, (b0, b1)) l = Ok (a', (b0', b1')) →
  a' = a + sumZ (map (child_count h) l) ∧
  (b0' == b0 + sumQ (map (child_moment fst h) l))%Q ∧
  (b1' == b1 + sumQ (map (child_moment snd h) l))%Q ∧
  ∀ c, c ∈ l → is_Some (h !! c).
Proof.
  induction l as [|c l IH]; intros a b0 b1 a' b0' b1' H; simpl in H.
  - injection H as <- <- <-. simpl.
    split; [lia|]. split; [ring|]. split; [ring|].
    intros c Hc. inversion Hc.
  - inv_bind H. unfold AddMarker_count in E. inv_bind E.
    apply load_Ok in E0 as (? & [= <-] & Hc). injection E as <-.
    destruct (IH _ _ _ _ _ _ H) as (Ha & Hb0 & Hb1 & Hl).
    assert (Hcc : child_count h c = NumberOfMarkers a1)
      by (unfold child_count; rewrite Hc; reflexivity).
    assert (Hm0 : child_moment fst h c
                  = (inject_Z (NumberOfMarkers a1) * fst (gcsCoords a1))%Q)
      by (unfold child_moment; rewrite Hc; reflexivity).
    assert (Hm1 : child_moment snd h c
                  = (inject_Z (NumberOfMarkers a1) * snd (gcsCoords a1))%Q)
      by (unfold child_moment; rewrite Hc; reflexivity).
    simpl. rewrite Hcc, Hm0, Hm1.
    split; [lia|]. split; [rewrite Hb0; ring|]. split; [rewrite Hb1; ring|].
    intros c' Hc'. apply elem_of_cons in Hc' as [->|Hc']; eauto.
Qed.

Lemma MergeNodes_live (node mergingNode : nat) (parentsToMerge : gset nat)
    (level : Z) (s : vtkMapMarkerSet) (r : vtkMapMarkerSet * gset nat) :
  MergeNodes node mergingNode parentsToMerge level s = Ok r →
  is_Some (Memory s !! node) ∧ is_Some (Memory s !! mergingNode).
Proof.
  unfold MergeNodes. intros H. inv_bind H. inv_bind H.
  apply load_Ok in E as (? & [= <-] & Hn).
  apply load_Ok in E0 as (? & [= <-] & Hm). eauto.
Qed.

(** Rewriting the count, the position and the marker id of a node leaves
    the shape of the tree as it is. *)
Lemma structure_update (s : vtkMapMarkerSet) (x : nat) (r r' : ClusteringNode) :
  structure s → Memory s !! x = Some r →
  Level r' = Level r → Parent r' = Parent r → Children r' = Children r →
  structure (set_Memory (<[x := r']> (Memory s)) s).
Proof.
  intros Hst Hr Hl Hp Hc.
  assert (Hlook : ∀ k rk, <[x := r']> (Memory s) !! k = Some rk →
            ∃ rk0, Memory s !! k = Some rk0 ∧ Level rk = Level rk0 ∧
                   Parent rk = Parent rk0 ∧ Children rk = Children rk0).
  { intros k rk Hk. destruct (decide (x = k)) as [->|Hne].
    - rewrite lookup_insert_eq in Hk. injection Hk as <-. exists r. auto.
    - rewrite lookup_insert_ne in Hk by done. exists rk. auto. }
  assert (Hback : ∀ k rk0, Memory s !! k = Some rk0 →
            ∃ rk, <[x := r']> (Memory s) !! k = Some rk ∧
                  Level rk = Level rk0 ∧ Parent rk = Parent rk0 ∧
                  Children rk = Children rk0).
  { intros k rk0 Hk. destruct (decide (x = k)) as [->|Hne].
    - rewrite lookup_insert_eq. rewrite Hr in Hk. injection Hk as <-.
      exists r'. auto.
    - rewrite lookup_insert_ne by done. exists rk0. auto. }
  constructor; simpl.
  - apply (st_size s Hst).
  - intros l ns k Hns Hk.
    destruct (st_table s Hst _ _ _ Hns Hk) as (rk0 & Hk0 & Hlk).
    destruct (Hback _ _ Hk0) as (rk & Hrk & Hl' & _). exists rk.
    split; [exact Hrk|]. congruence.
  - intros k rk Hk. destruct (Hlook _ _ Hk) as (rk0 & Hk0 & Hl' & _).
    rewrite Hl'. apply (st_level s Hst _ _ Hk0).
  - intros k rk k' Hk Hpar.
    destruct (Hlook _ _ Hk) as (rk0 & Hk0 & Hl' & Hp' & _).
    rewrite Hp' in Hpar.
    destruct (st_parent s Hst _ _ _ Hk0 Hpar) as (qr0 & Hq0 & Hlq & Hin).
    destruct (Hback _ _ Hq0) as (qr & Hqr & Hl'' & _ & Hc'').
    exists qr. split; [exact Hqr|]. split; [congruence|]. congruence.
  - intros k rk c Hk Hin.
    destruct (Hlook _ _ Hk) as (rk0 & Hk0 & _ & _ & Hc').
    rewrite Hc' in Hin.
    destruct (st_children s Hst _ _ _ Hk0 Hin) as (cr0 & Hc0 & Hpc).
    destruct (Hback _ _ Hc0) as (cr & Hcr & _ & Hp'' & _).
    exists cr. split; [exact Hcr|]. congruence.
  - intros k Hk. apply (st_fresh s Hst).
    rewrite lookup_insert_is_Some' in Hk. destruct Hk as [<-|Hk]; eauto.
Qed.

Lemma kept_refl (s : vtkMapMarkerSet) : kept s s.
Proof. constructor; eauto. Qed.

Lemma kept_trans (s1 s2 s3 : vtkMapMarkerSet) :
  kept s1 s2 → kept s2 s3 → kept s1 s3.
Proof.
  intros [Ht1 Hl1 (Ha1 & Hb1 & Hc1)] [Ht2 Hl2 (Ha2 & Hb2 & Hc2)].
  constructor.
  - congruence.
  - intros k r Hr Hl.
    destruct (Hl1 k r Hr Hl) as (r' & Hr' & Hl' & Hn' & Hm').
    destruct (Hl2 k r' Hr' Hl') as (r'' & Hr'' & Hl'' & Hn'' & Hm'').
    exists r''. repeat split; congruence.
  - repeat split; congruence.
Qed.

(** One merge of the refinement step. *)
Lemma refine_merge (x y : nat) (level : Z) (pq pq' : gset nat)
    (s s' : vtkMapMarkerSet) (D : nat → Prop) (nx ny : ClusteringNode) :
  structure s →
  Memory s !! x = Some nx → Memory s !! y = Some ny → x ≠ y →
  Level nx = level → Level ny = level → level ≤ 18 →
  consistent_outside D (Memory s) → D x →
  MergeNodes x y pq level s = Ok (s', pq') →
  ∃ p q, Parent nx = Some p ∧ Parent ny = Some q ∧
    structure s' ∧ kept s s' ∧
    consistent_outside (λ k, D k ∨ k = p ∨ k = q) (Memory s') ∧
    pq' = (if decide (q = p) then pq else {[q]} ∪ pq) ∧
    Memory s' !! y = None ∧
    (∃ nx', Memory s' !! x = Some nx' ∧ Level nx' = level ∧
       Parent nx' = Some p ∧
       (node_ok (Memory s) nx → node_ok (Memory s) ny →
        node_ok (Memory s') nx')) ∧
    (∀ k, is_Some (Memory s' !! k) → is_Some (Memory s !! k)) ∧
    (∀ k r, k ≠ y → Memory s !! k = Some r →
       ∃ r', Memory s' !! k = Some r' ∧ Level r' = Level r).
Proof.
  intros Hst Hx Hy Hne Hlx Hly Hle HJ HDx H.
  assert (Hsh : merge_shape x y level s nx ny).
  { apply merge_shape_of_structure; auto. congruence. }
  destruct (MergeNodes_post _ _ _ _ _ _ _ _ _ Hsh H)
    as (p & q & Hp & Hq & Hw & Hlev & Hpost).
  pose proof (merge_structure _ _ _ _ _ _ _ _ _ _ _ Hst Hsh Hp Hq Hlev Hpost)
    as Hst'.
  exists p, q. split; [exact Hp|]. split; [exact Hq|].
  split; [exact Hst'|].
  split; [apply (merge_kept _ _ _ _ _ _ _ _ _ _ _ Hst Hsh Hp Hq Hpost Hle)|].
  split; [apply (merge_consistent _ _ _ _ _ _ _ _ _ _ _ Hpost D HDx Hst' HJ)|].
  split; [apply (mp_queue _ _ _ _ _ _ _ _ _ _ _ Hpost)|].
  split; [apply (mp_merging _ _ _ _ _ _ _ _ _ _ _ Hpost)|].
  split.
  - eexists. split; [apply (mp_node _ _ _ _ _ _ _ _ _ _ _ Hpost)|].
    simpl. split; [exact Hlx|]. split; [exact Hp|].
    intros Hokx Hoky.
    destruct (merge_node_ok _ _ _ _ _ _ _ _ _ _ _ Hst Hsh Hp Hq Hw Hpost
                Hokx Hoky) as (n' & Hn' & Hok' & _).
    rewrite (mp_node _ _ _ _ _ _ _ _ _ _ _ Hpost) in Hn'.
    injection Hn' as <-. exact Hok'.
  - split.
    + intros k Hk. apply (merge_origin _ _ _ _ _ _ _ _ _ _ _ Hsh Hpost k Hk).
    + intros k r Hk Hr.
      destruct (merge_survive _ _ _ _ _ _ _ _ _ _ _ Hsh Hp Hq Hpost k r Hk Hr)
        as (r' & Hr' & _ & Hl' & _).
      eauto.
Qed.

(** One merge of a queued node into the current node. *)
Lemma merging_step (x : nat) (level : Z) (P : option nat) (Qs : gset nat)
    (M : nat) (s : vtkMapMarkerSet) (pq : gset nat)
    (s2 : vtkMapMarkerSet) (pq2 : gset nat) :
  x ≠ M → M ∈ Qs → level ≤ 18 →
  merging_inv x level P Qs pq s →
  MergeNodes x M pq level s = Ok (s2, pq2) →
  merging_inv x level P Qs pq2 s2 ∧ kept s s2 ∧
  (∀ k, Memory s !! k = None → Memory s2 !! k = None) ∧
  Memory s2 !! M = None ∧
  ∃ nx nM nx2,
    Memory s !! x = Some nx ∧ Memory s !! M = Some nM ∧
    Memory s2 !! x = Some nx2 ∧
    (node_ok (Memory s) nx → node_ok (Memory s) nM →
     node_ok (Memory s2) nx2).
Proof.
  intros Hne HMQ Hle Hinv E.
  destruct Hinv as [Hst Hnode HJ Hqueue Hpar HPl].
  destruct (MergeNodes_live _ _ _ _ _ _ E) as [[nx Hnx] [nM HnM]].
  destruct (Hnode nx Hnx) as [Hlx HPx].
  pose proof (Hqueue M nM HMQ HnM) as HlM.
  destruct (refine_merge x M level pq pq2 s s2 _ nx nM Hst Hnx HnM Hne
              Hlx HlM Hle HJ (or_introl eq_refl) E)
    as (p & q & Hp & Hq & Hst2 & Hk2 & HJ2 & Hpq2 & HM2 & Hx2 & Hnew & Hsurv).
  assert (HPp : P = Some p) by congruence.
  assert (Hlevel_kept : ∀ k r', Memory s2 !! k = Some r' →
            ∃ r, Memory s !! k = Some r ∧ Level r' = Level r).
  { intros k r' Hr'. destruct (Hnew k) as [r Hr]; [eauto|].
    assert (HkM : k ≠ M) by (intros ->; congruence).
    destruct (Hsurv k r HkM Hr) as (r'' & Hr'' & Hl'').
    rewrite Hr' in Hr''. injection Hr'' as <-. eauto. }
  split; [|split; [exact Hk2|split; [|split; [exact HM2|]]]].
  - constructor.
    + exact Hst2.
    + intros nx' Hnx'. destruct Hx2 as (nx2 & Hnx2 & Hl2 & Hp2 & _).
      rewrite Hnx' in Hnx2. injection Hnx2 as <-. split; congruence.
    + revert HJ2. apply consistent_weaken.
      intros k [[->|[Hk|[Hk|Hk]]]|[->| ->]]; auto.
      * rewrite Hpq2. destruct (decide (q = p)); set_solver.
      * rewrite Hpq2. destruct (decide (q = p)) as [->|]; [auto|].
        right. right. right. set_solver.
    + intros k r' Hk Hr'. destruct (Hlevel_kept k r' Hr') as (r & Hr & ->).
      apply (Hqueue k r Hk Hr).
    + intros k Hk. rewrite Hpq2 in Hk.
      assert (Hcases : k ∈ pq ∨ (k = q ∧ q ≠ p)).
      { destruct (decide (q = p)); set_solver. }
      destruct Hcases as [Hk'|[-> Hqp]].
      * destruct (Hpar k Hk') as [HP Hlk]. split; [exact HP|].
        intros r' Hr'. destruct (Hlevel_kept k r' Hr') as (r & Hr & ->).
        apply (Hlk r Hr).
      * split; [congruence|].
        intros r' Hr'. destruct (Hlevel_kept q r' Hr') as (r & Hr & ->).
        destruct (st_parent s Hst _ _ _ HnM Hq) as (qr & Hqr & Hlq & _).
        rewrite Hr in Hqr. injection Hqr as <-. lia.
    + intros k r' Hk Hr'. destruct (Hlevel_kept k r' Hr') as (r & Hr & ->).
      apply (HPl k r Hk Hr).
  - intros k Hk.
    destruct (Memory s2 !! k) as [r'|] eqn:Hr'; [|reflexivity].
    destruct (Hnew k) as [r Hr]; [eauto|]. congruence.
  - destruct Hx2 as (nx2 & Hnx2 & _ & _ & Hok).
    exists nx, nM, nx2. auto.
Qed.

(** The loop that merges the queued nodes. *)
Lemma merging_loop (x : nat) (level : Z) (P : option nat) (Qs : gset nat) :
  x ∉ Qs → level ≤ 18 →
  ∀ (l : list nat) (s : vtkMapMarkerSet) (pq : gset nat)
    (s1 : vtkMapMarkerSet) (pq1 : gset nat),
  (∀ M, M ∈ l → M ∈ Qs) →
  merging_inv x level P Qs pq s →
  foldlM (AddMarker_merge x level) (s, pq) l = Ok (s1, pq1) →
  merging_inv x level P Qs pq1 s1 ∧ kept s s1 ∧
  (∀ k, Memory s !! k = None → Memory s1 !! k = None) ∧
  (∀ M, M ∈ l → Memory s1 !! M = None).
Proof.
  intros Hx Hle. induction l as [|M l IH]; intros s pq s1 pq1 Hl Hinv H.
  - simpl in H. injection H as <- <-.
    split; [exact Hinv|]. split; [apply kept_refl|]. split; [auto|].
    intros M HM. inversion HM.
  - simpl in H. inv_bind H. destruct a as [s2 pq2].
    unfold AddMarker_merge in E. simpl in E.
    assert (HMQ : M ∈ Qs) by (apply Hl; left).
    destruct (decide (x = M)) as [->|Hne]; [tauto|].
    destruct (merging_step x level P Qs M s pq s2 pq2 Hne HMQ Hle Hinv E)
      as (Hinv2 & Hk2 & Hdead2 & HM2 & _).
    destruct (IH s2 pq2 s1 pq1) as (Hinv1 & Hk1 & Hdead & Hl1).
    { intros M' HM'. apply Hl. right. exact HM'. }
    { exact Hinv2. }
    { exact H. }
    split; [exact Hinv1|]. split; [apply (kept_trans _ _ _ Hk2 Hk1)|].
    split.
    + intros k Hk. apply Hdead, Hdead2, Hk.
    + intros M' HM'. apply elem_of_cons in HM' as [->|HM'].
      * apply Hdead, HM2.
      * apply Hl1, HM'.
Qed.

Lemma sumZ_nonneg (l : list Z) : (∀ v, v ∈ l → 0 ≤ v) → 0 ≤ sumZ l.
Proof.
  induction l as [|v l IH]; intros H; simpl; [lia|].
  assert (0 ≤ v) by (apply H; left).
  assert (0 ≤ sumZ l) by (apply IH; intros w Hw; apply H; right; exact Hw).
  lia.
Qed.

(** The nodes finer than the current level agree with their children. *)
Lemma merging_finer_ok (x : nat) (level : Z) (P : option nat)
    (Qs pq : gset nat) (s : vtkMapMarkerSet) (k : nat) (r : ClusteringNode) :
  merging_inv x level P Qs pq s →
  Memory s !! k = Some r → level < Level r →
  node_ok (Memory s) r.
Proof.
  intros [Hst Hnode HJ Hqueue Hpar HPl] Hr Hl.
  assert (Hout : ∀ c rc, Memory s !! c = Some rc → level < Level rc →
            ¬ (c = x ∨ c ∈ Qs ∨ P = Some c ∨ c ∈ pq)).
  { intros c rc Hc Hlc [->|[Hq|[HP|Hq]]].
    - destruct (Hnode rc Hc). lia.
    - pose proof (Hqueue c rc Hq Hc). lia.
    - pose proof (HPl c rc HP Hc). lia.
    - destruct (Hpar c Hq) as [_ Hlq]. pose proof (Hlq rc Hc). lia. }
  apply (HJ k r Hr).
  - apply (Hout k r Hr Hl).
  - intros c Hc. destruct (st_children s Hst _ _ _ Hr Hc) as (rc & Hrc & Hpc).
    destruct (st_parent s Hst _ _ _ Hrc Hpc) as (r0 & Hr0 & Hl0 & _).
    rewrite Hr in Hr0. injection Hr0 as <-.
    apply (Hout c rc Hrc). lia.
Qed.

(** The recomputation of the count and the position of the current node
    from its children. *)
Lemma recompute_ok (x : nat) (level : Z) (P : option nat) (Qs pq : gset nat)
    (s : vtkMapMarkerSet) (nx : ClusteringNode) (N : Z) (num0 num1 c0 c1 : Q) :
  merging_inv x level P Qs pq s → level ≤ 18 →
  Memory s !! x = Some nx →
  foldlM (AddMarker_count (Memory s)) (0, (0%Q, 0%Q))
         (elements (Children nx)) = Ok (N, (num0, num1)) →
  fdiv num0 (inject_Z N) = Ok c0 → fdiv num1 (inject_Z N) = Ok c1 →
  let nx' := set_gcsCoords (c0, c1)
               ((if 1 <? N then set_MarkerId (-1) else id)
                  (set_NumberOfMarkers N nx)) in
  let s' := set_Memory (<[x := nx']> (Memory s)) s in
  merging_inv x level P Qs pq s' ∧ node_ok (Memory s') nx' ∧ kept s s' ∧
  (∀ k, k ≠ x → Memory s' !! k = Memory s !! k).
Proof.
  intros Hinv Hle Hx Hloop Hc0 Hc1 nx' s'.
  pose proof Hinv as [Hst Hnode HJ Hqueue Hpar HPl].
  destruct (Hnode nx Hx) as [Hlx HPx].
  assert (Hlv : Level nx' = Level nx)
    by (unfold nx'; destruct (1 <? N); reflexivity).
  assert (Hpa : Parent nx' = Parent nx)
    by (unfold nx'; destruct (1 <? N); reflexivity).
  assert (Hch : Children nx' = Children nx)
    by (unfold nx'; destruct (1 <? N); reflexivity).
  assert (Hcn : NumberOfMarkers nx' = N)
    by (unfold nx'; destruct (1 <? N); reflexivity).
  assert (Hco : gcsCoords nx' = (c0, c1))
    by (unfold nx'; destruct (1 <? N); reflexivity).
  assert (Hst' : structure s')
    by (apply (structure_update s x nx nx' Hst Hx Hlv Hpa Hch)).
  assert (Hother : ∀ k, k ≠ x → Memory s' !! k = Memory s !! k).
  { intros k Hk. unfold s'. simpl. apply lookup_insert_ne. congruence. }
  assert (Hself : Memory s' !! x = Some nx').
  { unfold s'. simpl. apply lookup_insert_eq. }
  assert (Hlevels : ∀ k r', Memory s' !! k = Some r' →
            ∃ r, Memory s !! k = Some r ∧ Level r' = Level r).
  { intros k r' Hr'. destruct (decide (k = x)) as [->|Hk].
    - rewrite Hself in Hr'. injection Hr' as <-. eauto.
    - rewrite (Hother k Hk) in Hr'. eauto. }
  assert (Hkids : ∀ c, c ∈ Children nx →
            ∃ rc, Memory s !! c = Some rc ∧ Level rc = Level nx + 1).
  { intros c Hc.
    destruct (st_children s Hst _ _ _ Hx Hc) as (rc & Hrc & Hpc).
    destruct (st_parent s Hst _ _ _ Hrc Hpc) as (r0 & Hr0 & Hl0 & _).
    rewrite Hx in Hr0. injection Hr0 as <-. exists rc. split; [auto|lia]. }
  assert (Hkidsame : ∀ c, c ∈ Children nx →
            shape <$> Memory s' !! c = shape <$> Memory s !! c).
  { intros c Hc. destruct (Hkids c Hc) as (rc & Hrc & Hlc).
    rewrite Hother; [reflexivity|].
    intros ->. rewrite Hx in Hrc. injection Hrc as <-. lia. }
  split; [|split; [|split; [|exact Hother]]].
  - constructor.
    + exact Hst'.
    + intros r Hr. rewrite Hself in Hr. injection Hr as <-.
      split; congruence.
    + apply (consistent_step _ _ (λ k, k = x) (Memory s) (Memory s') HJ).
      * intros k Hk. rewrite (Hother k Hk). reflexivity.
      * intros k -> _. auto.
      * auto.
      * intros z r c Hz Hc.
        destruct (st_children s' Hst' _ _ _ Hz Hc) as (cr & Hcr & _). eauto.
    + intros k r' Hk Hr'. destruct (Hlevels k r' Hr') as (r & Hr & ->).
      apply (Hqueue k r Hk Hr).
    + intros k Hk. destruct (Hpar k Hk) as [HP Hlk]. split; [exact HP|].
      intros r' Hr'. destruct (Hlevels k r' Hr') as (r & Hr & ->).
      apply (Hlk r Hr).
    + intros k r' Hk Hr'. destruct (Hlevels k r' Hr') as (r & Hr & ->).
      apply (HPl k r Hk Hr).
  - destruct (AddMarker_count_loop _ _ _ _ _ _ _ _ Hloop)
      as (HN & Hn0 & Hn1 & _).
    apply fdiv_Ok in Hc0 as [HNz ->]. apply fdiv_Ok in Hc1 as [_ ->].
    assert (Hpos : 1 ≤ N).
    { assert (0 ≤ sumZ (map (child_count (Memory s)) (elements (Children nx)))).
      { apply sumZ_nonneg. intros v Hv.
        apply list_elem_of_fmap in Hv as (c & -> & Hc).
        apply elem_of_elements in Hc.
        destruct (Hkids c Hc) as (rc & Hrc & Hlc).
        assert (Hok : node_ok (Memory s) rc).
        { apply (merging_finer_ok x level P Qs pq s c rc Hinv Hrc). lia. }
        unfold child_count. rewrite Hrc. destruct Hok. lia. }
      assert (N ≠ 0).
      { intros ->. apply HNz. reflexivity. }
      lia. }
    unfold node_ok. rewrite Hcn, Hco, Hch, Hlv. simpl.
    split; [exact Hpos|]. intros _.
    rewrite (children_count_ext _ (Memory s)),
      (children_moment_ext fst _ (Memory s)),
      (children_moment_ext snd _ (Memory s));
      auto using child_count_shape, child_moment_shape.
    split; [unfold children_count; lia|].
    unfold children_moment. rewrite Hn0, Hn1.
    split; field; exact HNz.
  - constructor.
    + reflexivity.
    + intros k r Hr Hl. exists r. rewrite Hother; [auto|].
      intros ->. rewrite Hx in Hr. injection Hr as <-. lia.
    + auto.
Qed.

(** A live node of the current level other than the current node and the
    queued ones agrees with its children. *)
Lemma merging_peer_ok (x : nat) (level : Z) (P : option nat)
    (Qs pq : gset nat) (s : vtkMapMarkerSet) (y : nat) (ny : ClusteringNode) :
  merging_inv x level P Qs pq s →
  Memory s !! y = Some ny → Level ny = level → y ≠ x → y ∉ Qs →
  node_ok (Memory s) ny.
Proof.
  intros Hinv Hy Hl Hyx HyQ.
  pose proof Hinv as [Hst Hnode HJ Hqueue Hpar HPl].
  apply (HJ y ny Hy).
  - intros [->|[HQ|[HP|HQ]]]; [done|done| |].
    + pose proof (HPl y ny HP Hy). lia.
    + destruct (Hpar y HQ) as [_ Hlq]. pose proof (Hlq ny Hy). lia.
  - intros c Hc. destruct (st_children s Hst _ _ _ Hy Hc) as (rc & Hrc & Hpc).
    destruct (st_parent s Hst _ _ _ Hrc Hpc) as (r0 & Hr0 & Hl0 & _).
    rewrite Hy in Hr0. injection Hr0 as <-.
    intros [->|[HQ|[HP|HQ]]].
    + destruct (Hnode rc Hrc). lia.
    + pose proof (Hqueue c rc HQ Hrc). lia.
    + pose proof (HPl c rc HP Hrc). lia.
    + destruct (Hpar c HQ) as [_ Hlq]. pose proof (Hlq rc Hrc). lia.
Qed.

(** The end of a round: the queued nodes are gone and the current node
    agrees with its children, so the marks move one level up. *)
Lemma round_end (x : nat) (level : Z) (P : option nat) (Qs pq : gset nat)
    (s : vtkMapMarkerSet) (nx : ClusteringNode) :
  merging_inv x level P Qs pq s →
  (∀ M, M ∈ Qs → Memory s !! M = None) →
  Memory s !! x = Some nx → node_ok (Memory s) nx →
  refine_inv (level - 1) P pq s.
Proof.
  intros [Hst Hnode HJ Hqueue Hpar HPl] Hdead Hx Hok.
  destruct (Hnode nx Hx) as [Hlx HPx].
  constructor.
  - exact Hst.
  - intros z r Hz HDz Hch.
    destruct (decide (z = x)) as [->|Hzx].
    { rewrite Hx in Hz. injection Hz as <-. exact Hok. }
    apply (HJ z r Hz).
    + intros [->|[HQ|[HP'|HQ]]]; [done| |tauto|tauto].
      rewrite (Hdead z HQ) in Hz. discriminate.
    + intros c Hc.
      destruct (st_children s Hst _ _ _ Hz Hc) as (rc & Hrc & Hpc).
      intros [->|[HQ|[HP'|HQ]]].
      * rewrite Hx in Hrc. injection Hrc as <-.
        apply HDz. left. congruence.
      * rewrite (Hdead c HQ) in Hrc. discriminate.
      * apply (Hch c Hc). auto.
      * apply (Hch c Hc). auto.
  - intros k r [HP'|HQ] Hr.
    + apply (HPl k r HP' Hr).
    + destruct (Hpar k HQ) as [_ Hlq]. apply (Hlq r Hr).
  - intros k HP' HQ. destruct (Hpar k HQ) as [HPne _]. done.
Qed.

Lemma refine_inv_done (node : option nat) (Qs : gset nat) (s : vtkMapMarkerSet) :
  refine_inv (-1) node Qs s → tree_ok s.
Proof.
  intros [Hst HJ Hl _]. split; [exact Hst|].
  assert (Hout : ∀ k r, Memory s !! k = Some r → ¬ (node = Some k ∨ k ∈ Qs)).
  { intros k r Hr HD. pose proof (Hl k r HD Hr).
    pose proof (st_level s Hst _ _ Hr). lia. }
  intros z n Hz _ _. apply (HJ z n Hz).
  - apply (Hout z n Hz).
  - intros c Hc. destruct (st_children s Hst _ _ _ Hz Hc) as (rc & Hrc & _).
    apply (Hout c rc Hrc).
Qed.

(** The refinement loop restores the agreement of every node with its
    children. *)
Lemma refinement_ok (n : nat) :
  ∀ (node : option nat) (Qs : gset nat) (threshold : Q)
    (s s' : vtkMapMarkerSet),
  (n ≤ 19)%nat →
  refine_inv (Z.of_nat n - 1) node Qs s →
  AddMarker_refinement n node Qs threshold s = Ok s' →
  tree_ok s' ∧ kept s s'.
Proof.
  induction n as [|l IH]; intros node Qs thr s s' Hn Hinv H.
  - simpl in H. injection H as <-. split; [|apply kept_refl].
    apply (refine_inv_done node Qs). exact Hinv.
  - simpl in H. destruct node as [x|]; [|discriminate].
    replace (Z.of_nat (S l) - 1) with (Z.of_nat l) in Hinv by lia.
    set (level := Z.of_nat l) in *.
    assert (Hle : level ≤ 18) by (unfold level; lia).
    destruct Hinv as [Hst HJ Hlev Hapart].
    set (P := match Memory s !! x with Some nx => Parent nx | None => None end).
    assert (Hinv0 : merging_inv x level P Qs ∅ s).
    { constructor.
      - exact Hst.
      - intros nx Hnx. split; [apply (Hlev x nx (or_introl eq_refl) Hnx)|].
        unfold P. rewrite Hnx. reflexivity.
      - revert HJ. apply consistent_weaken. intros k [[= ->]|Hk]; auto.
      - intros k r Hk Hr. apply (Hlev k r (or_intror Hk) Hr).
      - intros k Hk. set_solver.
      - intros k r HP Hr. unfold P in HP.
        destruct (Memory s !! x) as [nx|] eqn:Hnx; [|discriminate].
        destruct (st_parent s Hst _ _ _ Hnx HP) as (pr & Hpr & Hlp & _).
        rewrite Hr in Hpr. injection Hpr as <-.
        rewrite (Hlev x nx (or_introl eq_refl) Hnx) in Hlp. exact Hlp. }
    bind_inv H as [s1 pq1] Eloop.
    destruct (merging_loop x level P Qs (Hapart x eq_refl) Hle
                (elements Qs) s ∅ s1 pq1) as (Hinv1 & Hk1 & Hdead1 & HQ1).
    { intros M HM. apply elem_of_elements. exact HM. }
    { exact Hinv0. }
    { exact Eloop. }
    bind_inv H as nx1 Hx1. apply load_Ok in Hx1 as (? & [= <-] & Hx1).
    bind_inv H as [N [num0 num1]] Ecount.
    bind_inv H as c0 Ec0. bind_inv H as c1 Ec1. bind_inv H as h2 Emod.
    apply modify_Ok in Emod as (? & nx1' & [= <-] & Hx1' & ->).
    rewrite Hx1 in Hx1'. injection Hx1' as <-.
    destruct (recompute_ok x level P Qs pq1 s1 nx1 N num0 num1 c0 c1
                Hinv1 Hle Hx1 Ecount Ec0 Ec1) as (Hinv2 & Hok2 & Hk2 & Hoth2).
    cbv zeta in Hinv2, Hok2, Hk2, Hoth2.
    match type of Hinv2 with merging_inv _ _ _ _ _ ?t => set (s2 := t) in * end.
    match type of Hok2 with node_ok _ ?r => set (nx2 := r) in * end.
    assert (Hx2 : Memory s2 !! x = Some nx2) by apply lookup_insert_eq.
    assert (HQ2 : ∀ M, M ∈ Qs → Memory s2 !! M = None).
    { intros M HM. rewrite Hoth2.
      - apply HQ1, elem_of_elements, HM.
      - intros ->. apply (Hapart x eq_refl HM). }
    bind_inv H as closest Efind. bind_inv H as [s3 pq3] Emerge.
    bind_inv H as nd3 Hx3. apply load_Ok in Hx3 as (? & [= <-] & Hx3).
    assert (Hend : refine_inv (level - 1) P pq3 s3 ∧ kept s2 s3 ∧
                   Parent nd3 = P).
    { destruct closest as [y|].
      - apply FindClosestNode_elem in Efind as (ns & _ & Hns & Hy & Hyx).
        pose proof (mi_structure _ _ _ _ _ _ Hinv2) as Hst2.
        destruct (st_table s2 Hst2 _ _ _ Hns Hy) as (ny & Hny & Hly).
        assert (Hly' : Level ny = level) by (unfold level; lia).
        assert (HyQ : y ∉ Qs).
        { intros HyQ. rewrite (HQ2 y HyQ) in Hny. discriminate. }
        assert (Hoky : node_ok (Memory s2) ny).
        { apply (merging_peer_ok x level P Qs pq1 s2 y ny); auto. }
        assert (Hinv2' : merging_inv x level P (Qs ∪ {[y]}) pq1 s2).
        { destruct Hinv2 as [? Hnode2 HJ2 Hqueue2 Hpar2 HPl2].
          constructor; try assumption.
          - revert HJ2. apply consistent_weaken.
            intros k [->|[Hk|[Hk|Hk]]]; auto. right. left. set_solver.
          - intros k r Hk Hr. apply elem_of_union in Hk as [Hk|Hk].
            + apply (Hqueue2 k r Hk Hr).
            + apply elem_of_singleton in Hk as ->. congruence. }
        destruct (merging_step x level P (Qs ∪ {[y]}) y s2 pq1 s3 pq3)
          as (Hinv3 & Hk3 & Hdead3 & Hy3 & nx' & ny' & nx3 & Hx' & Hy' & Hx3'
              & Hok3); auto; [set_solver|].
        rewrite Hx2 in Hx'. injection Hx' as <-.
        rewrite Hny in Hy'. injection Hy' as <-.
        rewrite Hx3 in Hx3'. injection Hx3' as <-.
        split; [|split; [exact Hk3|]].
        + apply (round_end x level P (Qs ∪ {[y]}) pq3 s3 nd3); auto.
          intros M HM. apply elem_of_union in HM as [HM|HM].
          * apply Hdead3, HQ2, HM.
          * apply elem_of_singleton in HM as ->. exact Hy3.
        + apply (mi_node _ _ _ _ _ _ Hinv3 nd3 Hx3).
      - injection Emerge as <- <-.
        rewrite Hx2 in Hx3. injection Hx3 as <-.
        split; [|split; [apply kept_refl|]].
        + apply (round_end x level P Qs pq1 s2 nx2); auto.
        + apply (mi_node _ _ _ _ _ _ Hinv2 nx2 Hx2). }
    destruct Hend as (Hinv3 & Hk3 & HP3). rewrite HP3 in H.
    destruct (IH P pq3 thr s3 s') as [Htree Hk4]; [lia| |exact H|].
    { replace (Z.of_nat l - 1) with (level - 1) by reflexivity. exact Hinv3. }
    split; [exact Htree|].
    apply (kept_trans _ _ _ Hk1), (kept_trans _ _ _ Hk2),
      (kept_trans _ _ _ Hk3), Hk4.
Qed.

(** ** The insertion loop *)

(** A marked node that agrees with its children, and whose parents are
    marked, needs no mark. *)
Lemma consistent_fix (D : nat → Prop) (h : gmap nat ClusteringNode)
    (a : nat) (r : ClusteringNode) :
  consistent_outside (λ k, D k ∨ k = a) h →
  h !! a = Some r → node_ok h r →
  (∀ z rz, h !! z = Some rz → a ∈ Children rz → D z) →
  consistent_outside D h.
Proof.
  intros HJ Ha Hok Hpar z rz Hz HDz Hch.
  destruct (decide (z = a)) as [->|Hza].
  - rewrite Ha in Hz. injection Hz as <-. exact Hok.
  - apply (HJ z rz Hz); [tauto|].
    intros c Hc [HD| ->]; [apply (Hch c Hc HD)|].
    apply HDz, (Hpar z rz Hz Hc).
Qed.

(** No partner: the climbing node is copied one level up. *)
Lemma climb_copy (l : nat) (node : nat) (s : vtkMapMarkerSet)
    (nd : ClusteringNode) (s2 : vtkMapMarkerSet) (h3 : gmap nat ClusteringNode) :
  (l < 19)%nat → climb_inv (S l) node s →
  Memory s !! node = Some nd →
  let '(newNode, s1) :=
    new_node (Z.of_nat l) (gcsCoords nd) None {[node]}
             (NumberOfMarkers nd) (MarkerId nd) s in
  table_insert (Z.of_nat l) newNode s1 = Ok s2 →
  modify (Memory s2) (Some node) (set_Parent (Some newNode)) = Ok h3 →
  climb_inv l newNode (set_Memory h3 s2) ∧ kept s (set_Memory h3 s2).
Proof.
  intros Hl [[Hst HJ] (nd0 & Hnd0 & Hlv & Hpar & Hcnt)] Hnd.
  rewrite Hnd in Hnd0. injection Hnd0 as <-.
  unfold new_node. cbv zeta.
  set (a := length (AllNodes (Internals s))).
  set (ra := mkNode (NumberOfNodes (Internals s)) (Z.of_nat l) (gcsCoords nd)
               None {[node]} (NumberOfMarkers nd) (MarkerId nd)).
  intros Htab Hmod.
  unfold table_insert in Htab. simpl in Htab.
  bind_inv Htab as ns Hns. bind_inv Htab as table Htable.
  assert (Hs2 : ∀ (a b : vtkMapMarkerSet), Ok a = Ok b → b = a)
    by (intros ? ? [= ->]; reflexivity).
  apply Hs2 in Htab. subst s2. clear Hs2.
  apply at_index_Ok in Hns as [_ Hns].
  apply assign_index_Ok in Htable as (_ & _ & ->).
  apply modify_Ok in Hmod as (? & nd' & [= <-] & Hnd' & ->).
  simpl in Hnd'.
  assert (Hfresh : Memory s !! a = None).
  { destruct (Memory s !! a) eqn:E; [|reflexivity].
    assert (a < a)%nat by (apply (st_fresh s Hst); eauto). lia. }
  assert (Hna : node ≠ a) by (intros ->; congruence).
  rewrite lookup_insert_ne in Hnd' by done.
  rewrite Hnd in Hnd'. injection Hnd' as <-.
  rewrite Nat2Z.id in *.
  set (h3 := <[node := set_Parent (Some a) nd]> (<[a := ra]> (Memory s))).
  assert (Hlook : ∀ k r, Memory s !! k = Some r →
            ∃ r', h3 !! k = Some r' ∧ shape r' = shape r ∧
              NumberOfMarkers r' = NumberOfMarkers r ∧
              MarkerId r' = MarkerId r ∧
              Parent r' = (if decide (k = node) then Some a else Parent r)).
  { intros k r Hr. unfold h3. destruct (decide (k = node)) as [->|Hk].
    - rewrite lookup_insert_eq. rewrite Hnd in Hr. injection Hr as <-.
      eexists. split; [reflexivity|]. auto.
    - rewrite lookup_insert_ne by done.
      rewrite lookup_insert_ne by (intros <-; congruence).
      exists r. auto. }
  assert (Hback : ∀ k r', h3 !! k = Some r' →
            (k = a ∧ r' = ra) ∨
            (k ≠ a ∧ ∃ r, Memory s !! k = Some r ∧ shape r' = shape r ∧
               Parent r' = (if decide (k = node) then Some a else Parent r))).
  { intros k r' Hr'. unfold h3 in Hr'.
    destruct (decide (k = node)) as [->|Hk].
    - rewrite lookup_insert_eq in Hr'. injection Hr' as <-.
      right. split; [exact Hna|]. exists nd. auto.
    - rewrite lookup_insert_ne in Hr' by done.
      destruct (decide (k = a)) as [->|Hka].
      + rewrite lookup_insert_eq in Hr'. injection Hr' as <-. auto.
      + rewrite lookup_insert_ne in Hr' by done. right.
        split; [exact Hka|]. exists r'. auto. }
  assert (Ha3 : h3 !! a = Some ra).
  { unfold h3. rewrite lookup_insert_ne by done. apply lookup_insert_eq. }
  assert (Hst3 : structure
            (set_Memory h3
               (set_Internals
                  (set_NodeTable
                     (<[l := {[a]} ∪ ns]> (NodeTable (Internals s)))
                     (set_NumberOfNodes (NumberOfNodes (Internals s) + 1)
                        (set_AllNodes (AllNodes (Internals s) ++ [Some a])
                           (Internals s))))
                  (set_Memory (<[a := ra]> (Memory s))
                     (set_Internals
                        (set_NumberOfNodes (NumberOfNodes (Internals s) + 1)
                           (set_AllNodes (AllNodes (Internals s) ++ [Some a])
                              (Internals s))) s))))).
  { constructor; simpl.
    - rewrite length_insert. apply (st_size s Hst).
    - intros i ns' k Hi Hk.
      rewrite list_lookup_insert in Hi.
      destruct (decide (l = i ∧ (l < length (NodeTable (Internals s)))%nat))
        as [[<- _]|Hne].
      + injection Hi as <-. apply elem_of_union in Hk as [Hk|Hk].
        * apply elem_of_singleton in Hk as ->. exists ra. auto.
        * destruct (st_table s Hst _ _ _ Hns Hk) as (r & Hr & Hlr).
          destruct (Hlook k r Hr) as (r' & Hr' & Hs' & _).
          exists r'. split; [exact Hr'|].
          unfold shape in Hs'. injection Hs' as -> _ _ _. exact Hlr.
      + destruct (st_table s Hst _ _ _ Hi Hk) as (r & Hr & Hlr).
        destruct (Hlook k r Hr) as (r' & Hr' & Hs' & _).
        exists r'. split; [exact Hr'|].
        unfold shape in Hs'. injection Hs' as -> _ _ _. exact Hlr.
    - intros k r' Hr'.
      destruct (Hback k r' Hr') as [[-> ->]|(_ & r & Hr & Hs' & _)].
      + simpl. lia.
      + unfold shape in Hs'. injection Hs' as -> _ _ _.
        apply (st_level s Hst _ _ Hr).
    - intros k r' q Hr' Hq.
      destruct (Hback k r' Hr') as [[-> ->]|(Hka & r & Hr & Hs' & Hp')].
      + discriminate.
      + unfold shape in Hs'. injection Hs' as Hl' _ _ _.
        rewrite Hp' in Hq. destruct (decide (k = node)) as [->|Hk].
        * injection Hq as <-. rewrite Hnd in Hr. injection Hr as <-.
          exists ra. split; [exact Ha3|]. simpl. split; [lia|set_solver].
        * destruct (st_parent s Hst _ _ _ Hr Hq) as (qr & Hqr & Hlq & Hin).
          destruct (Hlook q qr Hqr) as (qr' & Hqr' & Hs'' & _).
          unfold shape in Hs''. injection Hs'' as Hl'' _ _ Hc''.
          exists qr'. split; [exact Hqr'|]. split; [lia|]. congruence.
    - intros k r' c Hr' Hc.
      destruct (Hback k r' Hr') as [[-> ->]|(Hka & r & Hr & Hs' & _)].
      + simpl in Hc. apply elem_of_singleton in Hc as ->.
        destruct (Hlook node nd Hnd) as (r'' & Hr'' & _ & _ & _ & Hp'').
        rewrite decide_True in Hp'' by done. eauto.
      + unfold shape in Hs'. injection Hs' as _ _ _ Hc'.
        rewrite Hc' in Hc.
        destruct (st_children s Hst _ _ _ Hr Hc) as (cr & Hcr & Hpc).
        destruct (Hlook c cr Hcr) as (cr' & Hcr' & _ & _ & _ & Hp').
        rewrite decide_False in Hp' by (intros ->; congruence).
        exists cr'. split; [exact Hcr'|]. congruence.
    - intros k [r' Hr']. rewrite length_app. simpl.
      destruct (Hback k r' Hr') as [[-> ->]|(_ & r & Hr & _)]; [lia|].
      assert (k < length (AllNodes (Internals s)))%nat
        by (apply (st_fresh s Hst); eauto). lia. }
  assert (Hsame : ∀ k, k ≠ a → shape <$> h3 !! k = shape <$> Memory s !! k).
  { intros k Hk. destruct (Memory s !! k) as [r|] eqn:Hr.
    - destruct (Hlook k r Hr) as (r' & Hr' & Hs' & _).
      rewrite Hr'. simpl. rewrite Hs'. reflexivity.
    - destruct (h3 !! k) as [r'|] eqn:Hr'; [|reflexivity].
      destruct (Hback k r' Hr') as [[-> _]|(_ & r & Hr0 & _)]; congruence. }
  split; [constructor|].
  - split; [exact Hst3|]. simpl.
    apply (consistent_fix (λ _, False) h3 a ra); [| exact Ha3 | |].
    + apply (consistent_step (λ _, False) _ (λ k, k = a) (Memory s) h3 HJ).
      * exact Hsame.
      * auto.
      * tauto.
      * intros z r c Hz Hc.
        destruct (st_children _ Hst3 _ _ _ Hz Hc) as (cr & Hcr & _). eauto.
    + unfold node_ok, ra. simpl. split; [lia|]. intros _.
      rewrite children_count_singleton, !children_moment_singleton.
      unfold child_count, child_moment.
      destruct (Hlook node nd Hnd) as (r' & -> & Hs' & _).
      unfold shape in Hs'. injection Hs' as _ -> -> _.
      split; [reflexivity|]. split; reflexivity.
    + intros z rz Hz Hin.
      destruct (st_children _ Hst3 _ _ _ Hz Hin) as (ar & Har & Hpa).
      simpl in Har. rewrite Ha3 in Har. injection Har as <-. discriminate.
  - exists ra. simpl. split; [exact Ha3|]. simpl. auto.
  - constructor; simpl.
    + apply list_lookup_insert_ne. lia.
    + intros k r Hr Hl19.
      destruct (Hlook k r Hr) as (r' & Hr' & Hs' & Hn' & Hm' & _).
      unfold shape in Hs'. injection Hs' as Hl' _ _ _.
      exists r'. split; [exact Hr'|]. split; [congruence|]. auto.
    + auto.
Qed.

(** A partner is found: the climbing node becomes its child. *)
Lemma climb_join (l : nat) (node c : nat) (s : vtkMapMarkerSet)
    (nd cr : ClusteringNode) (c0 c1 : Q) (h1 h2 : gmap nat ClusteringNode) :
  (l < 19)%nat → climb_inv (S l) node s →
  Memory s !! node = Some nd → Memory s !! c = Some cr →
  Level cr = Z.of_nat l →
  fdiv (fst (gcsCoords cr) * inject_Z (NumberOfMarkers cr) + fst (gcsCoords nd))
       (1 + inject_Z (NumberOfMarkers cr)) = Ok c0 →
  fdiv (snd (gcsCoords cr) * inject_Z (NumberOfMarkers cr) + snd (gcsCoords nd))
       (1 + inject_Z (NumberOfMarkers cr)) = Ok c1 →
  modify (Memory s) (Some c)
    (λ c, set_Children ({[node]} ∪ Children c)
            (set_MarkerId (-1)
               (set_NumberOfMarkers (NumberOfMarkers c + 1)
                  (set_gcsCoords (c0, c1) c)))) = Ok h1 →
  modify h1 (Some node) (set_Parent (Some c)) = Ok h2 →
  climb_post c (Z.of_nat l) (set_Memory h2 s) ∧ kept s (set_Memory h2 s).
Proof.
  intros Hl [[Hst HJ] (nd0 & Hnd0 & Hlv & Hpar & Hcnt)] Hnd Hcr Hlc
         Hc0 Hc1 Hm1 Hm2.
  rewrite Hnd in Hnd0. injection Hnd0 as <-.
  assert (Hcn : c ≠ node).
  { intros ->. rewrite Hnd in Hcr. injection Hcr as <-. lia. }
  apply modify_Ok in Hm1 as (? & cr0 & [= <-] & Hcr0 & ->).
  rewrite Hcr in Hcr0. injection Hcr0 as <-.
  apply modify_Ok in Hm2 as (? & nd0 & [= <-] & Hnd0 & ->).
  rewrite lookup_insert_ne in Hnd0 by done.
  rewrite Hnd in Hnd0. injection Hnd0 as <-.
  set (cr' := set_Children ({[node]} ∪ Children cr)
                (set_MarkerId (-1)
                   (set_NumberOfMarkers (NumberOfMarkers cr + 1)
                      (set_gcsCoords (c0, c1) cr)))).
  set (h2 := <[node := set_Parent (Some c) nd]> (<[c := cr']> (Memory s))).
  assert (Hc2 : h2 !! c = Some cr').
  { unfold h2. rewrite lookup_insert_ne by done. apply lookup_insert_eq. }
  assert (Hlook : ∀ k r, Memory s !! k = Some r →
            ∃ r', h2 !! k = Some r' ∧ Level r' = Level r ∧
              Parent r' = (if decide (k = node) then Some c else Parent r) ∧
              Children r' = (if decide (k = c) then {[node]} ∪ Children r
                             else Children r) ∧
              (k ≠ c → shape r' = shape r ∧ MarkerId r' = MarkerId r)).
  { intros k r Hr. unfold h2. destruct (decide (k = node)) as [->|Hk].
    - rewrite lookup_insert_eq. rewrite Hnd in Hr. injection Hr as <-.
      rewrite decide_False by done.
      eexists. split; [reflexivity|]. simpl. auto 10.
    - rewrite lookup_insert_ne by done.
      destruct (decide (k = c)) as [->|Hkc].
      + rewrite lookup_insert_eq. rewrite Hcr in Hr. injection Hr as <-.
        exists cr'. split; [reflexivity|]. simpl. tauto.
      + rewrite lookup_insert_ne by done. exists r. auto 10. }
  assert (Hback : ∀ k r', h2 !! k = Some r' → is_Some (Memory s !! k)).
  { intros k r' Hr'.
    assert (Hlive : is_Some (h2 !! k)) by eauto.
    unfold h2 in Hlive. rewrite !lookup_insert_is_Some' in Hlive.
    destruct Hlive as [<-|[<-|Hlive]]; eauto. }
  assert (Hinv : ∀ k r', h2 !! k = Some r' →
            ∃ r, Memory s !! k = Some r ∧ Level r' = Level r ∧
              Parent r' = (if decide (k = node) then Some c else Parent r) ∧
              Children r' = (if decide (k = c) then {[node]} ∪ Children r
                             else Children r) ∧
              (k ≠ c → shape r' = shape r ∧ MarkerId r' = MarkerId r)).
  { intros k r' Hr'. destruct (Hback k r' Hr') as [r Hr].
    destruct (Hlook k r Hr) as (r'' & Hr'' & Hrest).
    rewrite Hr' in Hr''. injection Hr'' as <-. eauto. }
  assert (Hst2 : structure (set_Memory h2 s)).
  { constructor; simpl.
    - apply (st_size s Hst).
    - intros i ns k Hi Hk.
      destruct (st_table s Hst _ _ _ Hi Hk) as (r & Hr & Hlr).
      destruct (Hlook k r Hr) as (r' & Hr' & Hl' & _).
      exists r'. split; [exact Hr'|]. congruence.
    - intros k r' Hr'. destruct (Hinv k r' Hr') as (r & Hr & -> & _).
      apply (st_level s Hst _ _ Hr).
    - intros k r' q Hr' Hq.
      destruct (Hinv k r' Hr') as (r & Hr & Hl' & Hp' & _).
      rewrite Hp' in Hq. destruct (decide (k = node)) as [->|Hk].
      + injection Hq as <-. rewrite Hnd in Hr. injection Hr as <-.
        exists cr'. split; [exact Hc2|]. simpl. split; [lia|set_solver].
      + destruct (st_parent s Hst _ _ _ Hr Hq) as (qr & Hqr & Hlq & Hin).
        destruct (Hlook q qr Hqr) as (qr' & Hqr' & Hl'' & _ & Hc'' & _).
        exists qr'. split; [exact Hqr'|]. split; [lia|].
        rewrite Hc''. destruct (decide (q = c)); set_solver.
    - intros k r' x Hr' Hx.
      destruct (Hinv k r' Hr') as (r & Hr & _ & _ & Hc' & _).
      rewrite Hc' in Hx.
      assert (Hcases : (k = c ∧ x = node) ∨ x ∈ Children r).
      { destruct (decide (k = c)); set_solver. }
      destruct Hcases as [[-> ->]|Hx'].
      + destruct (Hlook node nd Hnd) as (r'' & Hr'' & _ & Hp'' & _).
        rewrite decide_True in Hp'' by done. eauto.
      + destruct (st_children s Hst _ _ _ Hr Hx') as (xr & Hxr & Hpx).
        destruct (Hlook x xr Hxr) as (xr' & Hxr' & _ & Hp' & _).
        rewrite decide_False in Hp' by (intros ->; congruence).
        exists xr'. split; [exact Hxr'|]. congruence.
    - intros k [r' Hr']. apply (st_fresh s Hst), (Hback k r' Hr'). }
  assert (Hsame : ∀ k, k ≠ c → shape <$> h2 !! k = shape <$> Memory s !! k).
  { intros k Hk. destruct (Memory s !! k) as [r|] eqn:Hr.
    - destruct (Hlook k r Hr) as (r' & Hr' & _ & _ & _ & Hs').
      destruct (Hs' Hk) as [Hs'' _]. rewrite Hr'. simpl. rewrite Hs''.
      reflexivity.
    - destruct (h2 !! k) as [r'|] eqn:Hr'; [|reflexivity].
      destruct (Hback k r' Hr'). congruence. }
  assert (Hokc : node_ok (Memory s) cr) by (apply (HJ c cr Hcr); tauto).
  split; [constructor|].
  - exact Hst2.
  - exists cr'. simpl. split; [exact Hc2|].
    split; [|split; [left; symmetry; exact Hlc|lia]].
    apply (consistent_fix _ h2 c cr'); [| exact Hc2 | |].
    + apply (consistent_step (λ _, False) _ (λ k, k = c) (Memory s) h2 HJ).
      * exact Hsame.
      * auto.
      * tauto.
      * intros z r x Hz Hx.
        destruct (st_children _ Hst2 _ _ _ Hz Hx) as (xr & Hxr & _). eauto.
    + destruct Hokc as [Hc1' Hc2'].
      destruct (Hc2' ltac:(lia)) as (Hcc & Hcx & Hcy).
      apply fdiv_Ok in Hc0 as [Hnz ->]. apply fdiv_Ok in Hc1 as [_ ->].
      assert (Hdisj : {[node]} ## Children cr).
      { intros x Hx Hin. apply elem_of_singleton in Hx as ->.
        destruct (st_children s Hst _ _ _ Hcr Hin) as (r0 & Hr0 & Hp0).
        congruence. }
      assert (Hkids : ∀ x, x ∈ Children cr →
                shape <$> h2 !! x = shape <$> Memory s !! x).
      { intros x Hx. apply Hsame. intros ->.
        destruct (st_children s Hst _ _ _ Hcr Hx) as (r0 & Hr0 & Hp0).
        destruct (st_parent s Hst _ _ _ Hr0 Hp0) as (r1 & Hr1 & Hl1 & _).
        rewrite Hcr in Hr0, Hr1. injection Hr0 as <-. injection Hr1 as <-.
        lia. }
      assert (Hnode2 : child_count h2 node = 1 ∧
                ∀ proj, child_moment proj h2 node
                        = (inject_Z 1 * proj (gcsCoords nd))%Q).
      { unfold child_count, child_moment, h2. rewrite lookup_insert_eq.
        simpl. rewrite Hcnt. auto. }
      destruct Hnode2 as [Hn2 Hm2].
      unfold node_ok, cr'. simpl. split; [lia|]. intros _.
      rewrite children_count_union, !children_moment_union by exact Hdisj.
      rewrite children_count_singleton, !children_moment_singleton.
      rewrite Hn2, !Hm2.
      rewrite (children_count_ext h2 (Memory s)),
        (children_moment_ext fst h2 (Memory s)),
        (children_moment_ext snd h2 (Memory s));
        auto using child_count_shape, child_moment_shape.
      split; [lia|].
      rewrite <- Hcx, <- Hcy. rewrite inject_Z_plus.
      split; field; exact Hnz.
    + intros z rz Hz Hin. simpl.
      destruct (st_children _ Hst2 _ _ _ Hz Hin) as (r0 & Hr0 & Hp0).
      simpl in Hr0. rewrite Hc2 in Hr0. injection Hr0 as <-. exact Hp0.
  - constructor; simpl.
    + reflexivity.
    + intros k r Hr Hl19.
      destruct (Hlook k r Hr) as (r' & Hr' & Hl' & _ & _ & Hs').
      destruct Hs' as [Hs' Hm'].
      { intros ->. rewrite Hcr in Hr. injection Hr as <-. lia. }
      unfold shape in Hs'. injection Hs' as _ Hn' _ _.
      exists r'. split; [exact Hr'|]. split; [congruence|]. auto.
    + auto.
Qed.

Lemma insertion_ok (n : nat) :
  ∀ (node : nat) (threshold : Q) (s s' : vtkMapMarkerSet)
    (node' : nat) (level' : Z),
  (n ≤ 19)%nat → climb_inv n node s →
  AddMarker_insertion n node threshold s = Ok (s', node', level') →
  climb_post node' level' s' ∧ kept s s'.
Proof.
  induction n as [|l IH]; intros node thr s s' node' level' Hn Hinv H.
  - simpl in H. injection H as <- <- <-. split; [|apply kept_refl].
    destruct Hinv as [[Hst HJ] (nd & Hnd & Hlv & Hpar & Hcnt)].
    constructor; [exact Hst|]. exists nd. split; [exact Hnd|].
    split; [|split; [right; auto|lia]].
    revert HJ. apply consistent_weaken. tauto.
  - simpl in H. bind_inv H as closest Efind.
    pose proof Hinv as [[Hst HJ] (nd & Hnd & Hlv & Hpar & Hcnt)].
    destruct closest as [c|].
    + bind_inv H as cr Hcr. apply load_Ok in Hcr as (? & [= <-] & Hcr).
      bind_inv H as nd0 Hnd0. apply load_Ok in Hnd0 as (? & [= <-] & Hnd0).
      rewrite Hnd in Hnd0. injection Hnd0 as <-.
      bind_inv H as c0 Hc0. bind_inv H as c1 Hc1.
      bind_inv H as h1 Hm1. bind_inv H as h2 Hm2.
      injection H as <- <- <-.
      apply FindClosestNode_elem in Efind as (ns & _ & Hns & Hc & _).
      rewrite Nat2Z.id in Hns.
      destruct (st_table s Hst _ _ _ Hns Hc) as (cr' & Hcr' & Hlc).
      rewrite Hcr in Hcr'. injection Hcr' as <-.
      apply (climb_join l node c s nd cr c0 c1 h1 h2); auto.
    + bind_inv H as nd0 Hnd0. apply load_Ok in Hnd0 as (? & [= <-] & Hnd0).
      rewrite Hnd in Hnd0. injection Hnd0 as <-.
      bind_inv H as s2 Htab. bind_inv H as h3 Hmod.
      pose proof (climb_copy l node s nd s2 h3 ltac:(lia) Hinv Hnd) as Hcopy.
      unfold new_node in Hcopy. cbv beta iota zeta in Hcopy.
      destruct (Hcopy Htab Hmod) as [Hinv3 Hk3].
      destruct (IH _ thr (set_Memory h3 s2) s' node' level'
                  ltac:(lia) Hinv3 H) as [Hpost Hk].
      split; [exact Hpost|]. apply (kept_trans _ _ _ Hk3 Hk).
Qed.

(** ** AddMarker keeps the invariants *)

(** The new leaf at the finest level. *)
Lemma leaf_inserted (s : vtkMapMarkerSet) (coords : Q * Q) (markerId : Z)
    (nodeSet : gset nat) :
  tree_ok s →
  NodeTable (Internals s) !! 19%nat = Some nodeSet →
  let a := length (AllNodes (Internals s)) in
  let ra := mkNode (NumberOfNodes (Internals s)) 19 coords None ∅ 1 markerId in
  let s' :=
    set_Internals
      (set_NodeTable (<[19%nat := {[a]} ∪ nodeSet]> (NodeTable (Internals s)))
         (set_NumberOfNodes (NumberOfNodes (Internals s) + 1)
            (set_AllNodes (AllNodes (Internals s) ++ [Some a])
               (set_Internals_NumberOfMarkers (markerId + 1) (Internals s)))))
      (set_Memory (<[a := ra]> (Memory s)) s) in
  climb_inv 19 a s' ∧ Memory s !! a = None.
Proof.
  intros [Hst HJ] Hns a ra s'.
  assert (Hfresh : Memory s !! a = None).
  { destruct (Memory s !! a) eqn:E; [|reflexivity].
    assert (a < a)%nat by (apply (st_fresh s Hst); eauto). lia. }
  split; [|exact Hfresh].
  assert (Hold : ∀ k r, Memory s !! k = Some r →
            <[a := ra]> (Memory s) !! k = Some r).
  { intros k r Hr. rewrite lookup_insert_ne; [exact Hr|]. congruence. }
  assert (Hback : ∀ k r, <[a := ra]> (Memory s) !! k = Some r →
            (k = a ∧ r = ra) ∨ (k ≠ a ∧ Memory s !! k = Some r)).
  { intros k r Hr. destruct (decide (k = a)) as [->|Hk].
    - rewrite lookup_insert_eq in Hr. injection Hr as <-. auto.
    - rewrite lookup_insert_ne in Hr by done. auto. }
  assert (Hst' : structure s').
  { constructor; simpl.
    - rewrite length_insert. apply (st_size s Hst).
    - intros i ns k Hi Hk. rewrite list_lookup_insert in Hi.
      destruct (decide (19%nat = i ∧
                        (19 < length (NodeTable (Internals s)))%nat))
        as [[<- _]|Hne].
      + injection Hi as <-. apply elem_of_union in Hk as [Hk|Hk].
        * apply elem_of_singleton in Hk as ->. exists ra.
          rewrite lookup_insert_eq. auto.
        * destruct (st_table s Hst _ _ _ Hns Hk) as (r & Hr & Hlr). eauto.
      + destruct (st_table s Hst _ _ _ Hi Hk) as (r & Hr & Hlr). eauto.
    - intros k r Hr. destruct (Hback k r Hr) as [[-> ->]|[_ Hr']].
      + simpl. lia.
      + apply (st_level s Hst _ _ Hr').
    - intros k r q Hr Hq. destruct (Hback k r Hr) as [[-> ->]|[_ Hr']].
      + discriminate.
      + destruct (st_parent s Hst _ _ _ Hr' Hq) as (qr & Hqr & Hrest). eauto.
    - intros k r c Hr Hc. destruct (Hback k r Hr) as [[-> ->]|[_ Hr']].
      + simpl in Hc. set_solver.
      + destruct (st_children s Hst _ _ _ Hr' Hc) as (cr & Hcr & Hrest). eauto.
    - intros k [r Hr]. rewrite length_app. simpl.
      destruct (Hback k r Hr) as [[-> ->]|[_ Hr']]; [lia|].
      assert (k < length (AllNodes (Internals s)))%nat
        by (apply (st_fresh s Hst); eauto). lia. }
  constructor.
  - split; [exact Hst'|]. simpl.
    apply (consistent_fix (λ _, False) _ a ra); [|apply lookup_insert_eq| |].
    + apply (consistent_step (λ _, False) _ (λ k, k = a) (Memory s) _ HJ).
      * intros k Hk. rewrite lookup_insert_ne by done. reflexivity.
      * auto.
      * tauto.
      * intros z r c Hz Hc.
        destruct (st_children _ Hst' _ _ _ Hz Hc) as (cr & Hcr & _). eauto.
    + unfold node_ok, ra. simpl. split; lia.
    + intros z rz Hz Hin.
      destruct (st_children _ Hst' _ _ _ Hz Hin) as (r0 & Hr0 & Hp0).
      simpl in Hr0. rewrite lookup_insert_eq in Hr0. injection Hr0 as <-.
      discriminate.
  - exists ra. simpl. rewrite lookup_insert_eq. auto.
Qed.

Lemma modify_insert_eq (h : gmap nat ClusteringNode) (a : nat)
    (r : ClusteringNode) (f : ClusteringNode → ClusteringNode) :
  modify (<[a := r]> h) (Some a) f = Ok (<[a := f r]> h).
Proof.
  rewrite (modify_Some _ _ _ r) by apply lookup_insert_eq.
  rewrite insert_insert_eq. reflexivity.
Qed.

Lemma at_index_Some {A : Type} (v : list A) (i : nat) (x : A) :
  v !! i = Some x → at_index v (Z.of_nat i) = Ok x.
Proof. intros H. apply at_index_Ok. rewrite Nat2Z.id. split; [lia|exact H]. Qed.

Lemma assign_index_Some {A : Type} (v : list A) (i : nat) (x y : A) :
  v !! i = Some x → assign_index v (Z.of_nat i) y = Ok (<[i := y]> v).
Proof.
  intros H. unfold assign_index. rewrite (at_index_Some _ _ _ H). simpl.
  rewrite Nat2Z.id. reflexivity.
Qed.

Local Opaque AddMarker_insertion AddMarker_refinement.

(** [AddMarker] with clustering on: the new leaf enters the finest level,
    then the two loops run. *)
Lemma AddMarker_clustering (lat2y : Q → Q) (latitude longitude : Q)
    (s : vtkMapMarkerSet) (nodeSet : gset nat) :
  Clustering s = true →
  length (NodeTable (Internals s)) = 20%nat →
  NodeTable (Internals s) !! 19%nat = Some nodeSet →
  let markerId := Internals_NumberOfMarkers (Internals s) in
  let a := length (AllNodes (Internals s)) in
  let ra := mkNode (NumberOfNodes (Internals s)) 19
                   (longitude, lat2y latitude) None ∅ 1 markerId in
  let sd :=
    set_Internals
      (set_NodeTable (<[19%nat := {[a]} ∪ nodeSet]> (NodeTable (Internals s)))
         (set_NumberOfNodes (NumberOfNodes (Internals s) + 1)
            (set_AllNodes (AllNodes (Internals s) ++ [Some a])
               (set_Internals_NumberOfMarkers (markerId + 1) (Internals s)))))
      (set_Memory (<[a := ra]> (Memory s)) s) in
  AddMarker lat2y latitude longitude s
  = ('(s2, node, level) ←
       AddMarker_insertion 19 a (ClusterDistance (Internals s)) sd;
     nd ← load (Memory s2) (Some node);
     s3 ← AddMarker_refinement (Z.to_nat (level - 1 + 1)) (Parent nd) ∅
            (ClusterDistance (Internals s)) s2;
     Ok (markerId, set_Internals (set_MarkersChanged true (Internals s3)) s3)).
Proof.
  intros Hcl Hlen Hns. destruct s as [ini cl k [mc cn zl nt nm cd nn an] pts pd mem].
  simpl in *. subst cl. unfold AddMarker, new_node. simpl.
  rewrite Hlen. change (Z.of_nat 20 - 1) with (Z.of_nat 19).
  rewrite modify_insert_eq. simpl.
  unfold table_insert. simpl.
  rewrite (at_index_Some _ _ _ Hns). simpl.
  rewrite (assign_index_Some _ _ _ _ Hns). simpl.
  change (Z.to_nat (Z.of_nat 19 - 1 + 1)) with 19%nat.
  destruct (AddMarker_insertion 19 _ _ _) as [[[s2 node] level]| |];
    simpl; try reflexivity.
  destruct (load (Memory s2) (Some node)) as [nd| |]; reflexivity.
Qed.

Local Transparent AddMarker_insertion AddMarker_refinement.

Lemma list_to_set_snoc (a : nat) (l : list nat) :
  {[a]} ∪ list_to_set l = (list_to_set (l ++ [a]) : gset nat).
Proof. rewrite list_to_set_app_L. simpl. set_solver. Qed.

Lemma AddMarker_ok (lat2y : Q → Q) (latitude longitude : Q)
    (s s' : vtkMapMarkerSet) (id : Z) :
  Clustering s = true → tree_ok s → leaves_ok s →
  AddMarker lat2y latitude longitude s = Ok (id, s') →
  tree_ok s' ∧ leaves_ok s' ∧ Clustering s' = true ∧
  id = Internals_NumberOfMarkers (Internals s) ∧
  Internals_NumberOfMarkers (Internals s')
  = Internals_NumberOfMarkers (Internals s) + 1.
Proof.
  intros Hcl Htree (leaves & Hnodup & Htab & Hnum & Hleaves) H.
  pose proof Htree as [Hst HJ].
  rewrite (AddMarker_clustering lat2y latitude longitude s _ Hcl
             (st_size s Hst) Htab) in H.
  cbv zeta in H.
  destruct (leaf_inserted s (longitude, lat2y latitude)
              (Internals_NumberOfMarkers (Internals s)) _ Htree Htab)
    as [Hclimb Hfresh].
  cbv zeta in Hclimb, Hfresh.
  set (a := length (AllNodes (Internals s))) in *.
  match type of Hclimb with climb_inv _ _ ?t => set (sd := t) in * end.
  bind_inv H as [[s2 node] level] Hins.
  bind_inv H as nd Hnd. apply load_Ok in Hnd as (? & [= <-] & Hnd).
  bind_inv H as s3 Href. injection H as <- <-.
  destruct (insertion_ok 19 a _ sd s2 node level ltac:(lia) Hclimb Hins)
    as [[Hst2 (nd' & Hnd' & HJ2 & Hlev & Hle)] Hk2].
  rewrite Hnd in Hnd'. injection Hnd' as <-.
  pose proof (st_level s2 Hst2 _ _ Hnd) as Hlnd.
  destruct (refinement_ok (Z.to_nat (level - 1 + 1)) (Parent nd) ∅
              (ClusterDistance (Internals s)) s2 s3)
    as [[Hst3 HJ3] Hk3]; [lia| |exact Href|].
  { constructor.
    - exact Hst2.
    - revert HJ2. apply consistent_weaken. tauto.
    - intros k r [Hk|Hk] Hr; [|exact (False_ind _ (not_elem_of_empty k Hk))].
      destruct (st_parent s2 Hst2 _ _ _ Hnd Hk) as (r' & Hr' & Hl' & _).
      rewrite Hr in Hr'. injection Hr' as <-. lia.
    - intros k _. apply not_elem_of_empty. }
  pose proof (kept_trans _ _ _ Hk2 Hk3) as [Kt Kl (Kc & Kn & _)].
  split; [|split; [|split; [|split; [reflexivity|]]]].
  - split.
    + destruct Hst3. constructor; simpl; assumption.
    + exact HJ3.
  - exists (leaves ++ [a]).
    assert (Hnotin : a ∉ leaves).
    { intros Hin. apply list_elem_of_lookup in Hin as [i Hi].
      destruct (Hleaves i a Hi) as (r & Hr & _). congruence. }
    split; [|split; [|split]]; simpl.
    + apply NoDup_app. split; [exact Hnodup|]. split.
      * intros x Hx Hx'. apply list_elem_of_singleton in Hx' as ->. tauto.
      * apply NoDup_singleton.
    + rewrite Kt. unfold sd. simpl.
      rewrite list_lookup_insert_eq
        by (rewrite (st_size s Hst); lia).
      f_equal. apply list_to_set_snoc.
    + rewrite Kn. unfold sd. simpl. rewrite Hnum, length_app. simpl. lia.
    + intros i p Hi.
      assert (Hsd : ∃ r, Memory sd !! p = Some r ∧ Level r = 19 ∧
                NumberOfMarkers r = 1 ∧ MarkerId r = Z.of_nat i).
      { apply lookup_app_Some in Hi as [Hi|[Hlen Hi]].
        - destruct (Hleaves i p Hi) as (r & Hr & Hrest). exists r.
          split; [|exact Hrest]. unfold sd. simpl.
          rewrite lookup_insert_ne; [exact Hr|]. intros <-. congruence.
        - apply list_lookup_singleton_Some in Hi as [Hi <-].
          eexists. split; [unfold sd; simpl; apply lookup_insert_eq|].
          simpl. repeat split. rewrite Hnum. lia. }
      destruct Hsd as (r & Hr & Hl19 & Hc1 & Hm1).
      destruct (Kl p r Hr Hl19) as (r' & Hr' & Hl' & Hc' & Hm').
      exists r'. repeat split; congruence.
  - simpl. rewrite Kc. unfold sd. simpl. exact Hcl.
  - simpl. rewrite Kn. unfold sd. reflexivity.
Qed.

(** ** The invariant over the reachable states *)

(** [Init] and [Update] leave the tree as it is. *)
Lemma same_tree_ok (s s' : vtkMapMarkerSet) :
  same_tree s s' → tree_ok s → tree_ok s'.
Proof.
  intros (Hm & Ht & Ha & _ & _) [Hst Hc]. split.
  - destruct Hst as [H1 H2 H3 H4 H5 H6].
    split; rewrite ?Hm, ?Ht, ?Ha; assumption.
  - rewrite Hm. exact Hc.
Qed.

Lemma same_tree_leaves (s s' : vtkMapMarkerSet) :
  same_tree s s' → leaves_ok s → leaves_ok s'.
Proof.
  intros (Hm & Ht & _ & Hn & _) (leaves & H1 & H2 & H3 & H4).
  exists leaves. rewrite Hm, Ht, Hn. auto.
Qed.

Lemma Init_same_tree (s : vtkMapMarkerSet) : same_tree s (Init s).
Proof. repeat split. Qed.

Lemma Update_same_tree (zoom : Z) (s s' : vtkMapMarkerSet) :
  Update zoom s = Ok s' → same_tree s s'.
Proof.
  intros H. destruct (Update_skips zoom s) eqn:Hs.
  - rewrite (Update_skip _ _ Hs) in H. injection H as <-. repeat split.
  - destruct (Update_rebuild _ _ _ Hs H) as (a & ns & m & _ & _ & _ & ->).
    repeat split.
Qed.

(** The constructor leaves an empty tree. *)
Lemma new_tree_ok : tree_ok (set_Clustering true vtkMapMarkerSet_new).
Proof.
  split.
  - split; simpl.
    + reflexivity.
    + intros l nodeSet p Hl Hp. exfalso.
      apply (lookup_replicate 20 (∅ : gset nat) nodeSet l) in Hl as [-> _].
      exact (not_elem_of_empty p Hp).
    + intros p n Hp. rewrite lookup_empty in Hp. discriminate.
    + intros p n q Hp. rewrite lookup_empty in Hp. discriminate.
    + intros q qn c Hq. rewrite lookup_empty in Hq. discriminate.
    + intros p [n Hp]. rewrite lookup_empty in Hp. discriminate.
  - intros z n Hz. simpl in Hz. rewrite lookup_empty in Hz. discriminate.
Qed.

Lemma new_leaves_ok : leaves_ok (set_Clustering true vtkMapMarkerSet_new).
Proof.
  exists []. repeat split.
  - constructor.
  - intros i p Hi. rewrite lookup_nil in Hi. discriminate.
Qed.

(** Every state that the public operations reach satisfies the invariant
    between two calls, and its marker counter is the number of insertions. *)
Lemma reachable_ok (lat2y : Q → Q) (N : nat) (s : vtkMapMarkerSet) :
  reachable lat2y N s →
  tree_ok s ∧ leaves_ok s ∧ Clustering s = true ∧
  Internals_NumberOfMarkers (Internals s) = Z.of_nat N.
Proof.
  induction 1 as [|N s Hr IH|N s s' latitude longitude id Hr IH Hadd
                  |N s s' zoom Hr IH Hup].
  - split; [apply new_tree_ok|].
    split; [apply new_leaves_ok|]. split; reflexivity.
  - destruct IH as (Ht & Hl & Hc & Hn).
    pose proof (Init_same_tree s) as Hsame.
    split; [exact (same_tree_ok _ _ Hsame Ht)|].
    split; [exact (same_tree_leaves _ _ Hsame Hl)|]. split; assumption.
  - destruct IH as (Ht & Hl & Hc & Hn).
    destruct (AddMarker_ok _ _ _ _ _ _ Hc Ht Hl Hadd)
      as (Ht' & Hl' & Hc' & _ & Hn').
    split; [exact Ht'|]. split; [exact Hl'|]. split; [exact Hc'|]. lia.
  - destruct IH as (Ht & Hl & Hc & Hn).
    pose proof (Update_same_tree _ _ _ Hup) as Hsame.
    pose proof Hsame as (_ & _ & _ & Hn' & Hc').
    split; [exact (same_tree_ok _ _ Hsame Ht)|].
    split; [exact (same_tree_leaves _ _ Hsame Hl)|]. split; congruence.
Qed.

(** In every reachable state the id that the next [AddMarker] returns is
    the number of markers added so far. *)
Lemma AddMarker_returns_count (lat2y : Q → Q) (N : nat)
    (s s' : vtkMapMarkerSet) (latitude longitude : Q) (id : Z) :
  reachable lat2y N s →
  AddMarker lat2y latitude longitude s = Ok (id, s') → id = Z.of_nat N.
Proof.
  intros Hr Hadd. destruct (reachable_ok _ _ _ Hr) as (Ht & Hl & Hc & HN).
  destruct (AddMarker_ok _ _ _ _ _ _ Hc Ht Hl Hadd) as (_ & _ & _ & Hid & _).
  congruence.
Qed.

(** A node with a child is above the finest level. *)
Lemma nonempty_level (s : vtkMapMarkerSet) (p : nat) (n : ClusteringNode) :
  structure s → Memory s !! p = Some n → Children n ≠ ∅ → Level n < 19.
Proof.
  intros Hst Hp Hne.
  destruct (set_choose_L _ Hne) as [c Hc].
  destruct (st_children s Hst _ _ _ Hp Hc) as (cn & Hcn & Hpar).
  destruct (st_parent s Hst _ _ _ Hcn Hpar) as (qn & Hq & Hl & _).
  rewrite Hp in Hq. injection Hq as <-.
  pose proof (st_level s Hst _ _ Hcn). lia.
Qed.

(** Agreement with the children, with the position as a quotient. *)
Lemma node_ok_centroid (h : gmap nat ClusteringNode) (n : ClusteringNode) :
  node_ok h n → Level n < 19 →
  NumberOfMarkers n = children_count h (Children n) ∧
  (fst (gcsCoords n) == centroid fst h (Children n))%Q ∧
  (snd (gcsCoords n) == centroid snd h (Children n))%Q.
Proof.
  intros [Hpos Hok] Hl. destruct (Hok Hl) as (Hc & Hx & Hy).
  split; [exact Hc|]. unfold centroid. rewrite <- Hc, <- Hx, <- Hy.
  assert (Hnz : ¬ (inject_Z (NumberOfMarkers n) == 0)%Q).
  { unfold Qeq. simpl. lia. }
  split; field; exact Hnz.
Qed.

(** C1.  After a call of [AddMarker] that returns, on a marker set that
    the public operations reached with clustering on, every node of a level
    set that has a child agrees with its children: its marker count is the
    sum of their marker counts, and each of its two coordinates is the sum of
    their coordinates weighted by their counts, over the sum of their counts
    (in exact arithmetic). *)
Theorem AddMarker_children_agree (lat2y : Q → Q) (N : nat)
    (s s' : vtkMapMarkerSet) (latitude longitude : Q) (id : Z)
    (l : nat) (nodeSet : gset nat) (p : nat) (n : ClusteringNode) :
  reachable lat2y N s →
  AddMarker lat2y latitude longitude s = Ok (id, s') →
  NodeTable (Internals s') !! l = Some nodeSet → p ∈ nodeSet →
  Memory s' !! p = Some n → Children n ≠ ∅ →
  NumberOfMarkers n = children_count (Memory s') (Children n) ∧
  (fst (gcsCoords n) == centroid fst (Memory s') (Children n))%Q ∧
  (snd (gcsCoords n) == centroid snd (Memory s') (Children n))%Q.
Proof.
  intros Hr Hadd _ _ Hp Hne.
  destruct (reachable_ok _ _ _ (reach_AddMarker _ _ _ _ _ _ _ Hr Hadd))
    as ([Hst HJ] & _).
  apply node_ok_centroid.
  - apply (HJ p n Hp); tauto.
  - exact (nonempty_level s' p n Hst Hp Hne).
Qed.

(** The concrete runs are reachable. *)
Lemma clustering_set_reachable : reachable equator_lat2y 0 clustering_set.
Proof. exact (reach_Init _ 0 _ (reach_new _)). Qed.

Lemma one_marker_added :
  AddMarker equator_lat2y 0 0 clustering_set = Ok (0, one_marker).
Proof. vm_compute. reflexivity. Qed.

Lemma two_coincident_added :
  AddMarker equator_lat2y 0 0 one_marker = Ok (1, two_coincident).
Proof. vm_compute. reflexivity. Qed.

Lemma one_marker_reachable : reachable equator_lat2y 1 one_marker.
Proof.
  exact (reach_AddMarker _ _ _ _ _ _ _ clustering_set_reachable
           one_marker_added).
Qed.

Lemma two_coincident_reachable : reachable equator_lat2y 2 two_coincident.
Proof.
  exact (reach_AddMarker _ _ _ _ _ _ _ one_marker_reachable
           two_coincident_added).
Qed.

Lemma AddMarker_children_agree_witness :
  ∃ n, Memory two_coincident !! 1%nat = Some n ∧ Children n ≠ ∅ ∧
    NumberOfMarkers n = children_count (Memory two_coincident) (Children n) ∧
    (fst (gcsCoords n) == centroid fst (Memory two_coincident) (Children n))%Q ∧
    (snd (gcsCoords n) == centroid snd (Memory two_coincident) (Children n))%Q.
Proof.
  assert (Hne : ∀ X : gset nat, 0%nat ∈ X → X ≠ ∅).
  { intros X HX ->. exact (not_elem_of_empty _ HX). }
  eexists. split; [reflexivity|]. split.
  - apply Hne. apply elem_of_elements. vm_compute. repeat constructor.
  - eapply (AddMarker_children_agree equator_lat2y 1 one_marker two_coincident
             0 0 1 18 _ 1 _ one_marker_reachable two_coincident_added).
    + reflexivity.
    + apply elem_of_elements. vm_compute. repeat constructor.
    + reflexivity.
    + apply Hne. apply elem_of_elements. vm_compute. repeat constructor.
Defined.

(** C10.  After [N] calls of [AddMarker] that returned, with clustering on,
    the level set of level 19 holds exactly [N] nodes, one per marker: the
    node of the [i]-th marker is live at level 19, stands for that marker
    alone and carries the id [i], which is the id that the [i]-th call
    returned. *)
Theorem finest_level_keeps_markers (lat2y : Q → Q) (N : nat)
    (s : vtkMapMarkerSet) :
  reachable lat2y N s →
  ∃ (nodeSet : gset nat) (leaves : list nat),
    NodeTable (Internals s) !! 19%nat = Some nodeSet ∧
    size nodeSet = N ∧
    length leaves = N ∧ NoDup leaves ∧ (∀ p, p ∈ nodeSet ↔ p ∈ leaves) ∧
    ∀ (i p : nat), leaves !! i = Some p →
      ∃ r, Memory s !! p = Some r ∧ Level r = 19 ∧
           NumberOfMarkers r = 1 ∧ MarkerId r = Z.of_nat i.
Proof.
  intros Hr.
  destruct (reachable_ok _ _ _ Hr)
    as (_ & (leaves & Hnd & Htab & Hnum & Hleaves) & _ & HN).
  assert (Hlen : length leaves = N) by lia.
  exists (list_to_set leaves), leaves.
  split; [exact Htab|]. split; [|split; [exact Hlen|split; [exact Hnd|split]]].
  - rewrite size_list_to_set by exact Hnd. exact Hlen.
  - intros p. apply elem_of_list_to_set.
  - exact Hleaves.
Qed.

Lemma finest_level_keeps_markers_witness :
  ∃ (nodeSet : gset nat) (leaves : list nat),
    NodeTable (Internals two_coincident) !! 19%nat = Some nodeSet ∧
    size nodeSet = 2%nat ∧
    length leaves = 2%nat ∧ NoDup leaves ∧ (∀ p, p ∈ nodeSet ↔ p ∈ leaves) ∧
    ∀ (i p : nat), leaves !! i = Some p →
      ∃ r, Memory two_coincident !! p = Some r ∧ Level r = 19 ∧
           NumberOfMarkers r = 1 ∧ MarkerId r = Z.of_nat i.
Proof.
  exact (finest_level_keeps_markers equator_lat2y 2 two_coincident
           two_coincident_reachable).
Defined.

(** ** Merges at the root level *)

(** A node of level 0 has no parent. *)
Lemma root_has_no_parent (s : vtkMapMarkerSet) (p : nat) (n : ClusteringNode) :
  structure s → Memory s !! p = Some n → Level n = 0 → Parent n = None.
Proof.
  intros Hst Hp Hl. destruct (Parent n) as [q|] eqn:Hq; [|reflexivity].
  destruct (st_parent s Hst _ _ _ Hp Hq) as (qn & Hqn & Hlq & _).
  pose proof (st_level s Hst _ _ Hqn). lia.
Qed.

(** A merge of two nodes of level 0 does not return: [node->Parent] is
    null where the counts of the parents are adjusted. *)
Lemma MergeNodes_root_level (node mergingNode : nat)
    (parentsToMerge : gset nat) (s : vtkMapMarkerSet) (n m : ClusteringNode) :
  structure s →
  Memory s !! node = Some n → Memory s !! mergingNode = Some m →
  node ≠ mergingNode → Level n = 0 → Level m = 0 →
  NumberOfMarkers n + NumberOfMarkers m ≠ 0 →
  MergeNodes node mergingNode parentsToMerge 0 s = Fault.
Proof.
  intros Hst Hn Hm Hd Hln Hlm Hw.
  rewrite (MergeNodes_eq _ _ _ _ _ n m).
  - destruct (Qeq_bool _ 0) eqn:Hz.
    + apply Qeq_bool_iff in Hz. unfold Qeq in Hz. simpl in Hz. lia.
    + rewrite (root_has_no_parent s node n Hst Hn Hln). reflexivity.
  - apply merge_shape_of_structure; congruence.
Qed.

(** [AddMarker] reads [lat2y] at the latitude only. *)
Lemma AddMarker_lat2y (lat2y lat2y' : Q → Q) (latitude longitude : Q)
    (s : vtkMapMarkerSet) :
  lat2y latitude = lat2y' latitude →
  AddMarker lat2y latitude longitude s = AddMarker lat2y' latitude longitude s.
Proof. intros H. unfold AddMarker. rewrite H. reflexivity. Qed.

Lemma AddMarkers_lat2y (lat2y lat2y' : Q → Q) (markers : list (Q * Q))
    (s : vtkMapMarkerSet) :
  Forall (λ m, lat2y (fst m) = lat2y' (fst m)) markers →
  AddMarkers lat2y markers s = AddMarkers lat2y' markers s.
Proof.
  intros H. revert s. induction H as [|m rest Hm _ IH]; intros s.
  - reflexivity.
  - simpl. rewrite (AddMarker_lat2y _ _ _ _ _ Hm).
    destruct (AddMarker lat2y' _ _ s) as [[id s1]| |]; simpl; try reflexivity.
    rewrite IH. reflexivity.
Qed.

Lemma three_markers_added :
  AddMarkers equator_lat2y [(0, 0); (0, 100); (0, -70)]%Q clustering_set
  = Ok ([0; 1; 2], two_roots).
Proof. vm_compute. reflexivity. Qed.

Lemma fourth_marker_faults : AddMarker equator_lat2y 0 0 two_roots = Fault.
Proof. vm_compute. reflexivity. Qed.

(** C4.  Four markers on the equator, at the longitudes 0, 100, -70 and 0,
    added to a marker set with clustering on: the first three calls return
    the ids 0, 1 and 2, and the fourth call does not return.  Its refinement
    reaches level 0, where the node of the first two markers, recomputed
    from its children, has come within the cluster distance of the node of
    the third; the merge of the two dereferences the null parent of a node
    of level 0. *)
Theorem AddMarker_fourth_faults (lat2y : Q → Q) :
  lat2y 0%Q = 0%Q →
  AddMarkers lat2y [(0, 0); (0, 100); (0, -70)]%Q clustering_set
  = Ok ([0; 1; 2], two_roots) ∧
  AddMarker lat2y 0 0 two_roots = Fault ∧
  AddMarkers lat2y [(0, 0); (0, 100); (0, -70); (0, 0)]%Q clustering_set
  = Fault.
Proof.
  intros H0.
  assert (H3 : AddMarkers lat2y [(0, 0); (0, 100); (0, -70)]%Q clustering_set
               = Ok ([0; 1; 2], two_roots)).
  { rewrite (AddMarkers_lat2y lat2y equator_lat2y)
      by (repeat constructor; exact H0).
    exact three_markers_added. }
  assert (H4 : AddMarker lat2y 0 0 two_roots = Fault).
  { rewrite (AddMarker_lat2y lat2y equator_lat2y) by exact H0.
    exact fourth_marker_faults. }
  split; [exact H3|]. split; [exact H4|].
  rewrite (AddMarkers_lat2y lat2y equator_lat2y)
    by (repeat constructor; exact H0).
  vm_compute. reflexivity.
Qed.

Lemma AddMarker_fourth_faults_witness :
  AddMarkers equator_lat2y [(0, 0); (0, 100); (0, -70)]%Q clustering_set
  = Ok ([0; 1; 2], two_roots) ∧
  AddMarker equator_lat2y 0 0 two_roots = Fault ∧
  AddMarkers equator_lat2y [(0, 0); (0, 100); (0, -70); (0, 0)]%Q clustering_set
  = Fault.
Proof. apply (AddMarker_fourth_faults equator_lat2y). reflexivity. Defined.

(** The merge that the fourth call attempts, on the state that the first
    three calls leave: the nodes of level 0 are at the addresses 19 and 58. *)
Lemma two_roots_reachable : reachable equator_lat2y 3 two_roots.
Proof.
  eapply (reach_AddMarker _ 2 two_apart two_roots 0 (-70) 2).
  - eapply (reach_AddMarker _ 1 one_marker two_apart 0 100 1).
    + exact one_marker_reachable.
    + vm_compute. reflexivity.
  - vm_compute. reflexivity.
Qed.

(** C3.  A merge at level 0 is not carried out: in every reachable state,
    for two distinct nodes of the level set of level 0, [MergeNodes] stops
    where the count of the parent of [node] is adjusted, the parent of a
    node of level 0 being null; the null check of the source comes after
    that line.  The effects from the adjustment of the parents on do not
    occur. *)
Theorem MergeNodes_root_faults (lat2y : Q → Q) (N : nat) (s : vtkMapMarkerSet)
    (roots : gset nat) (node mergingNode : nat) (parentsToMerge : gset nat) :
  reachable lat2y N s →
  NodeTable (Internals s) !! 0%nat = Some roots →
  node ∈ roots → mergingNode ∈ roots → node ≠ mergingNode →
  MergeNodes node mergingNode parentsToMerge 0 s = Fault.
Proof.
  intros Hr Ht Hn Hm Hd.
  destruct (reachable_ok _ _ _ Hr) as ([Hst Hc] & _).
  destruct (st_table s Hst _ _ _ Ht Hn) as (n & Hnn & Hln).
  destruct (st_table s Hst _ _ _ Ht Hm) as (m & Hmm & Hlm).
  destruct (Hc node n Hnn) as [Hwn _]; [tauto|tauto|].
  destruct (Hc mergingNode m Hmm) as [Hwm _]; [tauto|tauto|].
  apply (MergeNodes_root_level node mergingNode parentsToMerge s n m Hst
           Hnn Hmm Hd Hln Hlm).
  lia.
Qed.

Lemma MergeNodes_root_faults_witness :
  NodeTable (Internals two_roots) !! 0%nat = Some {[19%nat; 58%nat]} ∧
  MergeNodes 19 58 ∅ 0 two_roots = Fault.
Proof.
  assert (Ht : NodeTable (Internals two_roots) !! 0%nat
               = Some {[19%nat; 58%nat]}) by (vm_compute; reflexivity).
  split; [exact Ht|].
  apply (MergeNodes_root_faults equator_lat2y 3 two_roots {[19%nat; 58%nat]}
           19 58 ∅ two_roots_reachable Ht).
  - apply elem_of_union_l, elem_of_singleton. reflexivity.
  - apply elem_of_union_r, elem_of_singleton. reflexivity.
  - discriminate.
Defined.

(* ================================================================== *)
(** * The bookkeeping of the nodes *)

Lemma relinked_refl (h : gmap nat ClusteringNode) : relinked h h.
Proof. intros k. destruct (h !! k); auto. Qed.

Lemma relinked_trans (h1 h2 h3 : gmap nat ClusteringNode) :
  relinked h1 h2 → relinked h2 h3 → relinked h1 h3.
Proof.
  intros H12 H23 k. specialize (H12 k). specialize (H23 k).
  destruct (h1 !! k), (h2 !! k), (h3 !! k); try tauto.
  destruct H12 as (? & ? & ?), H23 as (? & ? & ?).
  repeat split; try congruence. auto.
Qed.

Lemma relinked_modify (h h' : gmap nat ClusteringNode) (p : option nat)
    (f : ClusteringNode → ClusteringNode) :
  modify h p f = Ok h' →
  (∀ r, NodeId (f r) = NodeId r ∧ Level (f r) = Level r ∧
        (is_Some (Parent r) → is_Some (Parent (f r)))) →
  relinked h h'.
Proof.
  intros H Hf. apply modify_Ok in H as (a & n & -> & Hn & ->). intros k.
  destruct (decide (a = k)) as [<-|Hne].
  - rewrite Hn, lookup_insert_eq. apply Hf.
  - rewrite lookup_insert_ne by done. destruct (h !! k); auto.
Qed.

Lemma relinked_live (h h' : gmap nat ClusteringNode) (k : nat) :
  relinked h h' → is_Some (h !! k) ↔ is_Some (h' !! k).
Proof.
  intros H. specialize (H k).
  destruct (h !! k), (h' !! k); split; intros [? ?]; try tauto; eauto;
    discriminate.
Qed.

Lemma relinked_Some (h h' : gmap nat ClusteringNode) (k : nat)
    (r' : ClusteringNode) :
  relinked h h' → h' !! k = Some r' →
  ∃ r, h !! k = Some r ∧ NodeId r' = NodeId r ∧ Level r' = Level r ∧
       (is_Some (Parent r) → is_Some (Parent r')).
Proof.
  intros H Hk. specialize (H k). rewrite Hk in H.
  destruct (h !! k) as [r|]; [|tauto]. exists r. tauto.
Qed.

Lemma relinked_relink (node : nat) (l : list nat)
    (h h' : gmap nat ClusteringNode) :
  foldlM (MergeNodes_relink node) h l = Ok h' → relinked h h'.
Proof.
  revert h. induction l as [|c l IH]; intros h H; simpl in H.
  - injection H as <-. apply relinked_refl.
  - bind_inv H as h1 E. unfold MergeNodes_relink in E. bind_inv E as h0 E0.
    eapply relinked_trans; [|exact (IH _ H)].
    eapply relinked_trans.
    + apply (relinked_modify _ _ _ _ E0). intros r. simpl. auto.
    + apply (relinked_modify _ _ _ _ E). intros r. simpl. eauto.
Qed.

(** What a merge that returns has done to the memory, the level table and
    the arena. *)
Lemma MergeNodes_raw (node mergingNode : nat) (parentsToMerge : gset nat)
    (level : Z) (s s' : vtkMapMarkerSet) (parentsToMerge' : gset nat) :
  MergeNodes node mergingNode parentsToMerge level s
  = Ok (s', parentsToMerge') →
  ∃ m h X,
    Memory s !! mergingNode = Some m ∧
    relinked (Memory s) h ∧ Memory s' = delete mergingNode h ∧
    0 ≤ level ∧ NodeTable (Internals s) !! Z.to_nat level = Some X ∧
    NodeTable (Internals s')
    = <[Z.to_nat level := X ∖ {[mergingNode]}]> (NodeTable (Internals s)) ∧
    0 ≤ NodeId m ∧
    (Z.to_nat (NodeId m) < length (AllNodes (Internals s)))%nat ∧
    AllNodes (Internals s')
    = <[Z.to_nat (NodeId m) := None]> (AllNodes (Internals s)) ∧
    NumberOfNodes (Internals s') = NumberOfNodes (Internals s) ∧
    view s' = view s.
Proof.
  unfold MergeNodes. cbv zeta. intros H.
  bind_inv H as n0 En0. bind_inv H as m0 Em0.
  bind_inv H as c0 Ec0. bind_inv H as c1 Ec1.
  bind_inv H as h1 Eh1. bind_inv H as m1 Em1.
  bind_inv H as h2 Eh2. bind_inv H as m2 Em2. bind_inv H as n2 En2.
  bind_inv H as h3 Eh3. bind_inv H as m3 Em3.
  bind_inv H as h4 Eh4. bind_inv H as m4 Em4.
  bind_inv H as h5 Eh5. bind_inv H as m5 Em5. bind_inv H as n5 En5.
  bind_inv H as nodeSet Ens. bind_inv H as table Etab.
  bind_inv H as all Eall. injection H as <- <-.
  apply load_Ok in Em0 as (? & [= <-] & Hm0).
  apply load_Ok in Em5 as (? & [= <-] & Hm5).
  apply at_index_Ok in Ens as [Hlev Hns].
  apply assign_index_Ok in Eall as (Hid & Hlt & ->).
  assert (R1 : relinked (Memory s) h1).
  { apply (relinked_modify _ _ _ _ Eh1). intros r. simpl. auto. }
  assert (R2 : relinked h1 h2) by exact (relinked_relink _ _ _ _ Eh2).
  assert (R3 : relinked h2 h3).
  { apply (relinked_modify _ _ _ _ Eh3). intros r. simpl. auto. }
  assert (R4 : relinked h3 h4).
  { apply (relinked_modify _ _ _ _ Eh4). intros r. simpl. auto. }
  assert (R5 : relinked h4 h5).
  { apply (relinked_modify _ _ _ _ Eh5). intros r. simpl. auto. }
  assert (R : relinked (Memory s) h5).
  { repeat (eapply relinked_trans; [eassumption|]). apply relinked_refl. }
  destruct (relinked_Some _ _ _ _ R Hm5) as (m' & Hm' & Hid5 & _).
  rewrite Hm0 in Hm'. injection Hm' as <-. rewrite Hid5 in *.
  exists m0, h5, nodeSet. simpl.
  split; [exact Hm0|]. split; [exact R|]. split; [reflexivity|].
  split; [exact Hlev|]. split; [exact Hns|]. split.
  { destruct (decide (mergingNode ∈ nodeSet)) as [Hin|Hout].
    - apply assign_index_Ok in Etab as (_ & _ & ->). reflexivity.
    - injection Etab as <-.
      replace (nodeSet ∖ {[mergingNode]}) with nodeSet.
      + symmetry. apply list_insert_id. exact Hns.
      + apply set_eq. intros x. rewrite elem_of_difference, elem_of_singleton.
        split; [|tauto]. intros Hx. split; [exact Hx|]. intros ->. tauto. }
  split; [exact Hid|]. split; [exact Hlt|]. split; [reflexivity|].
  split; reflexivity.
Qed.

Lemma registered_relinked (D D' : nat → Prop) (s : vtkMapMarkerSet)
    (h : gmap nat ClusteringNode) :
  registered D s → relinked (Memory s) h →
  (∀ p n, h !! p = Some n → 0 < Level n → D p →
          D' p ∨ is_Some (Parent n)) →
  registered D' (set_Memory h s).
Proof.
  intros [Ht Hp Hi Hc Ha Hl] R HD. constructor; simpl.
  - intros p n Hn. destruct (relinked_Some _ _ _ _ R Hn) as (r & Hr & _ & El & _).
    rewrite El. exact (Ht p r Hr).
  - intros p n Hn Hpos.
    destruct (relinked_Some _ _ _ _ R Hn) as (r & Hr & _ & El & Hpar).
    destruct (Hp p r Hr) as [Hd|Hs]; [lia| |].
    + exact (HD p n Hn Hpos Hd).
    + right. exact (Hpar Hs).
  - intros p n Hn. destruct (relinked_Some _ _ _ _ R Hn) as (r & Hr & Ei & _).
    rewrite Ei. exact (Hi p r Hr).
  - exact Hc.
  - intros i a Hia. destruct (Ha i a Hia) as [-> Hlive]. split; [reflexivity|].
    apply (relinked_live _ _ _ R). exact Hlive.
  - intros p Hlive. apply Hl. apply (relinked_live _ _ _ R). exact Hlive.
Qed.

Lemma registered_fresh (D : nat → Prop) (s : vtkMapMarkerSet) :
  registered D s → Memory s !! length (AllNodes (Internals s)) = None.
Proof.
  intros Hr. destruct (Memory s !! _) eqn:E; [|reflexivity].
  pose proof (rg_live D s Hr _ (ex_intro _ _ E)) as H.
  apply lookup_lt_Some in H. lia.
Qed.

(** A merge keeps the bookkeeping. *)
Lemma MergeNodes_registered (D : nat → Prop) (node mergingNode : nat)
    (parentsToMerge : gset nat) (level : Z) (s s' : vtkMapMarkerSet)
    (parentsToMerge' : gset nat) :
  registered D s →
  MergeNodes node mergingNode parentsToMerge level s
  = Ok (s', parentsToMerge') →
  registered D s' ∧ view s' = view s.
Proof.
  intros Hr H.
  destruct (MergeNodes_raw _ _ _ _ _ _ _ H)
    as (m & h & X & Hm & R & Hmem & Hlev & HX & Htab & Hid & Hlt & Hall & Hnn & Hv).
  split; [|exact Hv].
  pose proof (rg_id D s Hr _ _ Hm) as Hidm.
  assert (Hslot : Z.to_nat (NodeId m) = mergingNode) by lia.
  rewrite Hslot in *.
  assert (Hsurv : ∀ k r', Memory s' !! k = Some r' →
            k ≠ mergingNode ∧
            ∃ r, Memory s !! k = Some r ∧ NodeId r' = NodeId r ∧
                 Level r' = Level r ∧
                 (is_Some (Parent r) → is_Some (Parent r'))).
  { intros k r' Hk. rewrite Hmem in Hk.
    apply lookup_delete_Some in Hk as [Hne Hk]. split; [auto|].
    exact (relinked_Some _ _ _ _ R Hk). }
  constructor.
  - intros p n Hn. destruct (Hsurv p n Hn) as (Hne & r & Hr' & _ & El & _).
    destruct (rg_table D s Hr p r Hr') as (Y & Hpos & HY & Hin).
    rewrite El, Htab.
    destruct (decide (Z.to_nat level = Z.to_nat (Level r))) as [E|E].
    + rewrite <- E in *. rewrite HX in HY. injection HY as <-.
      exists (X ∖ {[mergingNode]}). split; [exact Hpos|]. split.
      * apply list_lookup_insert_eq. apply lookup_lt_Some in HX. exact HX.
      * apply elem_of_difference. split; [exact Hin|].
        rewrite elem_of_singleton. exact Hne.
    + exists Y. split; [exact Hpos|]. split; [|exact Hin].
      rewrite list_lookup_insert_ne by exact E. exact HY.
  - intros p n Hn Hpos.
    destruct (Hsurv p n Hn) as (_ & r & Hr' & _ & El & Hpar).
    destruct (rg_parent D s Hr p r Hr') as [Hd|Hs]; [lia|auto|auto].
  - intros p n Hn. destruct (Hsurv p n Hn) as (_ & r & Hr' & Ei & _).
    rewrite Ei. exact (rg_id D s Hr p r Hr').
  - rewrite Hnn, Hall, length_insert. exact (rg_count D s Hr).
  - intros i a Hia. rewrite Hall in Hia.
    destruct (decide (mergingNode = i)) as [<-|Hne].
    + rewrite list_lookup_insert_eq in Hia by exact Hlt. discriminate.
    + rewrite list_lookup_insert_ne in Hia by exact Hne.
      destruct (rg_arena D s Hr i a Hia) as [-> Hlive]. split; [reflexivity|].
      rewrite Hmem, lookup_delete_ne by exact Hne.
      apply (relinked_live _ _ _ R). exact Hlive.
  - intros p [n Hn]. destruct (Hsurv p n Hn) as (Hne & r & Hr' & _).
    rewrite Hall, list_lookup_insert_ne by auto.
    apply (rg_live D s Hr). eauto.
Qed.

(** A new node that enters the level set of its level. *)
Lemma registered_insert (D : nat → Prop) (s s' : vtkMapMarkerSet)
    (level : Z) (X : gset nat) (rec : ClusteringNode) :
  let a := length (AllNodes (Internals s)) in
  registered D s → 0 ≤ level →
  NodeTable (Internals s) !! Z.to_nat level = Some X →
  NodeId rec = NumberOfNodes (Internals s) → Level rec = level →
  Memory s' = <[a := rec]> (Memory s) →
  NodeTable (Internals s')
  = <[Z.to_nat level := {[a]} ∪ X]> (NodeTable (Internals s)) →
  AllNodes (Internals s') = AllNodes (Internals s) ++ [Some a] →
  NumberOfNodes (Internals s') = NumberOfNodes (Internals s) + 1 →
  registered (λ k, D k ∨ k = a) s'.
Proof.
  intros a Hr Hlev HX Hid Hl Hmem Htab Hall Hnn.
  pose proof (registered_fresh D s Hr) as Hfresh. fold a in Hfresh.
  assert (HXlt : (Z.to_nat level < length (NodeTable (Internals s)))%nat)
    by (apply lookup_lt_Some in HX; exact HX).
  constructor.
  - intros p n Hn. rewrite Hmem in Hn. rewrite Htab.
    destruct (decide (a = p)) as [<-|Hne].
    + rewrite lookup_insert_eq in Hn. injection Hn as <-. rewrite Hl.
      exists ({[a]} ∪ X). split; [exact Hlev|]. split.
      * apply list_lookup_insert_eq. exact HXlt.
      * apply elem_of_union_l, elem_of_singleton. reflexivity.
    + rewrite lookup_insert_ne in Hn by exact Hne.
      destruct (rg_table D s Hr p n Hn) as (Y & Hpos & HY & Hin).
      destruct (decide (Z.to_nat level = Z.to_nat (Level n))) as [E|E].
      * rewrite <- E in *. rewrite HX in HY. injection HY as <-.
        exists ({[a]} ∪ X). split; [exact Hpos|]. split.
        -- apply list_lookup_insert_eq. exact HXlt.
        -- apply elem_of_union_r. exact Hin.
      * exists Y. split; [exact Hpos|]. split; [|exact Hin].
        rewrite list_lookup_insert_ne by exact E. exact HY.
  - intros p n Hn Hpos. rewrite Hmem in Hn.
    destruct (decide (a = p)) as [<-|Hne]; [auto|].
    rewrite lookup_insert_ne in Hn by exact Hne.
    destruct (rg_parent D s Hr p n Hn Hpos); auto.
  - intros p n Hn. rewrite Hmem in Hn.
    destruct (decide (a = p)) as [<-|Hne].
    + rewrite lookup_insert_eq in Hn. injection Hn as <-.
      rewrite Hid. exact (rg_count D s Hr).
    + rewrite lookup_insert_ne in Hn by exact Hne. exact (rg_id D s Hr p n Hn).
  - rewrite Hnn, Hall, length_app, (rg_count D s Hr). simpl. fold a. lia.
  - intros i b Hib. rewrite Hall in Hib. rewrite Hmem.
    apply lookup_app_Some in Hib as [Hib|[Hge Hib]].
    + destruct (rg_arena D s Hr i b Hib) as [-> Hlive]. split; [reflexivity|].
      rewrite lookup_insert_ne; [exact Hlive|].
      apply lookup_lt_Some in Hib. fold a in Hib. lia.
    + apply list_lookup_singleton_Some in Hib as [Hi [= <-]].
      fold a in Hge, Hi. assert (i = a) by lia. subst i.
      split; [reflexivity|]. rewrite lookup_insert_eq. eauto.
  - intros p Hp. rewrite Hmem in Hp. rewrite Hall.
    destruct (decide (a = p)) as [<-|Hne].
    + rewrite lookup_app_r by (fold a; lia).
      replace (a - length (AllNodes (Internals s)))%nat with 0%nat
        by (fold a; lia). reflexivity.
    + rewrite lookup_insert_ne in Hp by exact Hne.
      rewrite lookup_app_l; [exact (rg_live D s Hr p Hp)|].
      apply lookup_lt_Some with (x := Some p). exact (rg_live D s Hr p Hp).
Qed.

Lemma registered_weaken (D D' : nat → Prop) (s : vtkMapMarkerSet) :
  registered D s →
  (∀ p n, Memory s !! p = Some n → 0 < Level n → D p →
          D' p ∨ is_Some (Parent n)) →
  registered D' s.
Proof.
  intros [Ht Hp Hi Hc Ha Hl] HD. constructor; try assumption.
  intros p n Hn Hpos. destruct (Hp p n Hn Hpos); auto.
Qed.

(** The insertion loop keeps the bookkeeping: the climbing node is the
    only node that may lack a parent, until it joins a node or reaches
    level 0. *)
Lemma insertion_registered (n : nat) :
  ∀ (node : nat) (threshold : Q) (s s' : vtkMapMarkerSet) (node' : nat)
    (level' : Z),
    registered (λ k, k = node) s →
    (∃ nd, Memory s !! node = Some nd ∧ Level nd = Z.of_nat n) →
    AddMarker_insertion n node threshold s = Ok (s', node', level') →
    registered (λ _, False) s' ∧ view s' = view s.
Proof.
  induction n as [|l IH]; intros node thr s s' node' level' Hr Hnode H.
  - simpl in H. injection H as <- <- <-. split; [|reflexivity].
    apply (registered_weaken _ _ _ Hr). intros p n Hn Hpos ->.
    destruct Hnode as (nd & Hnd & Hl). rewrite Hn in Hnd.
    injection Hnd as <-. lia.
  - simpl in H. bind_inv H as closest Ecl. destruct closest as [c|].
    + bind_inv H as rc Erc. bind_inv H as nd End.
      bind_inv H as c0 Ec0. bind_inv H as c1 Ec1.
      bind_inv H as h1 Eh1. bind_inv H as h2 Eh2. injection H as <- <- <-.
      split; [|reflexivity].
      apply (registered_relinked _ _ _ _ Hr).
      * eapply relinked_trans.
        -- apply (relinked_modify _ _ _ _ Eh1). intros r. simpl. auto.
        -- apply (relinked_modify _ _ _ _ Eh2). intros r. simpl. eauto.
      * intros p n Hn Hpos ->. right.
        apply modify_Ok in Eh2 as (a & x & [= <-] & Hx & ->).
        rewrite lookup_insert_eq in Hn. injection Hn as <-. simpl. eauto.
    + bind_inv H as nd End. apply load_Ok in End as (? & [= <-] & Hnd).
      unfold new_node in H. cbv zeta in H.
      set (a := length (AllNodes (Internals s))) in *.
      bind_inv H as s2 Es2. bind_inv H as h Eh.
      unfold table_insert in Es2. bind_inv Es2 as X EX.
      bind_inv Es2 as table Etab. injection Es2 as <-.
      simpl in EX, Etab, Eh.
      apply at_index_Ok in EX as [Hlev HX].
      apply assign_index_Ok in Etab as (_ & _ & ->).
      match type of Eh with modify ?m _ _ = _ => set (mem1 := m) in * end.
      match type of H with
        AddMarker_insertion _ _ _ (set_Memory h ?t) = _ => set (s2 := t) in *
      end.
      assert (Hfresh : Memory s !! a = None) by exact (registered_fresh _ _ Hr).
      assert (Hne : node ≠ a) by (intros ->; congruence).
      assert (Hr2 : registered (λ k, k = node ∨ k = a) s2).
      { apply (registered_insert (λ k, k = node) s s2 (Z.of_nat l) X
                 (mkNode (NumberOfNodes (Internals s)) (Z.of_nat l)
                    (gcsCoords nd) None {[node]} (NumberOfMarkers nd)
                    (MarkerId nd)) Hr Hlev HX); reflexivity. }
      apply modify_Ok in Eh as (? & x & [= <-] & Hx & ->).
      assert (Hr3 : registered (λ k, k = a)
                      (set_Memory (<[node := set_Parent (Some a) x]> mem1) s2)).
      { apply (registered_relinked _ _ _ _ Hr2).
        - apply (relinked_modify _ _ (Some node) (set_Parent (Some a))).
          + apply modify_Some. exact Hx.
          + intros r. simpl. eauto.
        - intros p n Hn Hpos [->| ->]; [right|left; reflexivity].
          rewrite lookup_insert_eq in Hn. injection Hn as <-. simpl. eauto. }
      destruct (IH a thr _ s' node' level' Hr3) as [Hr' Hv'].
      * simpl. eexists. split.
        -- rewrite lookup_insert_ne by exact Hne. unfold mem1.
           apply lookup_insert_eq.
        -- reflexivity.
      * exact H.
      * split; [exact Hr'|]. rewrite Hv'. reflexivity.
Qed.

Lemma merge_loop_registered (D : nat → Prop) (node : nat) (level : Z)
    (l : list nat) :
  ∀ (s : vtkMapMarkerSet) (pq : gset nat) (s' : vtkMapMarkerSet)
    (pq' : gset nat),
    registered D s →
    foldlM (AddMarker_merge node level) (s, pq) l = Ok (s', pq') →
    registered D s' ∧ view s' = view s.
Proof.
  induction l as [|x l IH]; intros s pq s' pq' Hr H; simpl in H.
  - injection H as <- <-. auto.
  - bind_inv H as [s1 pq1] E. unfold AddMarker_merge in E. simpl in E.
    destruct (decide (node = x)).
    + injection E as <- <-. exact (IH _ _ _ _ Hr H).
    + destruct (MergeNodes_registered D _ _ _ _ _ _ _ Hr E) as [Hr1 Hv1].
      destruct (IH _ _ _ _ Hr1 H) as [Hr' Hv']. split; [exact Hr'|].
      congruence.
Qed.

(** The refinement loop keeps the bookkeeping. *)
Lemma refinement_registered (D : nat → Prop) (n : nat) :
  ∀ (node : option nat) (nodesToMerge : gset nat) (threshold : Q)
    (s s' : vtkMapMarkerSet),
    registered D s →
    AddMarker_refinement n node nodesToMerge threshold s = Ok s' →
    registered D s' ∧ view s' = view s.
Proof.
  induction n as [|l IH]; intros node Qs thr s s' Hr H; simpl in H.
  - injection H as <-. auto.
  - destruct node as [node|]; [|discriminate].
    bind_inv H as [s1 pq1] Eloop.
    destruct (merge_loop_registered D _ _ _ _ _ _ _ Hr Eloop) as [Hr1 Hv1].
    bind_inv H as nd End. bind_inv H as [numMarkers [num0 num1]] Ecount.
    bind_inv H as c0 Ec0. bind_inv H as c1 Ec1. bind_inv H as h Eh.
    bind_inv H as closest Ecl. bind_inv H as [s3 pq3] Emerge.
    bind_inv H as nd3 End3.
    assert (Hr2 : registered D (set_Memory h s1)).
    { apply (registered_relinked D D _ _ Hr1); [|auto].
      apply (relinked_modify _ _ _ _ Eh). intros r.
      destruct (1 <? numMarkers); simpl; auto. }
    assert (Hr3 : registered D s3 ∧ view s3 = view s1).
    { destruct closest as [c|].
      - exact (MergeNodes_registered D _ _ _ _ _ _ _ Hr2 Emerge).
      - injection Emerge as <- <-. auto. }
    destruct Hr3 as [Hr3 Hv3].
    destruct (IH _ _ _ _ _ Hr3 H) as [Hr' Hv']. split; [exact Hr'|].
    congruence.
Qed.

(** [AddMarker] with clustering on keeps the bookkeeping, and leaves the
    settings and what [Update] materialized as they are. *)
Lemma AddMarker_registered (lat2y : Q → Q) (latitude longitude : Q)
    (s s' : vtkMapMarkerSet) (id : Z) :
  Clustering s = true → length (NodeTable (Internals s)) = 20%nat →
  registered (λ _, False) s →
  AddMarker lat2y latitude longitude s = Ok (id, s') →
  registered (λ _, False) s' ∧
  view s'
  = view (set_Internals
            (set_MarkersChanged true
               (set_Internals_NumberOfMarkers
                  (Internals_NumberOfMarkers (Internals s) + 1)
                  (Internals s))) s).
Proof.
  intros Hcl Hlen Hr H.
  destruct (lookup_lt_is_Some_2 (NodeTable (Internals s)) 19) as [X HX];
    [lia|].
  rewrite (AddMarker_clustering lat2y latitude longitude s X Hcl Hlen HX) in H.
  cbv zeta in H.
  set (a := length (AllNodes (Internals s))) in *.
  match type of H with
    context [AddMarker_insertion _ _ _ ?t] => set (sd := t) in *
  end.
  bind_inv H as [[s2 node] level] Hins.
  bind_inv H as nd Hnd. bind_inv H as s3 Href. injection H as <- <-.
  assert (Hrd : registered (λ k, k = a) sd).
  { apply (registered_weaken (λ k, False ∨ k = a)); [|tauto].
    apply (registered_insert (λ _, False) s sd 19 X
             (mkNode (NumberOfNodes (Internals s)) 19
                (longitude, lat2y latitude) None ∅ 1
                (Internals_NumberOfMarkers (Internals s))) Hr);
      try reflexivity; [lia|exact HX]. }
  destruct (insertion_registered 19 a (ClusterDistance (Internals s)) sd s2
              node level Hrd) as [Hr2 Hv2].
  { eexists. split; [unfold sd; simpl; apply lookup_insert_eq|reflexivity]. }
  { exact Hins. }
  destruct (refinement_registered _ _ _ _ _ _ _ Hr2 Href) as [Hr3 Hv3].
  split.
  - destruct Hr3. constructor; simpl; assumption.
  - unfold view in *. simpl in *. congruence.
Qed.

Lemma registered_same (D : nat → Prop) (s s' : vtkMapMarkerSet) :
  Memory s' = Memory s →
  NodeTable (Internals s') = NodeTable (Internals s) →
  AllNodes (Internals s') = AllNodes (Internals s) →
  NumberOfNodes (Internals s') = NumberOfNodes (Internals s) →
  registered D s → registered D s'.
Proof.
  intros Hm Ht Ha Hn [H1 H2 H3 H4 H5 H6].
  constructor; rewrite ?Hm, ?Ht, ?Ha, ?Hn; assumption.
Qed.

Lemma Update_arena (zoom : Z) (s s' : vtkMapMarkerSet) :
  Update zoom s = Ok s' →
  NumberOfNodes (Internals s') = NumberOfNodes (Internals s).
Proof.
  intros H. destruct (Update_skips zoom s) eqn:Hs.
  - rewrite (Update_skip _ _ Hs) in H. injection H as <-. reflexivity.
  - destruct (Update_rebuild _ _ _ Hs H) as (a & ns & m & _ & _ & _ & ->).
    reflexivity.
Qed.

(** Every state that the public operations reach keeps the bookkeeping. *)
Lemma reachable_registered (lat2y : Q → Q) (N : nat) (s : vtkMapMarkerSet) :
  reachable lat2y N s → registered (λ _, False) s.
Proof.
  induction 1 as [|N s Hr IH|N s s' latitude longitude id Hr IH Hadd
                  |N s s' zoom Hr IH Hup].
  - constructor; simpl.
    + intros p n Hn. rewrite lookup_empty in Hn. discriminate.
    + intros p n Hn. rewrite lookup_empty in Hn. discriminate.
    + intros p n Hn. rewrite lookup_empty in Hn. discriminate.
    + reflexivity.
    + intros i a Hi. rewrite lookup_nil in Hi. discriminate.
    + intros p [n Hn]. rewrite lookup_empty in Hn. discriminate.
  - revert IH. apply registered_same; reflexivity.
  - destruct (reachable_ok _ _ _ Hr) as ([Hst _] & _ & Hcl & _).
    exact (proj1 (AddMarker_registered _ _ _ _ _ _ Hcl (st_size s Hst) IH Hadd)).
  - destruct (Update_same_tree _ _ _ Hup) as (Hm & Ht & Ha & _ & _).
    revert IH. apply registered_same; try assumption.
    exact (Update_arena _ _ _ Hup).
Qed.

(** ** Every level accounts for every marker *)

Lemma count_over_parents (h : gmap nat ClusteringNode) (l : list nat) :
  NoDup l →
  (∀ p, p ∈ l → ∃ n, h !! p = Some n ∧
                     NumberOfMarkers n = children_count h (Children n)) →
  (∀ p q c, p ∈ l → q ∈ l → c ∈ kids_of h p → c ∈ kids_of h q → p = q) →
  sumZ (map (child_count h) l) = children_count h (⋃ (map (kids_of h) l)).
Proof.
  induction 1 as [|p l Hp Hnd IH]; intros Hok Hdisj; simpl.
  - reflexivity.
  - rewrite children_count_union.
    + rewrite IH.
      * f_equal. destruct (Hok p) as (n & Hn & Hc); [left|].
        unfold child_count, kids_of. rewrite Hn. exact Hc.
      * intros q Hq. apply Hok. right. exact Hq.
      * intros q1 q2 c H1 H2. apply Hdisj; right; assumption.
    + intros c Hc1 Hc2. apply elem_of_union_list in Hc2 as (X & HX & HcX).
      apply list_elem_of_fmap in HX as (q & -> & Hq).
      assert (p = q) by (apply (Hdisj p q c); [left|right|..]; assumption).
      subst q. exact (Hp Hq).
Qed.

(** The nodes of a level set are the children of the nodes of the next
    coarser level set. *)
Lemma level_children (s : vtkMapMarkerSet) (l : nat) (X Y : gset nat) :
  structure s → registered (λ _, False) s →
  NodeTable (Internals s) !! l = Some X →
  NodeTable (Internals s) !! S l = Some Y →
  ⋃ (map (kids_of (Memory s)) (elements X)) = Y.
Proof.
  intros Hst Hr HX HY.
  apply set_eq. intros c. rewrite elem_of_union_list. split.
  - intros (K & HK & Hc). apply list_elem_of_fmap in HK as (p & -> & Hp).
    apply elem_of_elements in Hp.
    destruct (st_table s Hst _ _ _ HX Hp) as (n & Hn & Hln).
    unfold kids_of in Hc. rewrite Hn in Hc.
    destruct (st_children s Hst _ _ _ Hn Hc) as (cn & Hcn & Hpar).
    destruct (st_parent s Hst _ _ _ Hcn Hpar) as (n' & Hn' & Hl' & _).
    rewrite Hn in Hn'. injection Hn' as <-.
    destruct (rg_table _ s Hr c cn Hcn) as (Z' & _ & HZ & Hin).
    replace (Z.to_nat (Level cn)) with (S l) in HZ by lia.
    rewrite HY in HZ. injection HZ as <-. exact Hin.
  - intros Hc. destruct (st_table s Hst _ _ _ HY Hc) as (cn & Hcn & Hlc).
    destruct (rg_parent _ s Hr c cn Hcn) as [[]|[p Hpar]]; [lia|].
    destruct (st_parent s Hst _ _ _ Hcn Hpar) as (n & Hn & Hln & Hin).
    destruct (rg_table _ s Hr p n Hn) as (Z' & _ & HZ & Hp).
    replace (Z.to_nat (Level n)) with l in HZ by lia.
    rewrite HX in HZ. injection HZ as <-.
    exists (kids_of (Memory s) p). split.
    + apply list_elem_of_fmap. exists p. split; [reflexivity|].
      apply elem_of_elements. exact Hp.
    + unfold kids_of. rewrite Hn. exact Hin.
Qed.

(** A node is the child of one node only. *)
Lemma children_apart (s : vtkMapMarkerSet) (p q c : nat) :
  structure s →
  c ∈ kids_of (Memory s) p → c ∈ kids_of (Memory s) q → p = q.
Proof.
  intros Hst Hp Hq. unfold kids_of in Hp, Hq.
  destruct (Memory s !! p) as [n|] eqn:Hn;
    [|exfalso; exact (not_elem_of_empty c Hp)].
  destruct (Memory s !! q) as [m|] eqn:Hm;
    [|exfalso; exact (not_elem_of_empty c Hq)].
  destruct (st_children s Hst _ _ _ Hn Hp) as (c1 & Hc1 & Hp1).
  destruct (st_children s Hst _ _ _ Hm Hq) as (c2 & Hc2 & Hp2).
  congruence.
Qed.

(** Two adjacent level sets stand for the same number of markers. *)
Lemma markers_in_step (s : vtkMapMarkerSet) (l : nat) (X Y : gset nat) :
  tree_ok s → registered (λ _, False) s →
  NodeTable (Internals s) !! l = Some X →
  NodeTable (Internals s) !! S l = Some Y →
  markers_in s X = markers_in s Y.
Proof.
  intros [Hst HJ] Hr HX HY.
  pose proof (st_size s Hst) as Hsize.
  assert (Hl : (S l < 20)%nat) by (apply lookup_lt_Some in HY; lia).
  unfold markers_in. rewrite count_over_parents.
  - unfold children_count.
    rewrite (level_children s l X Y Hst Hr HX HY). reflexivity.
  - apply NoDup_elements.
  - intros p Hp. apply elem_of_elements in Hp.
    destruct (st_table s Hst _ _ _ HX Hp) as (n & Hn & Hln).
    exists n. split; [exact Hn|].
    destruct (HJ p n Hn) as [_ Hok]; [tauto|tauto|].
    apply Hok. lia.
  - intros p q c _ _. apply (children_apart s p q c Hst).
Qed.

Lemma markers_in_leaves (s : vtkMapMarkerSet) (X : gset nat) :
  leaves_ok s → NodeTable (Internals s) !! 19%nat = Some X →
  markers_in s X = Internals_NumberOfMarkers (Internals s).
Proof.
  intros (leaves & Hnd & Htab & Hnum & Hleaves) HX.
  rewrite Htab in HX. injection HX as <-. rewrite Hnum.
  unfold markers_in.
  rewrite (sumZ_perm _ (map (child_count (Memory s)) leaves))
    by (apply Permutation_map, elements_list_to_set, Hnd).
  clear Hnd Htab Hnum.
  induction leaves as [|p leaves IH] using rev_ind; [reflexivity|].
  rewrite map_app, sumZ_app, length_app. simpl.
  rewrite IH.
  - destruct (Hleaves (length leaves) p) as (r & Hr & _ & Hc & _).
    { rewrite lookup_app_r by lia. rewrite Nat.sub_diag. reflexivity. }
    unfold child_count. rewrite Hr, Hc. lia.
  - intros i q Hi. apply (Hleaves i q). apply lookup_app_l_Some. exact Hi.
Qed.

Lemma markers_in_level (s : vtkMapMarkerSet) (k : nat) :
  tree_ok s → registered (λ _, False) s → leaves_ok s →
  ∀ (l : nat) (X : gset nat),
    (l + k = 19)%nat → NodeTable (Internals s) !! l = Some X →
    markers_in s X = Internals_NumberOfMarkers (Internals s).
Proof.
  intros Ht Hr Hl. induction k as [|k IH]; intros l X Hk HX.
  - replace l with 19%nat in HX by lia. exact (markers_in_leaves s X Hl HX).
  - destruct (lookup_lt_is_Some_2 (NodeTable (Internals s)) (S l)) as [Y HY].
    { rewrite (st_size s (proj1 Ht)). lia. }
    rewrite (markers_in_step s l X Y Ht Hr HX HY).
    apply (IH (S l)); [lia|exact HY].
Qed.

Lemma markers_in_any (s : vtkMapMarkerSet) (l : nat) (X : gset nat) :
  tree_ok s → registered (λ _, False) s → leaves_ok s →
  NodeTable (Internals s) !! l = Some X →
  markers_in s X = Internals_NumberOfMarkers (Internals s).
Proof.
  intros Ht Hr Hl HX.
  assert (Hlt : (l < 20)%nat).
  { apply lookup_lt_Some in HX. rewrite (st_size s (proj1 Ht)) in HX. lia. }
  apply (markers_in_level s (19 - l) Ht Hr Hl l X); [lia|exact HX].
Qed.

(** ** Coarser levels hold fewer nodes *)

Lemma size_over_parents (h : gmap nat ClusteringNode) (l : list nat) :
  NoDup l →
  (∀ p, p ∈ l → kids_of h p ≠ ∅) →
  (∀ p q c, p ∈ l → q ∈ l → c ∈ kids_of h p → c ∈ kids_of h q → p = q) →
  (length l ≤ size (⋃ (map (kids_of h) l)))%nat.
Proof.
  induction 1 as [|p l Hp Hnd IH]; intros Hne Hdisj; simpl.
  - lia.
  - rewrite size_union.
    + assert (size (kids_of h p) ≠ 0%nat).
      { intros H0. apply size_empty_inv in H0.
        apply (Hne p); [left|]. apply leibniz_equiv. exact H0. }
      assert (length l ≤ size (⋃ (map (kids_of h) l)))%nat.
      { apply IH.
        - intros q Hq. apply Hne. right. exact Hq.
        - intros q1 q2 c H1 H2. apply Hdisj; right; assumption. }
      lia.
    + intros c Hc1 Hc2. apply elem_of_union_list in Hc2 as (X & HX & HcX).
      apply list_elem_of_fmap in HX as (q & -> & Hq).
      assert (p = q) by (apply (Hdisj p q c); [left|right|..]; assumption).
      subst q. exact (Hp Hq).
Qed.

Lemma children_count_empty (h : gmap nat ClusteringNode) :
  children_count h ∅ = 0.
Proof. unfold children_count. rewrite elements_empty. reflexivity. Qed.

(** A node below the finest level has a child. *)
Lemma has_child (s : vtkMapMarkerSet) (p : nat) (n : ClusteringNode) :
  tree_ok s → Memory s !! p = Some n → Level n < 19 → Children n ≠ ∅.
Proof.
  intros [Hst HJ] Hn Hl He.
  destruct (HJ p n Hn) as [Hpos Hok]; [tauto|tauto|].
  destruct (Hok Hl) as (Hc & _). rewrite He, children_count_empty in Hc. lia.
Qed.

Lemma level_size_step (s : vtkMapMarkerSet) (l : nat) (X Y : gset nat) :
  tree_ok s → registered (λ _, False) s →
  NodeTable (Internals s) !! l = Some X →
  NodeTable (Internals s) !! S l = Some Y →
  (size X ≤ size Y)%nat.
Proof.
  intros Ht Hr HX HY. pose proof Ht as [Hst HJ].
  assert (Hl : (S l < 20)%nat).
  { apply lookup_lt_Some in HY. rewrite (st_size s Hst) in HY. lia. }
  rewrite <- (level_children s l X Y Hst Hr HX HY).
  change (size X) with (length (elements X)).
  apply size_over_parents.
  - apply NoDup_elements.
  - intros p Hp. apply elem_of_elements in Hp.
    destruct (st_table s Hst _ _ _ HX Hp) as (n & Hn & Hln).
    unfold kids_of. rewrite Hn. apply (has_child s p n Ht Hn). lia.
  - intros p q c _ _. apply (children_apart s p q c Hst).
Qed.

(** ** Cleanup *)

Lemma free_loop (l : list nat) :
  ∀ h : gmap nat ClusteringNode,
    NoDup l → (∀ p, p ∈ l → is_Some (h !! p)) →
    ∃ h', foldlM free h l = Ok h' ∧
      ∀ k, h' !! k = if decide (k ∈ l) then None else h !! k.
Proof.
  induction l as [|p l IH]; intros h Hnd Hlive.
  - exists h. split; [reflexivity|]. intros k.
    destruct (decide (k ∈ [])) as [Hk|_]; [|reflexivity].
    apply not_elem_of_nil in Hk. destruct Hk.
  - apply NoDup_cons in Hnd as [Hp Hnd].
    destruct (Hlive p) as [n Hn]; [left|].
    assert (E : free h p = Ok (delete p h)).
    { unfold free. rewrite (load_Some _ _ _ Hn). reflexivity. }
    change (foldlM free h (p :: l))
      with (free h p ≫= λ h1, foldlM free h1 l).
    rewrite (bind_Ok_l _ _ _ E).
    destruct (IH (delete p h) Hnd) as (h' & -> & Hh').
    { intros q Hq. rewrite lookup_delete_ne by (intros ->; tauto).
      apply Hlive. right. exact Hq. }
    exists h'. split; [reflexivity|]. intros k. rewrite Hh'.
    destruct (decide (k = p)) as [->|Hne].
    + rewrite (decide_True (P := p ∈ p :: l)) by left.
      rewrite lookup_delete_eq. destruct (decide (p ∈ l)); reflexivity.
    + rewrite lookup_delete_ne by auto.
      destruct (decide (k ∈ l)) as [Hk|Hk].
      * rewrite decide_True by (right; exact Hk). reflexivity.
      * rewrite decide_False; [reflexivity|].
        intros Hk'. apply elem_of_cons in Hk' as [?|?]; tauto.
Qed.

Lemma Cleanup_loop (table : list (gset nat)) :
  ∀ (h : gmap nat ClusteringNode) (done : list (gset nat)),
    (∀ i X p, table !! i = Some X → p ∈ X →
       is_Some (h !! p) ∧
       ∀ j Y, table !! j = Some Y → p ∈ Y → i = j) →
    ∃ h', foldlM Cleanup_level (h, done) table
          = Ok (h', done ++ replicate (length table) ∅) ∧
      ∀ k, h' !! k = if decide (k ∈ ⋃ table) then None else h !! k.
Proof.
  induction table as [|X table IH]; intros h done Hok.
  - exists h. simpl. rewrite app_nil_r. split; [reflexivity|]. intros k.
    destruct (decide (k ∈ ∅)) as [Hk|_]; [|reflexivity].
    apply not_elem_of_empty in Hk. destruct Hk.
  - destruct (free_loop (elements X) h) as (h1 & E1 & Hh1).
    { apply NoDup_elements. }
    { intros p Hp. apply elem_of_elements in Hp.
      exact (proj1 (Hok 0%nat X p eq_refl Hp)). }
    assert (E : Cleanup_level (h, done) X = Ok (h1, done ++ [∅])).
    { unfold Cleanup_level. rewrite E1. reflexivity. }
    change (foldlM Cleanup_level (h, done) (X :: table))
      with (Cleanup_level (h, done) X ≫= λ a, foldlM Cleanup_level a table).
    rewrite (bind_Ok_l _ _ _ E).
    destruct (IH h1 (done ++ [∅])) as (h' & E' & Hh').
    { intros i Y p HY Hp.
      destruct (Hok (S i) Y p HY Hp) as [Hlive Huniq]. split.
      - rewrite Hh1. rewrite decide_False; [exact Hlive|].
        rewrite elem_of_elements. intros HpX.
        specialize (Huniq 0%nat X eq_refl HpX). discriminate.
      - intros j Y' HY' Hp'. specialize (Huniq (S j) Y' HY' Hp'). lia. }
    exists h'. split.
    + rewrite E'. rewrite <- app_assoc. reflexivity.
    + intros k. rewrite Hh', Hh1.
      change (⋃ (X :: table)) with (X ∪ ⋃ table).
      destruct (decide (k ∈ X)) as [HkX|HkX].
      * rewrite (decide_True (P := k ∈ X ∪ ⋃ table))
          by (apply elem_of_union_l; exact HkX).
        rewrite (decide_True (P := k ∈ elements X))
          by (apply elem_of_elements; exact HkX).
        destruct (decide (k ∈ ⋃ table)); reflexivity.
      * rewrite (decide_False (P := k ∈ elements X))
          by (rewrite elem_of_elements; exact HkX).
        destruct (decide (k ∈ ⋃ table)) as [Hk|Hk].
        -- rewrite decide_True by (apply elem_of_union_r; exact Hk).
           reflexivity.
        -- rewrite decide_False; [reflexivity|].
           rewrite elem_of_union. tauto.
Qed.

(** On a well-shaped tree [Cleanup] returns: no node is in two level sets,
    so no node is deleted twice.  It frees the nodes of the level sets. *)
Lemma Cleanup_structure (s : vtkMapMarkerSet) :
  structure s →
  ∃ h, Cleanup s
       = Ok (mkMarkerSet (Initialized s) (Clustering s)
               (MaxClusterScaleFactor s)
               (mkInternals true [] (ZoomLevel (Internals s))
                  (replicate 20 ∅) 0 (ClusterDistance (Internals s)) 0
                  (AllNodes (Internals s)))
               (Points s) (PointData s) h) ∧
    ∀ k, h !! k = if decide (k ∈ ⋃ NodeTable (Internals s)) then None
                  else Memory s !! k.
Proof.
  intros Hst. unfold Cleanup. cbv zeta.
  destruct (Cleanup_loop (NodeTable (Internals s)) (Memory s) [])
    as (h & E & Hh).
  { intros i X p HX Hp.
    destruct (st_table s Hst _ _ _ HX Hp) as (n & Hn & Hl). split; [eauto|].
    intros j Y HY Hp'.
    destruct (st_table s Hst _ _ _ HY Hp') as (n' & Hn' & Hl').
    rewrite Hn in Hn'. injection Hn' as <-. lia. }
  exists h. rewrite E. simpl. rewrite (st_size s Hst). split; [reflexivity|].
  exact Hh.
Qed.

(** ** What AddMarker leaves alone *)

Lemma merge_loop_view (node : nat) (level : Z) (l : list nat) :
  ∀ (s : vtkMapMarkerSet) (pq : gset nat) (s' : vtkMapMarkerSet)
    (pq' : gset nat),
    foldlM (AddMarker_merge node level) (s, pq) l = Ok (s', pq') →
    view s' = view s.
Proof.
  induction l as [|x l IH]; intros s pq s' pq' H; simpl in H.
  - injection H as <- <-. reflexivity.
  - bind_inv H as [s1 pq1] E. unfold AddMarker_merge in E. simpl in E.
    rewrite (IH _ _ _ _ H). destruct (decide (node = x)).
    + injection E as <- <-. reflexivity.
    + destruct (MergeNodes_raw _ _ _ _ _ _ _ E)
        as (? & ? & ? & _ & _ & _ & _ & _ & _ & _ & _ & _ & _ & Hv).
      exact Hv.
Qed.

Lemma refinement_view (n : nat) :
  ∀ (node : option nat) (nodesToMerge : gset nat) (threshold : Q)
    (s s' : vtkMapMarkerSet),
    AddMarker_refinement n node nodesToMerge threshold s = Ok s' →
    view s' = view s.
Proof.
  induction n as [|l IH]; intros node Qs thr s s' H; simpl in H.
  - injection H as <-. reflexivity.
  - destruct node as [node|]; [|discriminate].
    bind_inv H as [s1 pq1] Eloop. bind_inv H as nd End.
    bind_inv H as [numMarkers [num0 num1]] Ecount.
    bind_inv H as c0 Ec0. bind_inv H as c1 Ec1. bind_inv H as h Eh.
    bind_inv H as closest Ecl. bind_inv H as [s3 pq3] Emerge.
    bind_inv H as nd3 End3.
    rewrite (IH _ _ _ _ _ H).
    assert (Hv3 : view s3 = view (set_Memory h s1)).
    { destruct closest as [c|].
      - destruct (MergeNodes_raw _ _ _ _ _ _ _ Emerge)
          as (? & ? & ? & _ & _ & _ & _ & _ & _ & _ & _ & _ & _ & Hv).
        exact Hv.
      - injection Emerge as <- <-. reflexivity. }
    rewrite Hv3. exact (merge_loop_view _ _ _ _ _ _ _ Eloop).
Qed.

Lemma insertion_view (n : nat) :
  ∀ (node : nat) (threshold : Q) (s s' : vtkMapMarkerSet) (node' : nat)
    (level' : Z),
    AddMarker_insertion n node threshold s = Ok (s', node', level') →
    view s' = view s.
Proof.
  induction n as [|l IH]; intros node thr s s' node' level' H; simpl in H.
  - injection H as <- <- <-. reflexivity.
  - bind_inv H as closest Ecl. destruct closest as [c|].
    + bind_inv H as rc Erc. bind_inv H as nd End.
      bind_inv H as c0 Ec0. bind_inv H as c1 Ec1.
      bind_inv H as h1 Eh1. bind_inv H as h2 Eh2. injection H as <- <- <-.
      reflexivity.
    + bind_inv H as nd End. unfold new_node in H. cbv zeta in H.
      bind_inv H as s2 Es2. bind_inv H as h Eh.
      unfold table_insert in Es2. bind_inv Es2 as X EX.
      bind_inv Es2 as table Etab. injection Es2 as <-.
      rewrite (IH _ _ _ _ _ _ H). reflexivity.
Qed.

(** [AddMarker] in either mode: the id is the marker count, which grows by
    one; the changed flag is set; the rest of the view stays. *)
Lemma AddMarker_view (lat2y : Q → Q) (latitude longitude : Q)
    (s s' : vtkMapMarkerSet) (id : Z) :
  AddMarker lat2y latitude longitude s = Ok (id, s') →
  id = Internals_NumberOfMarkers (Internals s) ∧
  view s'
  = view (set_Internals
            (set_MarkersChanged true
               (set_Internals_NumberOfMarkers
                  (Internals_NumberOfMarkers (Internals s) + 1)
                  (Internals s))) s).
Proof.
  unfold AddMarker, new_node. cbv zeta. intros H.
  bind_inv H as s1 E. injection H as <- <-. split; [reflexivity|].
  simpl in E. destruct (Clustering s) eqn:Hcl.
  - bind_inv E as h Eh. bind_inv E as s2 Es2.
    bind_inv E as [[s3 node] level] Eins. bind_inv E as nd End.
    unfold table_insert in Es2. bind_inv Es2 as X EX.
    bind_inv Es2 as table Etab. injection Es2 as <-.
    pose proof (refinement_view _ _ _ _ _ _ E) as Hv4.
    pose proof (insertion_view _ _ _ _ _ _ _ Eins) as Hv3.
    unfold view in *. simpl in *. congruence.
  - injection E as <-. unfold view. simpl. rewrite Hcl. reflexivity.
Qed.

(** ** Update: when it returns and what it shows *)

Lemma Update_emit_total (h : gmap nat ClusteringNode) (k : float)
    (l : list nat) :
  ∀ acc : Materialized,
    (∀ p, p ∈ l → is_Some (h !! p)) →
    ∃ m, foldlM (Update_emit h k) acc l = Ok m.
Proof.
  induction l as [|p l IH]; intros acc Hok.
  - exists acc. reflexivity.
  - destruct (Hok p) as (nd & Hnd); [left|].
    assert (E : ∃ acc', Update_emit h k acc p = Ok acc').
    { unfold Update_emit. rewrite (load_Some _ _ _ Hnd). simpl.
      destruct (NumberOfMarkers nd =? 1); eauto. }
    destruct E as (acc' & E).
    change (foldlM (Update_emit h k) acc (p :: l))
      with (Update_emit h k acc p ≫= λ a, foldlM (Update_emit h k) a l).
    rewrite (bind_Ok_l _ _ _ E). apply IH.
    intros q Hq. apply Hok. right. exact Hq.
Qed.

Lemma Update_rebuild_Ok (zoom : Z) (s : vtkMapMarkerSet)
    (arrays : MarkerArrays) (nodeSet : gset nat) (m : Materialized) :
  Update_skips zoom s = false → PointData s = Some arrays →
  at_index (NodeTable (Internals s))
           (if negb (Clustering s) then 0 else clip_zoom zoom) = Ok nodeSet →
  foldlM (Update_emit (Memory s) (MaxClusterScaleFactor s))
         (mkMaterialized [] [] [] [] []) (elements nodeSet) = Ok m →
  ∃ s', Update zoom s = Ok s'.
Proof.
  intros Hs Hpd Hat Hm. unfold Update_skips in Hs. unfold Update. cbv zeta.
  apply orb_false_iff in Hs as [Hs1 Hs2]. rewrite Hs1, Hs2, Hpd. simpl.
  rewrite Hat. simpl. rewrite Hm. simpl. eauto.
Qed.

Lemma clip_zoom_range (zoom : Z) : 0 ≤ zoom → 0 ≤ clip_zoom zoom ≤ 19.
Proof.
  unfold clip_zoom, NumberOfClusterLevels. destruct (Z.leb_spec 20 zoom); lia.
Qed.

Lemma clip_zoom_finest (zoom : Z) : 19 ≤ zoom → clip_zoom zoom = 19.
Proof.
  unfold clip_zoom, NumberOfClusterLevels. destruct (Z.leb_spec 20 zoom); lia.
Qed.

(** What a rebuild stores: the nodes of the level set, in the order of the
    loop, each with its entry. *)
Lemma Update_rebuilt (zoom : Z) (s s' : vtkMapMarkerSet) :
  Update_skips zoom s = false → Update zoom s = Ok s' →
  let level := if negb (Clustering s) then 0 else clip_zoom zoom in
  ∃ nodeSet es,
    0 ≤ level ∧
    NodeTable (Internals s) !! Z.to_nat level = Some nodeSet ∧
    Forall2 (entry_of (Memory s) (MaxClusterScaleFactor s))
            (elements nodeSet) es ∧
    CurrentNodes (Internals s') = elements nodeSet ∧
    Points s' = map e_point es ∧
    PointData s'
    = Some (mkArrays (map e_color es) (map e_type es) (map e_scale es)) ∧
    Memory s' = Memory s ∧
    MarkersChanged (Internals s') = false ∧
    ZoomLevel (Internals s') = level.
Proof.
  intros Hs H level.
  destruct (Update_rebuild _ _ _ Hs H) as (ar & X & m & _ & Hat & Hm & ->).
  apply Update_emit_loop in Hm as (es & Hes & ->).
  apply at_index_Ok in Hat as [Hlev HX].
  exists X, es. simpl. auto 10.
Qed.

Lemma factor_same_tree (k : float) (s : vtkMapMarkerSet) :
  same_tree s (set_MaxClusterScaleFactor k s).
Proof. repeat split. Qed.

(** [Update] returns on a well-linked tree with clustering on. *)
Lemma Update_returns_on (zoom : Z) (s : vtkMapMarkerSet)
    (arrays : MarkerArrays) :
  structure s → Clustering s = true → PointData s = Some arrays → 0 ≤ zoom →
  ∃ s', Update zoom s = Ok s'.
Proof.
  intros Hst Hcl Hpd Hz.
  destruct (Update_skips zoom s) eqn:Hs.
  { exists s. exact (Update_skip _ _ Hs). }
  pose proof (clip_zoom_range zoom Hz) as Hrange.
  destruct (lookup_lt_is_Some_2 (NodeTable (Internals s))
              (Z.to_nat (clip_zoom zoom))) as [X HX].
  { rewrite (st_size s Hst). lia. }
  destruct (Update_emit_total (Memory s) (MaxClusterScaleFactor s)
              (elements X) (mkMaterialized [] [] [] [] [])) as (m & Hm).
  { intros p Hp. apply elem_of_elements in Hp.
    destruct (st_table s Hst _ _ _ HX Hp) as (nd & Hnd & _). eauto. }
  apply (Update_rebuild_Ok zoom s arrays X m Hs Hpd); [|exact Hm].
  rewrite Hcl. simpl. apply at_index_Ok. split; [lia|exact HX].
Qed.

(** ** Positions of the nodes *)

Lemma pos_kept_refl (x : nat) (h : gmap nat ClusteringNode) : pos_kept x h h.
Proof. intros k r Hk. eauto. Qed.

Lemma pos_kept_trans (x : nat) (h1 h2 h3 : gmap nat ClusteringNode) :
  pos_kept x h1 h2 → pos_kept x h2 h3 → pos_kept x h1 h3.
Proof.
  intros H12 H23 k r3 Hk. destruct (H23 k r3 Hk) as (r2 & Hr2 & E23).
  destruct (H12 k r2 Hr2) as (r1 & Hr1 & E12). exists r1.
  split; [exact Hr1|]. intros Hne. rewrite (E23 Hne). exact (E12 Hne).
Qed.

Lemma pos_kept_modify (x : nat) (h h' : gmap nat ClusteringNode)
    (p : option nat) (f : ClusteringNode → ClusteringNode) :
  modify h p f = Ok h' →
  p = Some x ∨ (∀ r, gcsCoords (f r) = gcsCoords r) →
  pos_kept x h h'.
Proof.
  intros H Hf. apply modify_Ok in H as (a & n & -> & Hn & ->). intros k r' Hk.
  destruct (decide (a = k)) as [<-|Hne].
  - rewrite lookup_insert_eq in Hk. injection Hk as <-. exists n.
    split; [exact Hn|]. intros Hax. destruct Hf as [[= ->]|Hf]; [done|apply Hf].
  - rewrite lookup_insert_ne in Hk by done. eauto.
Qed.

Lemma pos_kept_relink (x node : nat) (l : list nat)
    (h h' : gmap nat ClusteringNode) :
  foldlM (MergeNodes_relink node) h l = Ok h' → pos_kept x h h'.
Proof.
  revert h. induction l as [|c l IH]; intros h H; simpl in H.
  - injection H as <-. apply pos_kept_refl.
  - bind_inv H as h1 E. unfold MergeNodes_relink in E. bind_inv E as h0 E0.
    eapply pos_kept_trans; [|exact (IH _ H)].
    eapply pos_kept_trans.
    + apply (pos_kept_modify _ _ _ _ _ E0). right. reflexivity.
    + apply (pos_kept_modify _ _ _ _ _ E). right. reflexivity.
Qed.

(** A merge moves no node but [node]. *)
Lemma MergeNodes_pos_kept (node mergingNode : nat) (parentsToMerge : gset nat)
    (level : Z) (s s' : vtkMapMarkerSet) (parentsToMerge' : gset nat) :
  MergeNodes node mergingNode parentsToMerge level s
  = Ok (s', parentsToMerge') →
  pos_kept node (Memory s) (Memory s').
Proof.
  unfold MergeNodes. cbv zeta. intros H.
  bind_inv H as n0 En0. bind_inv H as m0 Em0.
  bind_inv H as c0 Ec0. bind_inv H as c1 Ec1.
  bind_inv H as h1 Eh1. bind_inv H as m1 Em1.
  bind_inv H as h2 Eh2. bind_inv H as m2 Em2. bind_inv H as n2 En2.
  bind_inv H as h3 Eh3. bind_inv H as m3 Em3.
  bind_inv H as h4 Eh4. bind_inv H as m4 Em4.
  bind_inv H as h5 Eh5. bind_inv H as m5 Em5. bind_inv H as n5 En5.
  bind_inv H as nodeSet Ens. bind_inv H as table Etab.
  bind_inv H as all Eall. injection H as <- <-. simpl.
  assert (R : pos_kept node (Memory s) h5).
  { eapply pos_kept_trans;
      [apply (pos_kept_modify _ _ _ _ _ Eh1); left; reflexivity|].
    eapply pos_kept_trans; [exact (pos_kept_relink _ _ _ _ _ Eh2)|].
    eapply pos_kept_trans;
      [apply (pos_kept_modify _ _ _ _ _ Eh3); right; reflexivity|].
    eapply pos_kept_trans;
      [apply (pos_kept_modify _ _ _ _ _ Eh4); right; reflexivity|].
    apply (pos_kept_modify _ _ _ _ _ Eh5). right. reflexivity. }
  intros k r' Hk. apply lookup_delete_Some in Hk as [_ Hk]. exact (R k r' Hk).
Qed.

Lemma merge_loop_pos_kept (x : nat) (level : Z) (l : list nat) :
  ∀ (s : vtkMapMarkerSet) (pq : gset nat) (s' : vtkMapMarkerSet)
    (pq' : gset nat),
    foldlM (AddMarker_merge x level) (s, pq) l = Ok (s', pq') →
    pos_kept x (Memory s) (Memory s').
Proof.
  induction l as [|y l IH]; intros s pq s' pq' H; simpl in H.
  - injection H as <- <-. apply pos_kept_refl.
  - bind_inv H as [s1 pq1] E. unfold AddMarker_merge in E. simpl in E.
    eapply pos_kept_trans; [|exact (IH _ _ _ _ H)].
    destruct (decide (x = y)).
    + injection E as <- <-. apply pos_kept_refl.
    + exact (MergeNodes_pos_kept _ _ _ _ _ _ _ E).
Qed.

Lemma leaves_stay_refl (s : vtkMapMarkerSet) : leaves_stay s s.
Proof. intros k r Hk Hl. exists r. auto. Qed.

Lemma leaves_stay_trans (s1 s2 s3 : vtkMapMarkerSet) :
  leaves_stay s1 s2 → leaves_stay s2 s3 → leaves_stay s1 s3.
Proof.
  intros H12 H23 k r Hk Hl.
  destruct (H12 k r Hk Hl) as (r2 & Hr2 & Hl2 & E1 & E2 & E3).
  destruct (H23 k r2 Hr2 Hl2) as (r3 & Hr3 & Hl3 & F1 & F2 & F3).
  exists r3. repeat split; congruence.
Qed.

(** From what a step keeps and what it moves. *)
Lemma leaves_stay_step (x : nat) (s s' : vtkMapMarkerSet) :
  kept s s' → pos_kept x (Memory s) (Memory s') →
  (∀ r, Memory s !! x = Some r → Level r ≠ 19) →
  leaves_stay s s'.
Proof.
  intros Hk Hp Hx k r Hr Hl.
  destruct (k_leaves s s' Hk k r Hr Hl) as (r' & Hr' & Hl' & Hc & Hm).
  exists r'. split; [exact Hr'|]. split; [exact Hl'|].
  split; [|auto].
  destruct (Hp k r' Hr') as (r0 & Hr0 & E). rewrite Hr in Hr0.
  injection Hr0 as <-. apply E. intros ->. exact (Hx r Hr Hl).
Qed.

(** One round of the refinement loop, from the state at its start to the
    state at its end. *)
Lemma round_ok (l : nat) (x : nat) (Qs : gset nat) (threshold : Q)
    (s s1 : vtkMapMarkerSet) (pq1 : gset nat) (nx1 : ClusteringNode)
    (N : Z) (num0 num1 c0 c1 : Q) (closest : option nat)
    (s3 : vtkMapMarkerSet) (pq3 : gset nat) (nd3 : ClusteringNode) :
  (l ≤ 18)%nat →
  refine_inv (Z.of_nat l) (Some x) Qs s →
  foldlM (AddMarker_merge x (Z.of_nat l)) (s, ∅) (elements Qs)
  = Ok (s1, pq1) →
  Memory s1 !! x = Some nx1 →
  foldlM (AddMarker_count (Memory s1)) (0, (0%Q, 0%Q))
         (elements (Children nx1)) = Ok (N, (num0, num1)) →
  fdiv num0 (inject_Z N) = Ok c0 → fdiv num1 (inject_Z N) = Ok c1 →
  let s2 :=
    set_Memory
      (<[x := set_gcsCoords (c0, c1)
                ((if 1 <? N then set_MarkerId (-1) else id)
                   (set_NumberOfMarkers N nx1))]> (Memory s1)) s1 in
  FindClosestNode x (Z.of_nat l) threshold s2 = Ok closest →
  match closest with
  | Some c => MergeNodes x c pq1 (Z.of_nat l) s2
  | None => Ok (s2, pq1)
  end = Ok (s3, pq3) →
  Memory s3 !! x = Some nd3 →
  refine_inv (Z.of_nat l - 1) (Parent nd3) pq3 s3 ∧ kept s s3.
Proof.
  intros Hn Hinv Eloop Hx1 Ecount Ec0 Ec1 s2 Efind Emerge Hx3.
  set (level := Z.of_nat l) in *.
  assert (Hle : level ≤ 18) by (unfold level; lia).
  destruct Hinv as [Hst HJ Hlev Hapart].
  set (P := match Memory s !! x with Some nx => Parent nx | None => None end).
  assert (Hinv0 : merging_inv x level P Qs ∅ s).
  { constructor.
    - exact Hst.
    - intros nx Hnx. split; [apply (Hlev x nx (or_introl eq_refl) Hnx)|].
      unfold P. rewrite Hnx. reflexivity.
    - revert HJ. apply consistent_weaken. intros k [[= ->]|Hk]; auto.
    - intros k r Hk Hr. apply (Hlev k r (or_intror Hk) Hr).
    - intros k Hk. exfalso. exact (not_elem_of_empty k Hk).
    - intros k r HP Hr. unfold P in HP.
      destruct (Memory s !! x) as [nx|] eqn:Hnx; [|discriminate].
      destruct (st_parent s Hst _ _ _ Hnx HP) as (pr & Hpr & Hlp & _).
      rewrite Hr in Hpr. injection Hpr as <-.
      rewrite (Hlev x nx (or_introl eq_refl) Hnx) in Hlp. exact Hlp. }
  destruct (merging_loop x level P Qs (Hapart x eq_refl) Hle
              (elements Qs) s ∅ s1 pq1) as (Hinv1 & Hk1 & Hdead1 & HQ1).
  { intros M HM. apply elem_of_elements. exact HM. }
  { exact Hinv0. }
  { exact Eloop. }
  destruct (recompute_ok x level P Qs pq1 s1 nx1 N num0 num1 c0 c1
              Hinv1 Hle Hx1 Ecount Ec0 Ec1) as (Hinv2 & Hok2 & Hk2 & Hoth2).
  cbv zeta in Hinv2, Hok2, Hk2, Hoth2. fold s2 in Hinv2, Hk2, Hoth2.
  match type of Hok2 with node_ok _ ?r => set (nx2 := r) in * end.
  assert (Hx2 : Memory s2 !! x = Some nx2) by apply lookup_insert_eq.
  assert (HQ2 : ∀ M, M ∈ Qs → Memory s2 !! M = None).
  { intros M HM. rewrite Hoth2.
    - apply HQ1, elem_of_elements, HM.
    - intros ->. apply (Hapart x eq_refl HM). }
  assert (Hend : refine_inv (level - 1) P pq3 s3 ∧ kept s2 s3 ∧
                 Parent nd3 = P).
  { destruct closest as [y|].
    - apply FindClosestNode_elem in Efind as (ns & _ & Hns & Hy & Hyx).
      pose proof (mi_structure _ _ _ _ _ _ Hinv2) as Hst2.
      destruct (st_table s2 Hst2 _ _ _ Hns Hy) as (ny & Hny & Hly).
      assert (Hly' : Level ny = level) by (unfold level; lia).
      assert (HyQ : y ∉ Qs).
      { intros HyQ. rewrite (HQ2 y HyQ) in Hny. discriminate. }
      assert (Hoky : node_ok (Memory s2) ny).
      { apply (merging_peer_ok x level P Qs pq1 s2 y ny); auto. }
      assert (Hinv2' : merging_inv x level P (Qs ∪ {[y]}) pq1 s2).
      { destruct Hinv2 as [? Hnode2 HJ2 Hqueue2 Hpar2 HPl2].
        constructor; try assumption.
        - revert HJ2. apply consistent_weaken.
          intros k [->|[Hk|[Hk|Hk]]]; auto. right. left.
          apply elem_of_union_l. exact Hk.
        - intros k r Hk Hr. apply elem_of_union in Hk as [Hk|Hk].
          + apply (Hqueue2 k r Hk Hr).
          + apply elem_of_singleton in Hk as ->. congruence. }
      destruct (merging_step x level P (Qs ∪ {[y]}) y s2 pq1 s3 pq3)
        as (Hinv3 & Hk3 & Hdead3 & Hy3 & nx' & ny' & nx3 & Hx' & Hy' & Hx3'
            & Hok3); auto.
      { apply elem_of_union_r, elem_of_singleton. reflexivity. }
      rewrite Hx2 in Hx'. injection Hx' as <-.
      rewrite Hny in Hy'. injection Hy' as <-.
      rewrite Hx3 in Hx3'. injection Hx3' as <-.
      split; [|split; [exact Hk3|]].
      + apply (round_end x level P (Qs ∪ {[y]}) pq3 s3 nd3); auto.
        intros M HM. apply elem_of_union in HM as [HM|HM].
        * apply Hdead3, HQ2, HM.
        * apply elem_of_singleton in HM as ->. exact Hy3.
      + apply (mi_node _ _ _ _ _ _ Hinv3 nd3 Hx3).
    - injection Emerge as <- <-.
      rewrite Hx2 in Hx3. injection Hx3 as <-.
      split; [|split; [apply kept_refl|]].
      + apply (round_end x level P Qs pq1 s2 nx2); auto.
      + apply (mi_node _ _ _ _ _ _ Hinv2 nx2 Hx2). }
  destruct Hend as (Hinv3 & Hk3 & HP3). rewrite HP3.
  split; [exact Hinv3|].
  apply (kept_trans _ _ _ Hk1), (kept_trans _ _ _ Hk2), Hk3.
Qed.

(** The refinement loop leaves the nodes of the finest level where they
    are. *)
Lemma refinement_stay (n : nat) :
  ∀ (node : option nat) (Qs : gset nat) (threshold : Q)
    (s s' : vtkMapMarkerSet),
    (n ≤ 19)%nat →
    refine_inv (Z.of_nat n - 1) node Qs s →
    AddMarker_refinement n node Qs threshold s = Ok s' →
    leaves_stay s s'.
Proof.
  induction n as [|l IH]; intros node Qs thr s s' Hn Hinv H.
  - simpl in H. injection H as <-. apply leaves_stay_refl.
  - simpl in H. destruct node as [x|]; [|discriminate].
    replace (Z.of_nat (S l) - 1) with (Z.of_nat l) in Hinv by lia.
    bind_inv H as [s1 pq1] Eloop.
    bind_inv H as nx1 Hx1. apply load_Ok in Hx1 as (? & [= <-] & Hx1).
    bind_inv H as [N [num0 num1]] Ecount.
    bind_inv H as c0 Ec0. bind_inv H as c1 Ec1. bind_inv H as h2 Emod.
    apply modify_Ok in Emod as (? & nx1' & [= <-] & Hx1' & ->).
    rewrite Hx1 in Hx1'. injection Hx1' as <-.
    bind_inv H as closest Efind. bind_inv H as [s3 pq3] Emerge.
    bind_inv H as nd3 Hx3. apply load_Ok in Hx3 as (? & [= <-] & Hx3).
    destruct (round_ok l x Qs thr s s1 pq1 nx1 N num0 num1 c0 c1 closest
                s3 pq3 nd3 ltac:(lia) Hinv Eloop Hx1 Ecount Ec0 Ec1 Efind
                Emerge Hx3) as [Hinv3 Hk3].
    apply (leaves_stay_trans s s3 s'); [|exact (IH _ _ _ _ _ ltac:(lia) Hinv3 H)].
    apply (leaves_stay_step x s s3 Hk3).
    + match type of Efind with
        FindClosestNode _ _ _ ?t = _ => set (s2 := t) in *
      end.
      assert (P12 : pos_kept x (Memory s1) (Memory s2)).
      { intros k r' Hk. unfold s2 in Hk. simpl in Hk.
        destruct (decide (x = k)) as [<-|Hne].
        - exists nx1. split; [exact Hx1|]. tauto.
        - rewrite lookup_insert_ne in Hk by exact Hne. eauto. }
      assert (P23 : pos_kept x (Memory s2) (Memory s3)).
      { destruct closest as [c|].
        - exact (MergeNodes_pos_kept _ _ _ _ _ _ _ Emerge).
        - injection Emerge as <- <-. apply pos_kept_refl. }
      exact (pos_kept_trans _ _ _ _
               (merge_loop_pos_kept _ _ _ _ _ _ _ Eloop)
               (pos_kept_trans _ _ _ _ P12 P23)).
    + intros r Hr. pose proof (ri_level _ _ _ _ Hinv x r (or_introl eq_refl) Hr).
      lia.
Qed.

Lemma leaves_stay_kept (s s' : vtkMapMarkerSet) :
  kept s s' →
  (∀ k r r', Memory s !! k = Some r → Memory s' !! k = Some r' →
             Level r = 19 → gcsCoords r' = gcsCoords r) →
  leaves_stay s s'.
Proof.
  intros Hk Hp k r Hr Hl.
  destruct (k_leaves s s' Hk k r Hr Hl) as (r' & Hr' & Hl' & Hc & Hm).
  exists r'. split; [exact Hr'|]. split; [exact Hl'|].
  split; [exact (Hp k r r' Hr Hr' Hl)|auto].
Qed.

(** The insertion loop leaves the nodes of the finest level where they
    are. *)
Lemma insertion_stay (n : nat) :
  ∀ (node : nat) (threshold : Q) (s s' : vtkMapMarkerSet)
    (node' : nat) (level' : Z),
    (n ≤ 19)%nat → climb_inv n node s →
    AddMarker_insertion n node threshold s = Ok (s', node', level') →
    leaves_stay s s'.
Proof.
  induction n as [|l IH]; intros node thr s s' node' level' Hn Hinv H.
  - simpl in H. injection H as <- <- <-. apply leaves_stay_refl.
  - simpl in H. bind_inv H as closest Efind.
    pose proof Hinv as [[Hst HJ] (nd & Hnd & Hlv & Hpar & Hcnt)].
    destruct closest as [c|].
    + bind_inv H as cr Hcr. apply load_Ok in Hcr as (? & [= <-] & Hcr).
      bind_inv H as nd0 Hnd0. apply load_Ok in Hnd0 as (? & [= <-] & Hnd0).
      rewrite Hnd in Hnd0. injection Hnd0 as <-.
      bind_inv H as c0 Hc0. bind_inv H as c1 Hc1.
      bind_inv H as h1 Hm1. bind_inv H as h2 Hm2.
      injection H as <- <- <-.
      apply FindClosestNode_elem in Efind as (ns & _ & Hns & Hc & _).
      rewrite Nat2Z.id in Hns.
      destruct (st_table s Hst _ _ _ Hns Hc) as (cr' & Hcr' & Hlc).
      rewrite Hcr in Hcr'. injection Hcr' as <-.
      destruct (climb_join l node c s nd cr c0 c1 h1 h2 ltac:(lia) Hinv
                  Hnd Hcr Hlc Hc0 Hc1 Hm1 Hm2) as [_ Hk].
      apply (leaves_stay_step c s _ Hk).
      * simpl. eapply pos_kept_trans.
        -- apply (pos_kept_modify _ _ _ _ _ Hm1). left. reflexivity.
        -- apply (pos_kept_modify _ _ _ _ _ Hm2). right. reflexivity.
      * intros r Hr. rewrite Hcr in Hr. injection Hr as <-. lia.
    + bind_inv H as nd0 Hnd0. apply load_Ok in Hnd0 as (? & [= <-] & Hnd0).
      rewrite Hnd in Hnd0. injection Hnd0 as <-.
      bind_inv H as s2 Htab. bind_inv H as h3 Hmod.
      pose proof (climb_copy l node s nd s2 h3 ltac:(lia) Hinv Hnd) as Hcopy.
      unfold new_node in Hcopy. cbv beta iota zeta in Hcopy.
      destruct (Hcopy Htab Hmod) as [Hinv3 Hk3].
      apply (leaves_stay_trans s (set_Memory h3 s2) s');
        [|exact (IH _ thr _ s' node' level' ltac:(lia) Hinv3 H)].
      apply (leaves_stay_kept _ _ Hk3). simpl.
      intros k r r' Hr Hr' Hl.
      unfold new_node in Htab. cbv zeta in Htab.
      unfold table_insert in Htab. bind_inv Htab as X EX.
      bind_inv Htab as table Etab. injection Htab as <-. simpl in Hmod.
      apply modify_Ok in Hmod as (? & x & [= <-] & Hx & ->).
      assert (Hka : k ≠ length (AllNodes (Internals s))).
      { intros ->.
        pose proof (st_fresh s Hst _ (ex_intro _ _ Hr)). lia. }
      destruct (decide (node = k)) as [<-|Hne].
      * rewrite lookup_insert_eq in Hr'. injection Hr' as <-. simpl.
        rewrite lookup_insert_ne in Hx by auto. congruence.
      * rewrite lookup_insert_ne in Hr' by exact Hne.
        rewrite lookup_insert_ne in Hr' by auto. congruence.
Qed.

(** [AddMarker] with clustering on: the new marker gets a node of the
    finest level at its projected position, and the nodes of the finest
    level stay where they are. *)
Lemma AddMarker_stay (lat2y : Q → Q) (latitude longitude : Q)
    (s s' : vtkMapMarkerSet) (id : Z) :
  Clustering s = true → tree_ok s → leaves_ok s →
  AddMarker lat2y latitude longitude s = Ok (id, s') →
  leaves_stay s s' ∧
  ∃ r, Memory s' !! length (AllNodes (Internals s)) = Some r ∧
    Level r = 19 ∧ gcsCoords r = (longitude, lat2y latitude) ∧
    MarkerId r = id ∧ NumberOfMarkers r = 1.
Proof.
  intros Hcl Htree (leaves & Hnodup & Htab & Hnum & Hleaves) H.
  pose proof Htree as [Hst HJ].
  rewrite (AddMarker_clustering lat2y latitude longitude s _ Hcl
             (st_size s Hst) Htab) in H.
  cbv zeta in H.
  destruct (leaf_inserted s (longitude, lat2y latitude)
              (Internals_NumberOfMarkers (Internals s)) _ Htree Htab)
    as [Hclimb Hfresh].
  cbv zeta in Hclimb, Hfresh.
  set (a := length (AllNodes (Internals s))) in *.
  match type of Hclimb with climb_inv _ _ ?t => set (sd := t) in * end.
  bind_inv H as [[s2 node] level] Hins.
  bind_inv H as nd Hnd. apply load_Ok in Hnd as (? & [= <-] & Hnd).
  bind_inv H as s3 Href. injection H as <- <-.
  destruct (insertion_ok 19 a _ sd s2 node level ltac:(lia) Hclimb Hins)
    as [[Hst2 (nd' & Hnd' & HJ2 & Hlev & Hle)] Hk2].
  rewrite Hnd in Hnd'. injection Hnd' as <-.
  pose proof (st_level s2 Hst2 _ _ Hnd) as Hlnd.
  assert (Hinv2 : refine_inv (Z.of_nat (Z.to_nat (level - 1 + 1)) - 1)
                    (Parent nd) ∅ s2).
  { constructor.
    - exact Hst2.
    - revert HJ2. apply consistent_weaken. tauto.
    - intros k r [Hk|Hk] Hr; [|exact (False_ind _ (not_elem_of_empty k Hk))].
      destruct (st_parent s2 Hst2 _ _ _ Hnd Hk) as (r' & Hr' & Hl' & _).
      rewrite Hr in Hr'. injection Hr' as <-. lia.
    - intros k _. apply not_elem_of_empty. }
  pose proof (insertion_stay 19 a _ sd s2 node level ltac:(lia) Hclimb Hins)
    as Hs2.
  assert (Hn19 : (Z.to_nat (level - 1 + 1) ≤ 19)%nat) by lia.
  pose proof (refinement_stay _ _ _ _ _ _ Hn19 Hinv2 Href) as Hs3.
  pose proof (leaves_stay_trans _ _ _ Hs2 Hs3) as Hsd.
  assert (Ha : Memory sd !! a
               = Some (mkNode (NumberOfNodes (Internals s)) 19
                         (longitude, lat2y latitude) None ∅ 1
                         (Internals_NumberOfMarkers (Internals s))))
    by (unfold sd; simpl; apply lookup_insert_eq).
  split.
  - intros k r Hr Hl.
    assert (Hka : k ≠ a) by (intros ->; congruence).
    destruct (Hsd k r) as (r' & Hr' & Hrest); [|exact Hl|].
    + unfold sd. simpl. rewrite lookup_insert_ne by auto. exact Hr.
    + exists r'. split; [exact Hr'|exact Hrest].
  - destruct (Hsd a _ Ha eq_refl) as (r' & Hr' & Hl' & Hc' & Hm' & Hn').
    exists r'. split; [exact Hr'|]. simpl in *. auto.
Qed.

Lemma marker_position_stay (s s' : vtkMapMarkerSet) (i : nat) (pos : Q * Q) :
  leaves_stay s s' → marker_position s i pos → marker_position s' i pos.
Proof.
  intros Hs (p & r & Hr & Hl & Hc & Hm & Hp).
  destruct (Hs p r Hr Hl) as (r' & Hr' & Hl' & Hp' & Hm' & Hc').
  exists p, r'. repeat split; congruence.
Qed.

(** A run of [AddMarker] calls places each marker at its projected
    position and moves no earlier marker. *)
Lemma AddMarkers_placed (lat2y : Q → Q) (markers : list (Q * Q)) :
  ∀ (N : nat) (s : vtkMapMarkerSet) (ids : list Z) (s' : vtkMapMarkerSet),
    reachable lat2y N s → AddMarkers lat2y markers s = Ok (ids, s') →
    (∀ i pos, marker_position s i pos → marker_position s' i pos) ∧
    (∀ i m, markers !! i = Some m →
            marker_position s' (N + i) (projected lat2y m)).
Proof.
  induction markers as [|m rest IH]; intros N s ids s' Hr H; simpl in H.
  - injection H as <- <-. split; [auto|]. intros i m Hi.
    rewrite lookup_nil in Hi. discriminate.
  - bind_inv H as [id s1] E1. bind_inv H as [ids1 s2] E2.
    injection H as <- <-.
    destruct (reachable_ok _ _ _ Hr) as (Ht & Hl & Hcl & HN).
    destruct (AddMarker_stay _ _ _ _ _ _ Hcl Ht Hl E1)
      as (Hstay & r & Ha & Hlr & Hpr & Hmr & Hcr).
    pose proof (AddMarker_returns_count _ _ _ _ _ _ _ Hr E1) as Hid.
    destruct (IH (S N) s1 ids1 s2 (reach_AddMarker _ _ _ _ _ _ _ Hr E1) E2)
      as [Hold Hnew].
    split.
    + intros i pos Hi. apply Hold. exact (marker_position_stay _ _ _ _ Hstay Hi).
    + intros [|i] m' Hi; simpl in Hi.
      * injection Hi as <-. rewrite Nat.add_0_r. apply Hold.
        exists (length (AllNodes (Internals s))), r.
        repeat split; try assumption. congruence.
      * rewrite Nat.add_succ_r. exact (Hnew i m' Hi).
Qed.

Lemma entries_points (h : gmap nat ClusteringNode) (k : float) (l : list nat)
    (es : list Entry) :
  Forall2 (entry_of h k) l es → map e_point es = map (position_of h) l.
Proof.
  induction 1 as [|p e l es (nd & Hp & He & _) _ IH]; simpl.
  - reflexivity.
  - f_equal; [|exact IH]. unfold position_of. rewrite Hp. exact He.
Qed.

Lemma AddMarkers_reach (lat2y : Q → Q) (markers : list (Q * Q)) :
  ∀ (N : nat) (s : vtkMapMarkerSet) (ids : list Z) (s' : vtkMapMarkerSet),
    reachable lat2y N s → AddMarkers lat2y markers s = Ok (ids, s') →
    ids = map Z.of_nat (seq N (length markers)) ∧
    reachable lat2y (N + length markers) s'.
Proof.
  induction markers as [|m rest IH]; intros N s ids s' Hr H; simpl in H.
  - injection H as <- <-. rewrite Nat.add_0_r. auto.
  - bind_inv H as [id s1] E1. bind_inv H as [ids1 s2] E2.
    injection H as <- <-.
    pose proof (AddMarker_returns_count _ _ _ _ _ _ _ Hr E1) as ->.
    destruct (IH (S N) s1 ids1 s2 (reach_AddMarker _ _ _ _ _ _ _ Hr E1) E2)
      as [-> Hr2].
    split; [reflexivity|]. simpl. rewrite Nat.add_succ_r. exact Hr2.
Qed.

(* ================================================================== *)
(** * Further properties of the marker set *)

(** ** The node tree *)

(** X1.  In every state that the public operations reach with clustering
    on, the table has 20 level sets; each member of the set of level [l] is
    a live node of level [l]; the parent of a live node is a live node one
    level coarser that lists it as a child; and a child of a live node is a
    live node one level finer whose parent it is. *)
Theorem reachable_tree_shape (lat2y : Q → Q) (N : nat) (s : vtkMapMarkerSet) :
  reachable lat2y N s →
  length (NodeTable (Internals s)) = 20%nat ∧
  (∀ (l : nat) (nodeSet : gset nat) (p : nat),
     NodeTable (Internals s) !! l = Some nodeSet → p ∈ nodeSet →
     ∃ n, Memory s !! p = Some n ∧ Level n = Z.of_nat l) ∧
  (∀ (p : nat) (n : ClusteringNode) (q : nat),
     Memory s !! p = Some n → Parent n = Some q →
     ∃ qn, Memory s !! q = Some qn ∧ Level qn = Level n - 1 ∧
           p ∈ Children qn) ∧
  (∀ (q : nat) (qn : ClusteringNode) (c : nat),
     Memory s !! q = Some qn → c ∈ Children qn →
     ∃ n, Memory s !! c = Some n ∧ Parent n = Some q ∧
          Level n = Level qn + 1).
Proof.
  intros Hr. destruct (reachable_ok _ _ _ Hr) as ([Hst _] & _).
  split; [exact (st_size s Hst)|]. split; [exact (st_table s Hst)|].
  split; [exact (st_parent s Hst)|].
  intros q qn c Hq Hc.
  destruct (st_children s Hst _ _ _ Hq Hc) as (n & Hn & Hp).
  exists n. split; [exact Hn|]. split; [exact Hp|].
  destruct (st_parent s Hst _ _ _ Hn Hp) as (qn' & Hq' & Hl & _).
  rewrite Hq in Hq'. injection Hq' as <-. lia.
Qed.

(** X2.  No node is lost: in every reachable state a live node is a member
    of the level set of its level, which is one of the levels 0 to 19; a
    node above level 0 has a parent, and a node of level 0 has none. *)
Theorem reachable_no_orphan (lat2y : Q → Q) (N : nat) (s : vtkMapMarkerSet)
    (p : nat) (n : ClusteringNode) :
  reachable lat2y N s → Memory s !! p = Some n →
  0 ≤ Level n ≤ 19 ∧
  (∃ nodeSet, NodeTable (Internals s) !! Z.to_nat (Level n) = Some nodeSet ∧
              p ∈ nodeSet) ∧
  (0 < Level n → ∃ q, Parent n = Some q) ∧
  (Level n = 0 → Parent n = None).
Proof.
  intros Hr Hn. destruct (reachable_ok _ _ _ Hr) as ([Hst _] & _).
  pose proof (reachable_registered _ _ _ Hr) as Hrg.
  split; [exact (st_level s Hst p n Hn)|]. split; [|split].
  - destruct (rg_table _ s Hrg p n Hn) as (X & _ & HX & Hp). eauto.
  - intros Hpos. destruct (rg_parent _ s Hrg p n Hn Hpos) as [[]|Hs].
    exact Hs.
  - exact (root_has_no_parent s p n Hst Hn).
Qed.

(** X3.  Every level accounts for every marker: in a reachable state with
    [N] markers, the marker counts of the nodes of each level set add up
    to [N]. *)
Theorem reachable_level_total (lat2y : Q → Q) (N : nat) (s : vtkMapMarkerSet)
    (l : nat) (nodeSet : gset nat) :
  reachable lat2y N s →
  NodeTable (Internals s) !! l = Some nodeSet →
  markers_in s nodeSet = Z.of_nat N.
Proof.
  intros Hr HX. destruct (reachable_ok _ _ _ Hr) as (Ht & Hl & _ & HN).
  pose proof (reachable_registered _ _ _ Hr) as Hrg.
  rewrite <- HN. exact (markers_in_any s l nodeSet Ht Hrg Hl HX).
Qed.

(** X4.  Node ids and the arena: in a reachable state the node counter is
    the length of [AllNodes]; the id of a live node is below the counter and
    [AllNodes] holds the node at the index of its id; two live nodes with
    the same id are the same node; and every non-null entry of [AllNodes]
    is a live node, so the arena holds no dangling pointer. *)
Theorem reachable_node_ids (lat2y : Q → Q) (N : nat) (s : vtkMapMarkerSet) :
  reachable lat2y N s →
  NumberOfNodes (Internals s) = Z.of_nat (length (AllNodes (Internals s))) ∧
  (∀ (p : nat) (n : ClusteringNode),
     Memory s !! p = Some n →
     0 ≤ NodeId n < NumberOfNodes (Internals s) ∧
     AllNodes (Internals s) !! Z.to_nat (NodeId n) = Some (Some p)) ∧
  (∀ (p q : nat) (n m : ClusteringNode),
     Memory s !! p = Some n → Memory s !! q = Some m →
     NodeId n = NodeId m → p = q) ∧
  (∀ (i a : nat),
     AllNodes (Internals s) !! i = Some (Some a) → is_Some (Memory s !! a)).
Proof.
  intros Hr. pose proof (reachable_registered _ _ _ Hr) as Hrg.
  split; [exact (rg_count _ s Hrg)|]. split; [|split].
  - intros p n Hn. pose proof (rg_id _ s Hrg p n Hn) as Hid.
    pose proof (rg_live _ s Hrg p (ex_intro _ _ Hn)) as Hl.
    rewrite Hid, Nat2Z.id. split; [|exact Hl].
    apply lookup_lt_Some in Hl. rewrite (rg_count _ s Hrg). lia.
  - intros p q n m Hn Hm E.
    rewrite (rg_id _ s Hrg p n Hn), (rg_id _ s Hrg q m Hm) in E. lia.
  - intros i a Hi. destruct (rg_arena _ s Hrg i a Hi) as [-> Hl]. exact Hl.
Qed.

(** ** AddMarker *)

(** X5.  Ids in call order: a run of [AddMarker] calls that return, on a
    reachable state with [N] markers, hands out the ids [N], [N+1], ... in
    the order of the calls, and the marker counter ends at [N] plus the
    number of calls. *)
Theorem AddMarkers_ids (lat2y : Q → Q) (markers : list (Q * Q)) (N : nat)
    (s : vtkMapMarkerSet) (ids : list Z) (s' : vtkMapMarkerSet) :
  reachable lat2y N s → AddMarkers lat2y markers s = Ok (ids, s') →
  ids = map Z.of_nat (seq N (length markers)) ∧
  Internals_NumberOfMarkers (Internals s')
  = Z.of_nat (N + length markers).
Proof.
  intros Hr H. destruct (AddMarkers_reach _ _ _ _ _ _ Hr H) as [Hids Hr'].
  split; [exact Hids|]. exact (proj2 (proj2 (proj2 (reachable_ok _ _ _ Hr')))).
Qed.

(** X6.  [AddMarker], in either mode, leaves what is displayed alone: the
    points, the point data, the stored node list, the stored zoom level and
    the settings stay as they are.  It returns the marker counter as the
    id, increments the counter and sets the changed flag, so the next
    [Update] rebuilds at every zoom. *)
Theorem AddMarker_display (lat2y : Q → Q) (latitude longitude : Q)
    (s s' : vtkMapMarkerSet) (id : Z) :
  AddMarker lat2y latitude longitude s = Ok (id, s') →
  id = Internals_NumberOfMarkers (Internals s) ∧
  Internals_NumberOfMarkers (Internals s') = id + 1 ∧
  Points s' = Points s ∧ PointData s' = PointData s ∧
  CurrentNodes (Internals s') = CurrentNodes (Internals s) ∧
  ZoomLevel (Internals s') = ZoomLevel (Internals s) ∧
  Initialized s' = Initialized s ∧ Clustering s' = Clustering s ∧
  MaxClusterScaleFactor s' = MaxClusterScaleFactor s ∧
  ClusterDistance (Internals s') = ClusterDistance (Internals s) ∧
  MarkersChanged (Internals s') = true ∧
  ∀ zoom, Update_skips zoom s' = false.
Proof.
  intros H. destruct (AddMarker_view _ _ _ _ _ _ H) as [-> Hv].
  unfold view in Hv. simpl in Hv.
  injection Hv as E1 E2 E3 E4 E5 E6 E7 E8 E9 E10.
  repeat (split; [congruence|]).
  intros zoom. unfold Update_skips. rewrite E9.
  rewrite !andb_false_r. reflexivity.
Qed.

(** ** Update *)

(** X7.  What a rebuild shows: when [Update] does not skip and returns, the
    stored node list is the level set of the clipped zoom (level 0 with
    clustering off), and the points and the three arrays have one entry per
    stored node, at the same index: the position of the node, the marker
    type and the blue colour when the node stands for one marker, the
    cluster type and the green colour otherwise.  The changed flag is
    cleared, the level is stored, and no node is touched. *)
Theorem Update_materializes (zoom : Z) (s s' : vtkMapMarkerSet) :
  Update_skips zoom s = false → Update zoom s = Ok s' →
  let level := if negb (Clustering s) then 0 else clip_zoom zoom in
  ∃ nodeSet arrays,
    NodeTable (Internals s) !! Z.to_nat level = Some nodeSet ∧
    CurrentNodes (Internals s') = elements nodeSet ∧
    PointData s' = Some arrays ∧
    length (Points s') = size nodeSet ∧
    length (Color arrays) = size nodeSet ∧
    length (MarkerType arrays) = size nodeSet ∧
    length (MarkerScale arrays) = size nodeSet ∧
    (∀ (i p : nat), CurrentNodes (Internals s') !! i = Some p →
       ∃ nd, Memory s !! p = Some nd ∧
         Points s' !! i = Some (gcsCoords nd) ∧
         MarkerType arrays !! i
         = Some (if NumberOfMarkers nd =? 1 then MARKER_TYPE
                 else CLUSTER_TYPE) ∧
         Color arrays !! i
         = Some (if NumberOfMarkers nd =? 1 then kwBlue else kwGreen)) ∧
    Memory s' = Memory s ∧
    MarkersChanged (Internals s') = false ∧
    ZoomLevel (Internals s') = level.
Proof.
  intros Hs H level.
  destruct (Update_rebuilt _ _ _ Hs H)
    as (X & es & _ & HX & Hes & Hcn & Hpts & Hpd & Hmem & Hmc & Hzl).
  pose proof (Forall2_length _ _ _ Hes) as Hlen.
  exists X, (mkArrays (map e_color es) (map e_type es) (map e_scale es)).
  simpl. rewrite Hpts, !length_map, <- Hlen. unfold size, set_size. simpl.
  split; [exact HX|]. split; [exact Hcn|]. split; [exact Hpd|].
  repeat (split; [reflexivity|]).
  split; [|auto].
  intros i p Hi. rewrite Hcn in Hi.
  destruct (Forall2_lookup_l _ _ _ _ _ Hes Hi) as (e & He & nd & Hp & Hpt & Hk).
  exists nd. split; [exact Hp|]. rewrite !list_lookup_fmap, He. simpl.
  split; [congruence|].
  destruct (NumberOfMarkers nd =? 1); destruct Hk as (-> & -> & _); auto.
Qed.

(** X8.  [Update] returns on every reachable state once [Init] has added
    the arrays, for every zoom that is not negative and whatever the maximum
    cluster scale factor is set to: no stored pointer dangles, the level is
    in the table, and the double arithmetic of the scale cannot stop the
    run. *)
Theorem Update_returns (lat2y : Q → Q) (N : nat) (s : vtkMapMarkerSet)
    (arrays : MarkerArrays) (zoom : Z) (k : float) :
  reachable lat2y N s → PointData s = Some arrays → 0 ≤ zoom →
  ∃ s', Update zoom (set_MaxClusterScaleFactor k s) = Ok s'.
Proof.
  intros Hr Hpd Hz.
  destruct (reachable_ok _ _ _ Hr) as (Ht & _ & Hcl & _).
  destruct (same_tree_ok _ _ (factor_same_tree k s) Ht) as [Hst _].
  apply (Update_returns_on zoom (set_MaxClusterScaleFactor k s) arrays);
    [exact Hst|exact Hcl|exact Hpd|exact Hz].
Qed.

Lemma entries_single (h : gmap nat ClusteringNode) (k : float) (l : list nat)
    (es : list Entry) :
  Forall2 (entry_of h k) l es →
  (∀ p nd, p ∈ l → h !! p = Some nd → NumberOfMarkers nd = 1) →
  map e_type es = replicate (length l) MARKER_TYPE ∧
  map e_color es = replicate (length l) kwBlue ∧
  map e_scale es = replicate (length l) 1%float.
Proof.
  induction 1 as [|p e l es (nd & Hp & _ & He) _ IH]; intros H1; simpl.
  - auto.
  - destruct IH as (-> & -> & ->).
    { intros q nq Hq. apply H1. right. exact Hq. }
    rewrite (H1 p nd) in He by (try left; assumption).
    simpl in He. destruct He as (-> & -> & ->). auto.
Qed.

Lemma leaves_single (s : vtkMapMarkerSet) (X : gset nat) (p : nat)
    (nd : ClusteringNode) :
  leaves_ok s → NodeTable (Internals s) !! 19%nat = Some X → p ∈ X →
  Memory s !! p = Some nd →
  NumberOfMarkers nd = 1 ∧
  0 ≤ MarkerId nd < Internals_NumberOfMarkers (Internals s).
Proof.
  intros (leaves & _ & Htab & Hnum & Hleaves) HX Hp Hnd.
  rewrite Htab in HX. injection HX as <-.
  apply elem_of_list_to_set, list_elem_of_lookup in Hp as [i Hi].
  destruct (Hleaves i p Hi) as (r & Hr & _ & Hc & Hm).
  rewrite Hnd in Hr. injection Hr as <-. split; [exact Hc|].
  apply lookup_lt_Some in Hi. lia.
Qed.

(** At the finest zoom a rebuild shows one point marker per leaf. *)
Lemma Update_finest_on (zoom : Z) (s : vtkMapMarkerSet)
    (arrays : MarkerArrays) (N : nat) :
  structure s → leaves_ok s → Clustering s = true →
  Internals_NumberOfMarkers (Internals s) = Z.of_nat N →
  PointData s = Some arrays → 19 ≤ zoom →
  ∃ s', Update zoom s = Ok s' ∧
    (Update_skips zoom s = false →
     length (Points s') = N ∧
     PointData s'
     = Some (mkArrays (replicate N kwBlue) (replicate N MARKER_TYPE)
                      (replicate N 1%float))).
Proof.
  intros Hst Hl Hcl HN Hpd Hz.
  destruct (Update_returns_on zoom s arrays Hst Hcl Hpd) as (s' & Hs');
    [lia|].
  exists s'. split; [exact Hs'|]. intros Hs.
  pose proof (clip_zoom_finest zoom Hz) as Hclip.
  destruct (Update_rebuilt _ _ _ Hs Hs')
    as (X & es & _ & HX & Hes & _ & Hpts & Hpd' & _).
  rewrite Hcl, Hclip in HX. simpl in HX.
  change (Z.to_nat 19) with 19%nat in HX.
  assert (Hone : ∀ p nd, p ∈ elements X → Memory s !! p = Some nd →
                         NumberOfMarkers nd = 1).
  { intros p nd Hp Hnd. apply elem_of_elements in Hp.
    exact (proj1 (leaves_single s X p nd Hl HX Hp Hnd)). }
  destruct (entries_single _ _ _ _ Hes Hone) as (Et & Ec & Esc).
  assert (Hsize : length (elements X) = N).
  { destruct Hl as (leaves & Hnd & Htab & Hnum & _).
    rewrite Htab in HX. injection HX as <-.
    rewrite (elements_list_to_set leaves Hnd). lia. }
  rewrite Hpts, Hpd', Et, Ec, Esc, length_map, <- (Forall2_length _ _ _ Hes).
  rewrite Hsize. auto.
Qed.

(** X9.  At the finest zoom every marker is shown on its own: on a
    reachable state with [N] markers and the arrays of [Init], [Update] at
    a zoom of 19 or more returns whatever the maximum cluster scale factor
    is set to, and a rebuild shows [N] points, all of the marker type, blue,
    at scale 1.0. *)
Theorem Update_finest (lat2y : Q → Q) (N : nat) (s : vtkMapMarkerSet)
    (arrays : MarkerArrays) (zoom : Z) (k : float) :
  reachable lat2y N s → PointData s = Some arrays → 19 ≤ zoom →
  ∃ s', Update zoom (set_MaxClusterScaleFactor k s) = Ok s' ∧
    (Update_skips zoom (set_MaxClusterScaleFactor k s) = false →
     length (Points s') = N ∧
     PointData s'
     = Some (mkArrays (replicate N kwBlue) (replicate N MARKER_TYPE)
                      (replicate N 1%float))).
Proof.
  intros Hr Hpd Hz.
  destruct (reachable_ok _ _ _ Hr) as (Ht & Hl & Hcl & HN).
  pose proof (factor_same_tree k s) as Hsame.
  destruct (same_tree_ok _ _ Hsame Ht) as [Hst _].
  pose proof (same_tree_leaves _ _ Hsame Hl) as Hl'.
  destruct (Update_finest_on zoom (set_MaxClusterScaleFactor k s) arrays N
              Hst Hl' Hcl HN Hpd Hz) as (s' & Hs' & Hshow).
  exists s'. split; [exact Hs'|]. exact Hshow.
Qed.

(** X10.  What is shown accounts for every marker: after a rebuild on a
    reachable state with [N] markers, at whatever zoom, the marker counts
    of the stored nodes add up to [N]. *)
Theorem Update_accounts (lat2y : Q → Q) (N : nat) (s s' : vtkMapMarkerSet)
    (zoom : Z) :
  reachable lat2y N s →
  Update_skips zoom s = false → Update zoom s = Ok s' →
  sumZ (map (child_count (Memory s')) (CurrentNodes (Internals s')))
  = Z.of_nat N.
Proof.
  intros Hr Hs H.
  destruct (Update_rebuilt _ _ _ Hs H)
    as (X & es & _ & HX & _ & Hcn & _ & _ & Hmem & _).
  rewrite Hcn, Hmem.
  destruct (reachable_ok _ _ _ Hr) as (Ht & Hl & _ & HN).
  rewrite <- HN.
  exact (markers_in_any s _ X Ht (reachable_registered _ _ _ Hr) Hl HX).
Qed.

(** X11.  Coarser levels never hold more nodes: in a reachable state the
    level set of a level has at most as many nodes as the set of the next
    finer level, and at least one node once a marker was added. *)
Theorem reachable_level_sizes (lat2y : Q → Q) (N : nat) (s : vtkMapMarkerSet)
    (l : nat) (X Y : gset nat) :
  reachable lat2y N s →
  NodeTable (Internals s) !! l = Some X →
  NodeTable (Internals s) !! S l = Some Y →
  (size X ≤ size Y)%nat ∧ (0 < N → X ≠ ∅)%nat.
Proof.
  intros Hr HX HY. destruct (reachable_ok _ _ _ Hr) as (Ht & Hl & _ & HN').
  pose proof (reachable_registered _ _ _ Hr) as Hrg.
  split; [exact (level_size_step s l X Y Ht Hrg HX HY)|].
  intros HN He. pose proof (markers_in_any s l X Ht Hrg Hl HX) as Hsum.
  rewrite He in Hsum. unfold markers_in in Hsum.
  rewrite elements_empty in Hsum. simpl in Hsum. lia.
Qed.

(** ** GetMarkerIds *)

Lemma GetMarkerIds_total (inputPointOf : Z → Z) (s : vtkMapMarkerSet)
    (arrays : MarkerArrays) (cellIds : list Z) :
  PointData s = Some arrays →
  (∀ p, p ∈ CurrentNodes (Internals s) → is_Some (Memory s !! p)) →
  (∀ c, c ∈ cellIds →
     0 ≤ inputPointOf c < Z.of_nat (length (CurrentNodes (Internals s)))) →
  ∀ markerIds clusterIds,
    ∃ res, GetMarkerIds inputPointOf cellIds markerIds clusterIds s = Ok res.
Proof.
  intros Hpd Hlive Hrange mk cl. unfold GetMarkerIds. rewrite Hpd. simpl.
  assert (H : ∀ acc, ∃ acc',
             foldlM (GetMarkerIds_cell inputPointOf s) acc cellIds = Ok acc').
  { induction cellIds as [|c rest IH]; intros acc.
    - exists acc. reflexivity.
    - assert (E : ∃ a, GetMarkerIds_cell inputPointOf s acc c = Ok a).
      { destruct acc as [[idSet mk0] cl0]. unfold GetMarkerIds_cell.
        destruct (decide (inputPointOf c ∈ idSet)); [eauto|].
        destruct (Hrange c) as [H0 Hlt]; [left|].
        destruct (lookup_lt_is_Some_2 (CurrentNodes (Internals s))
                    (Z.to_nat (inputPointOf c))) as [node Hnode]; [lia|].
        assert (Eat : at_index (CurrentNodes (Internals s)) (inputPointOf c)
                      = Ok node) by (apply at_index_Ok; auto).
        rewrite Eat. simpl.
        destruct (Hlive node) as [nd Hnd].
        { apply list_elem_of_lookup. eauto. }
        rewrite (load_Some _ _ _ Hnd). simpl.
        destruct (NumberOfMarkers nd =? 1); eauto. }
      destruct E as (a & E).
      change (foldlM (GetMarkerIds_cell inputPointOf s) acc (c :: rest))
        with (GetMarkerIds_cell inputPointOf s acc c
              ≫= λ a, foldlM (GetMarkerIds_cell inputPointOf s) a rest).
      rewrite (bind_Ok_l _ _ _ E). apply IH.
      intros c' Hc'. apply Hrange. right. exact Hc'. }
  destruct (H (∅, mk, cl)) as ([[idSet mk'] cl'] & ->). simpl. eauto.
Qed.

Lemma GetMarkerIds_in_range (inputPointOf : Z → Z) (s : vtkMapMarkerSet)
    (cellIds markerIds clusterIds : list Z) (res : list Z * list Z) (c : Z) :
  GetMarkerIds inputPointOf cellIds markerIds clusterIds s = Ok res →
  c ∈ cellIds →
  0 ≤ inputPointOf c < Z.of_nat (length (CurrentNodes (Internals s))).
Proof.
  unfold GetMarkerIds. intros H Hc. inv_bind H. inv_bind H.
  destruct a0 as [[idSet' mk'] cl'].
  destruct (GetMarkerIds_loop _ _ _ _ _ _ _ _ _ E0)
    as (picks & rs & _ & Hp & Hrs & _).
  assert (Hin : inputPointOf c ∈ picks).
  { apply Hp. split; [|apply not_elem_of_empty].
    apply list_elem_of_fmap. eauto. }
  apply list_elem_of_lookup in Hin as [i Hi].
  destruct (Forall2_lookup_l _ _ _ _ _ Hrs Hi)
    as (r & _ & node & nd & H0 & Hnode & _).
  apply lookup_lt_Some in Hnode. lia.
Qed.

(** X12.  A pick right after a rebuild: [GetMarkerIds] returns exactly when
    the input point id of every selected cell is an index of the stored
    node list; every stored node is then live. *)
Theorem GetMarkerIds_after_Update (zoom : Z) (s s' : vtkMapMarkerSet)
    (inputPointOf : Z → Z) (cellIds markerIds clusterIds : list Z) :
  Update_skips zoom s = false → Update zoom s = Ok s' →
  (∃ res, GetMarkerIds inputPointOf cellIds markerIds clusterIds s' = Ok res)
  ↔ (∀ c, c ∈ cellIds →
       0 ≤ inputPointOf c
       < Z.of_nat (length (CurrentNodes (Internals s')))).
Proof.
  intros Hs H. split.
  - intros [res Hres] c Hc.
    exact (GetMarkerIds_in_range _ _ _ _ _ _ _ Hres Hc).
  - intros Hrange.
    destruct (Update_rebuilt _ _ _ Hs H)
      as (X & es & _ & HX & Hes & Hcn & _ & Hpd & Hmem & _).
    apply (GetMarkerIds_total _ _ _ _ Hpd); [|exact Hrange].
    intros p Hp. rewrite Hcn in Hp. rewrite Hmem.
    apply list_elem_of_lookup in Hp as [i Hi].
    destruct (Forall2_lookup_l _ _ _ _ _ Hes Hi) as (e & _ & nd & Hnd & _).
    eauto.
Qed.

Lemma finest_picks (s : vtkMapMarkerSet) (N : Z) (picks : list Z)
    (rs : list (Z + Z)) :
  (∀ pt r, pick_of s pt r → ∃ m, r = inl m ∧ 0 ≤ m < N) →
  (∀ pt pt' m, pick_of s pt (inl m) → pick_of s pt' (inl m) → pt = pt') →
  NoDup picks → Forall2 (pick_of s) picks rs →
  cluster_results rs = [] ∧
  length (marker_results rs) = length picks ∧
  NoDup (marker_results rs) ∧
  (∀ m, m ∈ marker_results rs →
     0 ≤ m < N ∧ ∃ pt, pt ∈ picks ∧ pick_of s pt (inl m)).
Proof.
  intros Hinl Hinj Hnd H. induction H as [|pt r picks rs Hpr _ IH]; simpl.
  - split; [reflexivity|]. split; [reflexivity|]. split; [constructor|].
    intros m' Hm'. inversion Hm'.
  - apply NoDup_cons in Hnd as [Hpt Hnd].
    destruct (IH Hnd) as (Ecl & Elen & Hnd' & Hall).
    destruct (Hinl pt r Hpr) as (m & -> & Hm).
    unfold cluster_results, marker_results in *. simpl.
    split; [exact Ecl|]. split; [rewrite Elen; reflexivity|]. split.
    + apply NoDup_cons. split; [|exact Hnd'].
      intros Hin. destruct (Hall m Hin) as (_ & pt' & Hpt' & Hp').
      assert (pt = pt') by exact (Hinj _ _ _ Hpr Hp'). subst pt'. tauto.
    + intros m' Hm'. apply elem_of_cons in Hm' as [Heq|Hm'].
      * subst m'. split; [exact Hm|]. exists pt. split; [left|exact Hpr].
      * destruct (Hall m' Hm') as (Hr' & pt' & Hpt' & Hp').
        split; [exact Hr'|]. exists pt'. split; [right; exact Hpt'|exact Hp'].
Qed.

(** X13.  A pick at the finest zoom: after a rebuild at a zoom of 19 or
    more on a reachable state with [N] markers, [GetMarkerIds] adds no
    cluster id; it adds one marker id per distinct selected point, each the
    id of a marker (an id from 0 to [N-1]), and no id twice. *)
Theorem GetMarkerIds_finest (lat2y : Q → Q) (N : nat) (s s' : vtkMapMarkerSet)
    (zoom : Z) (inputPointOf : Z → Z)
    (cellIds markerIds clusterIds markerIds' clusterIds' : list Z) :
  reachable lat2y N s → 19 ≤ zoom →
  Update_skips zoom s = false → Update zoom s = Ok s' →
  GetMarkerIds inputPointOf cellIds markerIds clusterIds s'
  = Ok (markerIds', clusterIds') →
  clusterIds' = clusterIds ∧
  ∃ picks new,
    NoDup picks ∧ (∀ p, p ∈ picks ↔ p ∈ map inputPointOf cellIds) ∧
    markerIds' = markerIds ++ new ∧ length new = length picks ∧
    NoDup new ∧ ∀ m, m ∈ new → 0 ≤ m < Z.of_nat N.
Proof.
  intros Hr Hz Hs Hup H.
  destruct (reachable_ok _ _ _ Hr) as ([Hst _] & Hl & Hcl & HN).
  destruct (Update_rebuilt _ _ _ Hs Hup)
    as (X & es & _ & HX & _ & Hcn & _ & _ & Hmem & _).
  rewrite Hcl, (clip_zoom_finest zoom Hz) in HX. simpl in HX.
  change (Z.to_nat 19) with 19%nat in HX.
  unfold GetMarkerIds in H. inv_bind H. inv_bind H.
  destruct a0 as [[idSet' mk'] cl']. injection H as <- <-.
  destruct (GetMarkerIds_loop _ _ _ _ _ _ _ _ _ E0)
    as (picks & rs & Hnd & Hp & Hrs & -> & ->).
  assert (Hpick : ∀ pt r, pick_of s' pt r →
            ∃ node nd, 0 ≤ pt ∧ elements X !! Z.to_nat pt = Some node ∧
              Memory s !! node = Some nd ∧ r = inl (MarkerId nd) ∧
              0 ≤ MarkerId nd < Z.of_nat N).
  { intros pt r (node & nd & H0 & Hnode & Hnd' & ->).
    rewrite Hcn in Hnode. rewrite Hmem in Hnd'.
    assert (HinX : node ∈ X).
    { apply elem_of_elements, list_elem_of_lookup. eauto. }
    destruct (leaves_single s X node nd Hl HX HinX Hnd') as [H1 Hm].
    rewrite H1. simpl. exists node, nd. rewrite <- HN. auto 10. }
  destruct (finest_picks s' (Z.of_nat N) picks rs) as (Ecl & Elen & Hnd' & Hall).
  - intros pt r Hpr.
    destruct (Hpick pt r Hpr) as (node & nd & _ & _ & _ & -> & Hm). eauto.
  - intros pt pt' m Hp1 Hp2.
    destruct (Hpick _ _ Hp1) as (n1 & d1 & H01 & Hl1 & Hd1 & [= ->] & _).
    destruct (Hpick _ _ Hp2) as (n2 & d2 & H02 & Hl2 & Hd2 & [= Eid] & _).
    assert (n1 = n2).
    { destruct Hl as (leaves & Hndl & Htab & _ & Hleaves).
      rewrite Htab in HX. injection HX as <-.
      assert (Hin1 : n1 ∈ leaves).
      { apply (elem_of_list_to_set (C := gset nat)), elem_of_elements,
          list_elem_of_lookup. eauto. }
      assert (Hin2 : n2 ∈ leaves).
      { apply (elem_of_list_to_set (C := gset nat)), elem_of_elements,
          list_elem_of_lookup. eauto. }
      apply list_elem_of_lookup in Hin1 as [i1 Hi1].
      apply list_elem_of_lookup in Hin2 as [i2 Hi2].
      destruct (Hleaves _ _ Hi1) as (r1 & Hr1 & _ & _ & Hm1).
      destruct (Hleaves _ _ Hi2) as (r2 & Hr2 & _ & _ & Hm2).
      rewrite Hd1 in Hr1. injection Hr1 as <-.
      rewrite Hd2 in Hr2. injection Hr2 as <-.
      assert (i1 = i2) by lia. subst i2. congruence. }
    subst n2.
    pose proof (NoDup_lookup _ _ _ _ (NoDup_elements X) Hl1 Hl2). lia.
  - exact Hnd.
  - exact Hrs.
  - rewrite Ecl, app_nil_r. split; [reflexivity|].
    exists picks, (marker_results rs).
    split; [exact Hnd|]. split.
    { intros p. rewrite Hp. split; [tauto|].
      intros Hin. split; [exact Hin|apply not_elem_of_empty]. }
    split; [reflexivity|]. split; [exact Elen|]. split; [exact Hnd'|].
    intros m Hm. exact (proj1 (Hall m Hm)).
Qed.

(** ** MergeNodes *)

(** X14.  A merge at level 0 does not return: on a well-shaped tree, for
    two distinct live nodes of level 0 whose counts do not add up to 0,
    [MergeNodes] dereferences the null parent of [node]. *)
Theorem MergeNodes_at_root (node mergingNode : nat)
    (parentsToMerge : gset nat) (s : vtkMapMarkerSet) (n m : ClusteringNode) :
  structure s →
  Memory s !! node = Some n → Memory s !! mergingNode = Some m →
  node ≠ mergingNode → Level n = 0 → Level m = 0 →
  NumberOfMarkers n + NumberOfMarkers m ≠ 0 →
  MergeNodes node mergingNode parentsToMerge 0 s = Fault.
Proof.
  intros Hst Hn Hm Hd Hln Hlm Hw.
  assert (Hsh : merge_shape node mergingNode 0 s n m)
    by (apply merge_shape_of_structure; congruence).
  rewrite (MergeNodes_eq _ _ _ _ _ n m Hsh).
  destruct (Qeq_bool _ 0) eqn:Hz.
  - apply Qeq_bool_iff in Hz. unfold Qeq in Hz. simpl in Hz. lia.
  - destruct (Parent n) as [p|] eqn:Hp; [|reflexivity].
    destruct (st_parent s Hst _ _ _ Hn Hp) as (pn & Hpn & Hlp & _).
    pose proof (st_level s Hst _ _ Hpn). lia.
Qed.

(** X15.  A merge that returns frees [mergingNode] and no other node, and
    takes it out of the set of [level]; the other level sets, the ids and
    the levels of the other nodes, the node counter and everything that is
    displayed stay as they are.  The stored node list is among what stays:
    a merged node that is displayed is left there as a dangling pointer. *)
Theorem MergeNodes_frees_one (node mergingNode : nat)
    (parentsToMerge : gset nat) (level : Z) (s s' : vtkMapMarkerSet)
    (parentsToMerge' : gset nat) :
  MergeNodes node mergingNode parentsToMerge level s
  = Ok (s', parentsToMerge') →
  is_Some (Memory s !! mergingNode) ∧ Memory s' !! mergingNode = None ∧
  (∀ k, k ≠ mergingNode →
     match Memory s !! k, Memory s' !! k with
     | Some r, Some r' => NodeId r' = NodeId r ∧ Level r' = Level r
     | None, None => True
     | _, _ => False
     end) ∧
  (∀ (l : nat) (X : gset nat),
     NodeTable (Internals s) !! l = Some X →
     NodeTable (Internals s') !! l
     = Some (if decide (l = Z.to_nat level) then X ∖ {[mergingNode]}
             else X)) ∧
  NumberOfNodes (Internals s') = NumberOfNodes (Internals s) ∧
  CurrentNodes (Internals s') = CurrentNodes (Internals s) ∧
  Points s' = Points s ∧ PointData s' = PointData s.
Proof.
  intros H.
  destruct (MergeNodes_raw _ _ _ _ _ _ _ H)
    as (m & h & X & Hm & R & Hmem & Hlev & HX & Htab & _ & _ & _ & Hnn & Hv).
  split; [eauto|]. split; [rewrite Hmem; apply lookup_delete_eq|].
  split; [|split; [|split; [exact Hnn|]]].
  - intros k Hk. rewrite Hmem, lookup_delete_ne by auto.
    specialize (R k). destruct (Memory s !! k), (h !! k); tauto.
  - intros l Y HY. rewrite Htab.
    destruct (decide (l = Z.to_nat level)) as [->|Hne].
    + rewrite HX in HY. injection HY as <-.
      apply list_lookup_insert_eq. apply lookup_lt_Some in HX. exact HX.
    + rewrite list_lookup_insert_ne by auto. exact HY.
  - unfold view in Hv. injection Hv as _ _ _ E1 E2 E3 _ _ _ _. auto.
Qed.

(** ** Cleanup *)

Lemma Cleanup_empties (s : vtkMapMarkerSet) :
  structure s → registered (λ _, False) s →
  ∃ s', Cleanup s = Ok s' ∧ Memory s' = ∅ ∧
    NodeTable (Internals s') = replicate 20 ∅ ∧
    Internals_NumberOfMarkers (Internals s') = 0 ∧
    Clustering s' = Clustering s.
Proof.
  intros Hst Hrg. destruct (Cleanup_structure s Hst) as (h & E & Hh).
  eexists. split; [exact E|]. simpl. split; [|auto].
  apply map_eq. intros k. rewrite Hh, lookup_empty.
  destruct (decide (k ∈ ⋃ NodeTable (Internals s))) as [|Hk]; [reflexivity|].
  destruct (Memory s !! k) as [n|] eqn:Hn; [|reflexivity].
  exfalso. apply Hk.
  destruct (rg_table _ s Hrg k n Hn) as (X & _ & HX & Hin).
  apply elem_of_union_list. exists X. split; [|exact Hin].
  apply list_elem_of_lookup. eauto.
Qed.

(** X16.  [Cleanup] on a reachable state returns (no node is deleted
    twice) and frees every node: no node stays allocated, the 20 level sets
    and the stored node list are empty, and the marker and node counters
    are 0 with the changed flag set.  The arena [AllNodes], the points and
    the point data are left as they were. *)
Theorem Cleanup_frees_all (lat2y : Q → Q) (N : nat) (s : vtkMapMarkerSet) :
  reachable lat2y N s →
  ∃ s', Cleanup s = Ok s' ∧ Memory s' = ∅ ∧
    NodeTable (Internals s') = replicate 20 ∅ ∧
    CurrentNodes (Internals s') = [] ∧
    Internals_NumberOfMarkers (Internals s') = 0 ∧
    NumberOfNodes (Internals s') = 0 ∧
    MarkersChanged (Internals s') = true ∧
    AllNodes (Internals s') = AllNodes (Internals s) ∧
    Points s' = Points s ∧ PointData s' = PointData s.
Proof.
  intros Hr. destruct (reachable_ok _ _ _ Hr) as ([Hst _] & _).
  destruct (Cleanup_empties s Hst (reachable_registered _ _ _ Hr))
    as (s' & E & Hm & Ht & _).
  exists s'. split; [exact E|]. split; [exact Hm|]. split; [exact Ht|].
  destruct (Cleanup_structure s Hst) as (h & E' & _).
  rewrite E' in E. injection E as <-. simpl. auto 10.
Qed.

Lemma Cleanup_tree (lat2y : Q → Q) (N : nat) (s s' : vtkMapMarkerSet) :
  reachable lat2y N s → Cleanup s = Ok s' →
  tree_ok s' ∧ leaves_ok s' ∧ Clustering s' = true ∧
  Internals_NumberOfMarkers (Internals s') = 0.
Proof.
  intros Hr H.
  destruct (reachable_ok _ _ _ Hr) as (_ & _ & Hcl & _).
  destruct (reachable_ok _ _ _ Hr) as ([Hst _] & _).
  destruct (Cleanup_empties s Hst (reachable_registered _ _ _ Hr))
    as (s1 & E & Hm & Ht & Hn & Hcl').
  rewrite E in H. injection H as <-.
  split; [|split; [|split; [congruence|exact Hn]]].
  - split.
    + constructor; rewrite ?Hm, ?Ht.
      * reflexivity.
      * intros l X p HX Hp. exfalso.
        apply (lookup_replicate 20 (∅ : gset nat) X l) in HX as [-> _].
        exact (not_elem_of_empty p Hp).
      * intros p n Hp. rewrite lookup_empty in Hp. discriminate.
      * intros p n q Hp. rewrite lookup_empty in Hp. discriminate.
      * intros q qn c Hq. rewrite lookup_empty in Hq. discriminate.
      * intros p [n Hp]. rewrite lookup_empty in Hp. discriminate.
    + rewrite Hm. intros z n Hz. rewrite lookup_empty in Hz. discriminate.
  - exists []. rewrite Ht, Hn. repeat split.
    + constructor.
    + intros i p Hi. rewrite lookup_nil in Hi. discriminate.
Qed.

(** X17.  A marker set can be reused after [Cleanup]: the next [AddMarker]
    that returns hands out the id 0 again, the marker counter is 1, and the
    state again satisfies the invariants of the tree and of the finest
    level. *)
Theorem Cleanup_restart (lat2y : Q → Q) (N : nat) (s s1 s2 : vtkMapMarkerSet)
    (latitude longitude : Q) (id : Z) :
  reachable lat2y N s → Cleanup s = Ok s1 →
  AddMarker lat2y latitude longitude s1 = Ok (id, s2) →
  id = 0 ∧ Internals_NumberOfMarkers (Internals s2) = 1 ∧
  tree_ok s2 ∧ leaves_ok s2.
Proof.
  intros Hr Hc Hadd.
  destruct (Cleanup_tree _ _ _ _ Hr Hc) as (Ht & Hl & Hcl & Hn).
  destruct (AddMarker_ok _ _ _ _ _ _ Hcl Ht Hl Hadd)
    as (Ht' & Hl' & _ & Hid & Hn').
  rewrite Hn in Hid, Hn'. auto.
Qed.

Lemma AddMarker_plain (lat2y : Q → Q) (latitude longitude : Q)
    (s : vtkMapMarkerSet) :
  Clustering s = false →
  ∃ s', AddMarker lat2y latitude longitude s
        = Ok (Internals_NumberOfMarkers (Internals s), s') ∧
    Clustering s' = false ∧
    NodeTable (Internals s') = NodeTable (Internals s) ∧
    AllNodes (Internals s')
    = AllNodes (Internals s) ++ [Some (length (AllNodes (Internals s)))] ∧
    Memory s'
    = <[length (AllNodes (Internals s)) :=
          mkNode (NumberOfNodes (Internals s)) 0 (longitude, lat2y latitude)
                 None ∅ 1 (Internals_NumberOfMarkers (Internals s))]>
        (Memory s).
Proof.
  intros Hc. unfold AddMarker, new_node. simpl. rewrite Hc. simpl.
  eexists. split; [reflexivity|]. simpl. auto.
Qed.

Lemma AddMarkers_plain (lat2y : Q → Q) (markers : list (Q * Q)) :
  ∀ s : vtkMapMarkerSet,
    Clustering s = false →
    size (Memory s) = length (AllNodes (Internals s)) →
    (∀ p, is_Some (Memory s !! p) →
          (p < length (AllNodes (Internals s)))%nat) →
    ∃ ids s', AddMarkers lat2y markers s = Ok (ids, s') ∧
      NodeTable (Internals s') = NodeTable (Internals s) ∧
      size (Memory s') = (size (Memory s) + length markers)%nat.
Proof.
  induction markers as [|m rest IH]; intros s Hc Hsize Hlive.
  - exists [], s. simpl. split; [reflexivity|]. split; [reflexivity|lia].
  - destruct (AddMarker_plain lat2y (fst m) (snd m) s Hc)
      as (s1 & E1 & Hc1 & Ht1 & Ha1 & Hm1).
    assert (Hfresh : Memory s !! length (AllNodes (Internals s)) = None).
    { destruct (Memory s !! _) eqn:E; [|reflexivity].
      specialize (Hlive _ (ex_intro _ _ E)). lia. }
    destruct (IH s1 Hc1) as (ids & s2 & E2 & Ht2 & Hs2).
    + rewrite Hm1, Ha1, length_app, map_size_insert_None by exact Hfresh.
      simpl. lia.
    + intros p Hp. rewrite Ha1, length_app. simpl. rewrite Hm1 in Hp.
      apply lookup_insert_is_Some' in Hp as [<-|Hp]; [lia|].
      specialize (Hlive p Hp). lia.
    + exists (Internals_NumberOfMarkers (Internals s) :: ids), s2.
      simpl. rewrite E1. simpl. rewrite E2. simpl.
      split; [reflexivity|]. split; [congruence|].
      rewrite Hs2, Hm1, map_size_insert_None by exact Hfresh. lia.
Qed.

(** X18.  With clustering off [Cleanup] frees nothing: the nodes that
    [AddMarker] allocates enter no level set, so after any run of
    [AddMarker] on a fresh marker set [Cleanup] returns with every node
    still allocated, one per marker, and the marker counter back at 0. *)
Theorem Cleanup_without_clustering (lat2y : Q → Q) (markers : list (Q * Q)) :
  ∃ ids s1 s2,
    AddMarkers lat2y markers (Init vtkMapMarkerSet_new) = Ok (ids, s1) ∧
    Cleanup s1 = Ok s2 ∧
    Memory s2 = Memory s1 ∧ size (Memory s1) = length markers ∧
    Internals_NumberOfMarkers (Internals s2) = 0.
Proof.
  destruct (AddMarkers_plain lat2y markers (Init vtkMapMarkerSet_new))
    as (ids & s1 & E & Ht & Hsize); [reflexivity|reflexivity| |].
  { intros p [n Hp]. simpl in Hp. rewrite lookup_empty in Hp. discriminate. }
  exists ids, s1.
  destruct (Cleanup_loop (NodeTable (Internals s1)) (Memory s1) [])
    as (h & Eh & Hh).
  { intros i X p HX Hp. exfalso. rewrite Ht in HX. simpl in HX.
    apply (lookup_replicate 20 (∅ : gset nat) X i) in HX as [-> _].
    exact (not_elem_of_empty p Hp). }
  unfold Cleanup. cbv zeta. rewrite Eh. simpl. eexists. split; [exact E|].
  split; [reflexivity|]. simpl. split; [|split; [|reflexivity]].
  - apply map_eq. intros k. rewrite Hh.
    destruct (decide (k ∈ ⋃ NodeTable (Internals s1))) as [Hk|]; [|reflexivity].
    exfalso. apply elem_of_union_list in Hk as (X & HX & Hk).
    rewrite Ht in HX. simpl in HX.
    apply list_elem_of_lookup in HX as [i HX].
    apply (lookup_replicate 20 (∅ : gset nat) X i) in HX as [-> _].
    exact (not_elem_of_empty k Hk).
  - rewrite Hsize. simpl. rewrite map_size_empty. reflexivity.
Qed.

(** X19.  [Update] before [Init]: [Update] only reports that the marker
    set is not initialized and goes on, so once a marker was added (in
    either mode) to a set whose arrays [Init] has not added, [Update]
    dereferences a null array at every zoom. *)
Theorem Update_before_Init (lat2y : Q → Q) (latitude longitude : Q)
    (s s' : vtkMapMarkerSet) (id zoom : Z) :
  PointData s = None →
  AddMarker lat2y latitude longitude s = Ok (id, s') →
  Update zoom s' = Fault.
Proof.
  intros Hpd H. destruct (AddMarker_view _ _ _ _ _ _ H) as [_ Hv].
  unfold view in Hv. simpl in Hv.
  injection Hv as _ _ _ _ E5 _ _ _ E9 _.
  unfold Update. cbv zeta. rewrite E9, E5, Hpd.
  rewrite !andb_false_r. reflexivity.
Qed.

(** ** The statements at concrete runs *)

Lemma two_coincident_update :
  Update_skips 18 two_coincident = false ∧
  Update 18 two_coincident = Ok two_coincident_updated.
Proof. split; vm_compute; reflexivity. Qed.

Lemma two_coincident_update_finest :
  Update_skips 19 two_coincident = false ∧
  Update 19 two_coincident = Ok two_coincident_finest.
Proof. split; vm_compute; reflexivity. Qed.

Lemma reachable_tree_shape_witness :
  length (NodeTable (Internals two_coincident)) = 20%nat ∧
  (∀ (l : nat) (nodeSet : gset nat) (p : nat),
     NodeTable (Internals two_coincident) !! l = Some nodeSet → p ∈ nodeSet →
     ∃ n, Memory two_coincident !! p = Some n ∧ Level n = Z.of_nat l) ∧
  (∀ (p : nat) (n : ClusteringNode) (q : nat),
     Memory two_coincident !! p = Some n → Parent n = Some q →
     ∃ qn, Memory two_coincident !! q = Some qn ∧ Level qn = Level n - 1 ∧
           p ∈ Children qn) ∧
  (∀ (q : nat) (qn : ClusteringNode) (c : nat),
     Memory two_coincident !! q = Some qn → c ∈ Children qn →
     ∃ n, Memory two_coincident !! c = Some n ∧ Parent n = Some q ∧
          Level n = Level qn + 1).
Proof.
  exact (reachable_tree_shape equator_lat2y 2 two_coincident
           two_coincident_reachable).
Defined.

Lemma reachable_no_orphan_witness :
  ∃ n, Memory two_coincident !! 1%nat = Some n ∧
    0 ≤ Level n ≤ 19 ∧
    (∃ nodeSet,
       NodeTable (Internals two_coincident) !! Z.to_nat (Level n)
       = Some nodeSet ∧ 1%nat ∈ nodeSet) ∧
    (0 < Level n → ∃ q, Parent n = Some q) ∧
    (Level n = 0 → Parent n = None).
Proof.
  eexists. split; [reflexivity|].
  eapply (reachable_no_orphan equator_lat2y 2 two_coincident 1).
  - exact two_coincident_reachable.
  - reflexivity.
Defined.

Lemma reachable_level_total_witness :
  ∃ nodeSet, NodeTable (Internals two_coincident) !! 18%nat = Some nodeSet ∧
    markers_in two_coincident nodeSet = 2.
Proof.
  eexists. split; [reflexivity|].
  eapply (reachable_level_total equator_lat2y 2 two_coincident 18).
  - exact two_coincident_reachable.
  - reflexivity.
Defined.

Lemma reachable_node_ids_witness :
  NumberOfNodes (Internals two_coincident)
  = Z.of_nat (length (AllNodes (Internals two_coincident))) ∧
  (∀ (p : nat) (n : ClusteringNode),
     Memory two_coincident !! p = Some n →
     0 ≤ NodeId n < NumberOfNodes (Internals two_coincident) ∧
     AllNodes (Internals two_coincident) !! Z.to_nat (NodeId n)
     = Some (Some p)) ∧
  (∀ (p q : nat) (n m : ClusteringNode),
     Memory two_coincident !! p = Some n →
     Memory two_coincident !! q = Some m →
     NodeId n = NodeId m → p = q) ∧
  (∀ (i a : nat),
     AllNodes (Internals two_coincident) !! i = Some (Some a) →
     is_Some (Memory two_coincident !! a)).
Proof.
  exact (reachable_node_ids equator_lat2y 2 two_coincident
           two_coincident_reachable).
Defined.

Lemma AddMarkers_ids_witness :
  [0; 1] = map Z.of_nat (seq 0 (length [(0, 0); (0, 0)]%Q)) ∧
  Internals_NumberOfMarkers (Internals two_coincident) = Z.of_nat (0 + 2).
Proof.
  apply (AddMarkers_ids equator_lat2y [(0, 0); (0, 0)]%Q 0 clustering_set
           [0; 1] two_coincident).
  - exact clustering_set_reachable.
  - vm_compute. reflexivity.
Defined.

Lemma AddMarker_display_witness :
  1 = Internals_NumberOfMarkers (Internals one_marker) ∧
  Internals_NumberOfMarkers (Internals two_coincident) = 1 + 1 ∧
  Points two_coincident = Points one_marker ∧
  PointData two_coincident = PointData one_marker ∧
  CurrentNodes (Internals two_coincident)
  = CurrentNodes (Internals one_marker) ∧
  ZoomLevel (Internals two_coincident) = ZoomLevel (Internals one_marker) ∧
  Initialized two_coincident = Initialized one_marker ∧
  Clustering two_coincident = Clustering one_marker ∧
  MaxClusterScaleFactor two_coincident = MaxClusterScaleFactor one_marker ∧
  ClusterDistance (Internals two_coincident)
  = ClusterDistance (Internals one_marker) ∧
  MarkersChanged (Internals two_coincident) = true ∧
  ∀ zoom, Update_skips zoom two_coincident = false.
Proof.
  exact (AddMarker_display equator_lat2y 0 0 one_marker two_coincident 1
           two_coincident_added).
Defined.

Lemma Update_materializes_witness :
  ∃ nodeSet arrays,
    NodeTable (Internals two_coincident) !! Z.to_nat 18 = Some nodeSet ∧
    CurrentNodes (Internals two_coincident_updated) = elements nodeSet ∧
    PointData two_coincident_updated = Some arrays ∧
    length (Points two_coincident_updated) = size nodeSet ∧
    length (Color arrays) = size nodeSet ∧
    length (MarkerType arrays) = size nodeSet ∧
    length (MarkerScale arrays) = size nodeSet ∧
    (∀ (i p : nat),
       CurrentNodes (Internals two_coincident_updated) !! i = Some p →
       ∃ nd, Memory two_coincident !! p = Some nd ∧
         Points two_coincident_updated !! i = Some (gcsCoords nd) ∧
         MarkerType arrays !! i
         = Some (if NumberOfMarkers nd =? 1 then MARKER_TYPE
                 else CLUSTER_TYPE) ∧
         Color arrays !! i
         = Some (if NumberOfMarkers nd =? 1 then kwBlue else kwGreen)) ∧
    Memory two_coincident_updated = Memory two_coincident ∧
    MarkersChanged (Internals two_coincident_updated) = false ∧
    ZoomLevel (Internals two_coincident_updated) = 18.
Proof.
  exact (Update_materializes 18 two_coincident two_coincident_updated
           (proj1 two_coincident_update) (proj2 two_coincident_update)).
Defined.

Lemma Update_returns_witness :
  ∃ s', Update 7 (set_MaxClusterScaleFactor 0 two_coincident) = Ok s'.
Proof.
  eapply (Update_returns equator_lat2y 2 two_coincident _ 7 0).
  - exact two_coincident_reachable.
  - reflexivity.
  - lia.
Defined.

Lemma Update_finest_witness :
  ∃ s', Update 19 (set_MaxClusterScaleFactor 0 two_coincident) = Ok s' ∧
    (Update_skips 19 (set_MaxClusterScaleFactor 0 two_coincident) = false →
     length (Points s') = 2%nat ∧
     PointData s'
     = Some (mkArrays (replicate 2 kwBlue) (replicate 2 MARKER_TYPE)
                      (replicate 2 1%float))).
Proof.
  eapply (Update_finest equator_lat2y 2 two_coincident _ 19 0).
  - exact two_coincident_reachable.
  - reflexivity.
  - lia.
Defined.

Lemma Update_accounts_witness :
  sumZ (map (child_count (Memory two_coincident_updated))
            (CurrentNodes (Internals two_coincident_updated))) = Z.of_nat 2.
Proof.
  exact (Update_accounts equator_lat2y 2 two_coincident
           two_coincident_updated 18 two_coincident_reachable
           (proj1 two_coincident_update) (proj2 two_coincident_update)).
Defined.

Lemma reachable_level_sizes_witness :
  ∃ X Y, NodeTable (Internals two_coincident) !! 18%nat = Some X ∧
    NodeTable (Internals two_coincident) !! 19%nat = Some Y ∧
    (size X ≤ size Y)%nat ∧ (0 < 2 → X ≠ ∅)%nat.
Proof.
  eexists _, _. split; [reflexivity|]. split; [reflexivity|].
  eapply (reachable_level_sizes equator_lat2y 2 two_coincident 18).
  - exact two_coincident_reachable.
  - reflexivity.
  - reflexivity.
Defined.

Lemma GetMarkerIds_after_Update_witness :
  (∃ res, GetMarkerIds (λ c, c) [0; 0] [] [] two_coincident_updated = Ok res)
  ↔ (∀ c, c ∈ [0; 0] →
       0 ≤ c
       < Z.of_nat (length (CurrentNodes (Internals two_coincident_updated)))).
Proof.
  exact (GetMarkerIds_after_Update 18 two_coincident two_coincident_updated
           (λ c, c) [0; 0] [] []
           (proj1 two_coincident_update) (proj2 two_coincident_update)).
Defined.

Lemma GetMarkerIds_finest_witness :
  ([] : list Z) = [] ∧
  ∃ picks new,
    NoDup picks ∧ (∀ p, p ∈ picks ↔ p ∈ map (λ c : Z, c) [1; 0; 1]) ∧
    [0; 1] = [] ++ new ∧ length new = length picks ∧
    NoDup new ∧ ∀ m, m ∈ new → 0 ≤ m < Z.of_nat 2.
Proof.
  apply (GetMarkerIds_finest equator_lat2y 2 two_coincident
           two_coincident_finest 19 (λ c, c) [1; 0; 1] [] [] [0; 1] []).
  - exact two_coincident_reachable.
  - lia.
  - exact (proj1 two_coincident_update_finest).
  - exact (proj2 two_coincident_update_finest).
  - vm_compute. reflexivity.
Defined.

Lemma MergeNodes_at_root_witness : MergeNodes 19 58 ∅ 0 two_roots = Fault.
Proof.
  eapply (MergeNodes_at_root 19 58 ∅ two_roots).
  - exact (proj1 (proj1 (reachable_ok _ _ _ two_roots_reachable))).
  - reflexivity.
  - reflexivity.
  - discriminate.
  - reflexivity.
  - reflexivity.
  - discriminate.
Defined.

Lemma two_apart_merge :
  MergeNodes 18 38 ∅ 1 two_apart = Ok (two_apart_merged, ∅).
Proof. vm_compute. reflexivity. Qed.

Lemma MergeNodes_frees_one_witness :
  is_Some (Memory two_apart !! 38%nat) ∧
  Memory two_apart_merged !! 38%nat = None ∧
  (∀ k, k ≠ 38%nat →
     match Memory two_apart !! k, Memory two_apart_merged !! k with
     | Some r, Some r' => NodeId r' = NodeId r ∧ Level r' = Level r
     | None, None => True
     | _, _ => False
     end) ∧
  (∀ (l : nat) (X : gset nat),
     NodeTable (Internals two_apart) !! l = Some X →
     NodeTable (Internals two_apart_merged) !! l
     = Some (if decide (l = Z.to_nat 1) then X ∖ {[38%nat]} else X)) ∧
  NumberOfNodes (Internals two_apart_merged)
  = NumberOfNodes (Internals two_apart) ∧
  CurrentNodes (Internals two_apart_merged)
  = CurrentNodes (Internals two_apart) ∧
  Points two_apart_merged = Points two_apart ∧
  PointData two_apart_merged = PointData two_apart.
Proof.
  exact (MergeNodes_frees_one 18 38 ∅ 1 two_apart two_apart_merged ∅
           two_apart_merge).
Defined.

Lemma Cleanup_frees_all_witness :
  ∃ s', Cleanup two_coincident = Ok s' ∧ Memory s' = ∅ ∧
    NodeTable (Internals s') = replicate 20 ∅ ∧
    CurrentNodes (Internals s') = [] ∧
    Internals_NumberOfMarkers (Internals s') = 0 ∧
    NumberOfNodes (Internals s') = 0 ∧
    MarkersChanged (Internals s') = true ∧
    AllNodes (Internals s') = AllNodes (Internals two_coincident) ∧
    Points s' = Points two_coincident ∧
    PointData s' = PointData two_coincident.
Proof.
  exact (Cleanup_frees_all equator_lat2y 2 two_coincident
           two_coincident_reachable).
Defined.

Lemma Cleanup_restart_witness :
  0 = 0 ∧ Internals_NumberOfMarkers (Internals one_marker_again) = 1 ∧
  tree_ok one_marker_again ∧ leaves_ok one_marker_again.
Proof.
  apply (Cleanup_restart equator_lat2y 2 two_coincident
           two_coincident_cleaned one_marker_again 0 0 0).
  - exact two_coincident_reachable.
  - vm_compute. reflexivity.
  - vm_compute. reflexivity.
Defined.

Lemma Update_before_Init_witness :
  Update 5 (state_after [(0, 0)]%Q (set_Clustering true vtkMapMarkerSet_new))
  = Fault.
Proof.
  apply (Update_before_Init equator_lat2y 0 0
           (set_Clustering true vtkMapMarkerSet_new) _ 0 5).
  - reflexivity.
  - vm_compute. reflexivity.
Defined.

(** ** Positions *)

(** X20.  Where a marker goes: on a reachable state, an [AddMarker] that
    returns has put a node for the new marker into the level set of level
    19, with the returned id, count 1 and the position (longitude,
    lat2y(latitude)); and every node that was at level 19 before is still
    there with its position, its marker id and its count. *)
Theorem AddMarker_position (lat2y : Q → Q) (N : nat) (s s' : vtkMapMarkerSet)
    (latitude longitude : Q) (id : Z) :
  reachable lat2y N s →
  AddMarker lat2y latitude longitude s = Ok (id, s') →
  (∃ (nodeSet : gset nat) (p : nat) (r : ClusteringNode),
     NodeTable (Internals s') !! 19%nat = Some nodeSet ∧ p ∈ nodeSet ∧
     Memory s' !! p = Some r ∧ MarkerId r = id ∧ NumberOfMarkers r = 1 ∧
     gcsCoords r = (longitude, lat2y latitude)) ∧
  (∀ (k : nat) (r : ClusteringNode),
     Memory s !! k = Some r → Level r = 19 →
     ∃ r', Memory s' !! k = Some r' ∧ Level r' = 19 ∧
       gcsCoords r' = gcsCoords r ∧ MarkerId r' = MarkerId r ∧
       NumberOfMarkers r' = NumberOfMarkers r).
Proof.
  intros Hr H. destruct (reachable_ok _ _ _ Hr) as (Ht & Hl & Hcl & HN).
  destruct (AddMarker_stay _ _ _ _ _ _ Hcl Ht Hl H)
    as (Hstay & r & Ha & Hlr & Hpr & Hmr & Hcr).
  split; [|exact Hstay].
  pose proof (reachable_registered _ _ _
                (reach_AddMarker _ _ _ _ _ _ _ Hr H)) as Hrg.
  destruct (rg_table _ s' Hrg _ r Ha) as (X & _ & HX & Hin).
  rewrite Hlr in HX. exists X, (length (AllNodes (Internals s))), r. auto 10.
Qed.

Lemma AddMarkers_changed (lat2y : Q → Q) (markers : list (Q * Q)) :
  ∀ (s : vtkMapMarkerSet) (ids : list Z) (s' : vtkMapMarkerSet),
    AddMarkers lat2y markers s = Ok (ids, s') →
    markers = [] ∧ s' = s ∨ MarkersChanged (Internals s') = true.
Proof.
  induction markers as [|m rest IH]; intros s ids s' H; simpl in H.
  - injection H as <- <-. auto.
  - right. bind_inv H as [id s1] E1. bind_inv H as [ids1 s2] E2.
    injection H as <- <-.
    destruct (IH _ _ _ E2) as [[-> ->]|Hc]; [|exact Hc].
    destruct (AddMarker_view _ _ _ _ _ _ E1) as [_ Hv].
    unfold view in Hv. simpl in Hv. injection Hv as _ _ _ _ _ _ _ _ E9 _.
    exact E9.
Qed.

(** X21.  Marker positions round-trip to the display: after any run of
    [AddMarker] calls that return on a fresh marker set with clustering on,
    an [Update] at a zoom of 19 or more that returns shows exactly the
    projected positions (longitude, lat2y(latitude)) of the markers, each
    once, in some order. *)
Theorem markers_displayed (lat2y : Q → Q) (markers : list (Q * Q))
    (ids : list Z) (s s' : vtkMapMarkerSet) (zoom : Z) :
  AddMarkers lat2y markers clustering_set = Ok (ids, s) →
  19 ≤ zoom → Update zoom s = Ok s' →
  Points s' ≡ₚ map (projected lat2y) markers.
Proof.
  intros Hadd Hz Hup.
  pose proof (reach_Init lat2y 0 _ (reach_new lat2y)) as Hr0.
  change (Init (set_Clustering true vtkMapMarkerSet_new))
    with clustering_set in Hr0.
  destruct (AddMarkers_reach _ _ _ _ _ _ Hr0 Hadd) as [_ Hr].
  destruct (AddMarkers_placed _ _ _ _ _ _ Hr0 Hadd) as [_ Hplaced].
  simpl in Hr.
  destruct (reachable_ok _ _ _ Hr) as ([Hst _] & Hl & Hcl & HN).
  pose proof (reachable_registered _ _ _ Hr) as Hrg.
  assert (Hs : Update_skips zoom s = false).
  { destruct (AddMarkers_changed _ _ _ _ _ Hadd) as [[-> ->]|Hc].
    - unfold Update_skips. simpl. rewrite (clip_zoom_finest zoom Hz).
      reflexivity.
    - unfold Update_skips. rewrite Hc, !andb_false_r. reflexivity. }
  destruct (Update_rebuilt _ _ _ Hs Hup)
    as (X & es & _ & HX & Hes & _ & Hpts & _).
  rewrite Hcl, (clip_zoom_finest zoom Hz) in HX. simpl in HX.
  change (Z.to_nat 19) with 19%nat in HX.
  destruct Hl as (leaves & Hnd & Htab & Hnum & Hleaves).
  rewrite Htab in HX. injection HX as <-.
  rewrite Hpts, (entries_points _ _ _ _ Hes),
    (elements_list_to_set leaves Hnd).
  assert (Hlen : length leaves = length markers) by lia.
  replace (map (position_of (Memory s)) leaves)
    with (map (projected lat2y) markers); [reflexivity|].
  apply list_eq. intros i. rewrite !list_lookup_fmap.
  destruct (markers !! i) as [m|] eqn:Hm.
  - destruct (lookup_lt_is_Some_2 leaves i) as [p Hp].
    { apply lookup_lt_Some in Hm. lia. }
    rewrite Hp. simpl. f_equal.
    destruct (Hleaves i p Hp) as (r & Hr' & _ & _ & Hid).
    destruct (Hplaced i m Hm) as (p' & r' & Hr'' & Hl' & _ & Hid' & Hpos).
    simpl in Hid'.
    destruct (rg_table _ s Hrg p' r' Hr'') as (X & _ & HX & Hin).
    rewrite Hl' in HX. change (Z.to_nat 19) with 19%nat in HX.
    rewrite Htab in HX. injection HX as <-.
    apply elem_of_list_to_set, list_elem_of_lookup in Hin as [j Hj].
    destruct (Hleaves j p' Hj) as (r2 & Hr2 & _ & _ & Hid2).
    rewrite Hr'' in Hr2. injection Hr2 as <-.
    assert (j = i) by lia. subst j.
    assert (p' = p) by congruence. subst p'.
    unfold position_of. rewrite Hr''. symmetry. exact Hpos.
  - rewrite (lookup_ge_None_2 leaves i); [reflexivity|].
    apply lookup_ge_None in Hm. lia.
Qed.

Lemma two_coincident_run :
  AddMarkers equator_lat2y [(0, 0); (0, 0)]%Q clustering_set
  = Ok ([0; 1], two_coincident).
Proof. vm_compute. reflexivity. Qed.

Lemma AddMarker_position_witness :
  (∃ (nodeSet : gset nat) (p : nat) (r : ClusteringNode),
     NodeTable (Internals two_coincident) !! 19%nat = Some nodeSet ∧
     p ∈ nodeSet ∧
     Memory two_coincident !! p = Some r ∧ MarkerId r = 1 ∧
     NumberOfMarkers r = 1 ∧ gcsCoords r = (0%Q, equator_lat2y 0)) ∧
  (∀ (k : nat) (r : ClusteringNode),
     Memory one_marker !! k = Some r → Level r = 19 →
     ∃ r', Memory two_coincident !! k = Some r' ∧ Level r' = 19 ∧
       gcsCoords r' = gcsCoords r ∧ MarkerId r' = MarkerId r ∧
       NumberOfMarkers r' = NumberOfMarkers r).
Proof.
  exact (AddMarker_position equator_lat2y 1 one_marker two_coincident 0 0 1
           one_marker_reachable two_coincident_added).
Defined.

Lemma markers_displayed_witness :
  Points two_coincident_finest
  ≡ₚ map (projected equator_lat2y) [(0, 0); (0, 0)]%Q.
Proof.
  apply (markers_displayed equator_lat2y [(0, 0); (0, 0)]%Q [0; 1]
           two_coincident two_coincident_finest 19).
  - exact two_coincident_run.
  - lia.
  - exact (proj2 two_coincident_update_finest).
Defined.

Lemma MergeNodes_in_order_witness :
  MergeNodes 18 57 ∅ 1 two_roots
  = Ok (MergeNodes_effects 18 57 ∅ two_roots) ∧
  snd (MergeNodes_effects 18 57 ∅ two_roots) = {[58%nat]}.
Proof.
  split; [|vm_compute; reflexivity].
  eapply (MergeNodes_in_order 18 57 ∅ 1 two_roots _ _ 19 58).
  constructor.
  - reflexivity.
  - reflexivity.
  - discriminate.
  - split; reflexivity.
  - reflexivity.
  - reflexivity.
  - split; eexists; reflexivity.
  - repeat split; discriminate.
  - simpl. intros c Hc. apply elem_of_elements in Hc.
    change (c ∈ [56%nat]) in Hc. apply list_elem_of_singleton in Hc as ->.
    split; [eexists; reflexivity|]. repeat split; discriminate.
  - discriminate.
  - split; [lia|]. vm_compute. lia.
  - split; [simpl; lia|]. vm_compute. lia.
Defined.
